(** * sentinel-map, perception layer

    A shallow embedding of [modules/perception/detect_and_extract.py]
    (class [PerceptionPipeline]) and of the stand-alone OCR utility
    [modules/perception/test_gps_ocr.py], with the properties of the
    frame sampler, the GeoFix decoder, the ROI patch extractor and the
    record emitter.

    Python values are modelled as follows.
    - [int] is [Z]; [//] is [Z.div], [%] is [Z.modulo] (both floor).
    - [float] is an IEEE 754 binary64 value, [spec_float] of the Standard
      Library with precision 53 and maximal exponent 1024; the arithmetic
      is the Standard Library's reference implementation ([SFadd], [SFmul],
      [SFdiv]), which rounds to nearest, ties to even.
    - [str] is [string] (ASCII text).
    - a text file opened for writing is the text handed to it together
      with the front part of that text which has reached the disk.
    - a call that may raise returns a [result]. *)

From Stdlib Require Import ZArith List String Ascii Bool Lia QArith Qround Qpower.
From Stdlib Require Import Sorted Setoid.
From Stdlib Require Import SpecFloat DecimalString DecimalN.
Import ListNotations.

Local Open Scope string_scope.
Local Open Scope Z_scope.

(* ================================================================== *)
(** ** Exceptions *)

Module Py.

(** The exception classes the modelled code can meet; all of them derive
    from [Exception].  Signals that derive from [BaseException] only
    ([KeyboardInterrupt], [SystemExit]) are outside the model. *)
Inductive exn : Type :=
| ImportError
| ValueError
| OverflowError
| ZeroDivisionError
| IOError
| LibraryError (msg : string).   (* cv2.error, TesseractError, ... *)

Inductive result (A : Type) : Type :=
| Ok (a : A)
| Raise (e : exn).
Arguments Ok {A} a.
Arguments Raise {A} e.

Definition bind {A B} (c : result A) (k : A -> result B) : result B :=
  match c with
  | Ok a => k a
  | Raise e => Raise e
  end.


Declare Scope py_scope.
Delimit Scope py_scope with py.
Notation "x <- c ;; k" := (bind c (fun x => k))
  (at level 61, c at next level, right associativity) : py_scope.
Notation "' pat <- c ;; k" := (bind c (fun x => match x with pat => k end))
  (at level 61, pat pattern, c at next level, right associativity) : py_scope.

(* ------------------------------------------------------------------ *)
(** ** Floats *)

Definition float := spec_float.
Definition prec : Z := 53.
Definition emax : Z := 1024.

Definition fadd : float -> float -> float := SFadd prec emax.
Definition fmul : float -> float -> float := SFmul prec emax.
Definition fdiv : float -> float -> float := SFdiv prec emax.
Definition fneg : float -> float := SFopp.
Definition fabs : float -> float := SFabs.

(** The float nearest to the integer [n] (exact when [|n| < 2^53]). *)
Definition Z2F (n : Z) : float := binary_normalize prec emax n 0 false.

(** The float nearest to the quotient [a / b] of two non-negative
    integers, [b > 0]: the quotient is taken with at least 55 significant
    bits and a sticky bit for the remainder, then rounded once. *)
Definition round_quot (a b : Z) : float :=
  let k := Z.max 0 (Z.log2 b + 56 - Z.log2 a) in
  let n := a * 2 ^ k in
  let sticky := if n mod b =? 0 then 0 else 1 in
  binary_normalize prec emax (2 * (n / b) + sticky) (- k - 1) false.

(** The float nearest to [d * 10^e], [d >= 0]: what a decimal literal
    and [float(str)] denote. *)
Definition float_of_decimal (d e : Z) : float :=
  if 0 <=? e then Z2F (d * 10 ^ e) else round_quot d (10 ^ (- e)).

Definition is_nan (x : float) : bool :=
  match x with S754_nan => true | _ => false end.

Definition is_inf (x : float) : bool :=
  match x with S754_infinity _ => true | _ => false end.

Definition is_zero (x : float) : bool :=
  match x with S754_zero _ => true | _ => false end.

Definition is_finite (x : float) : bool :=
  match x with S754_zero _ | S754_finite _ _ _ => true | _ => false end.

(** The sign bit ([math.copysign(1, x) < 0]); a NaN carries none here. *)
Definition sign_bit (x : float) : bool :=
  match x with
  | S754_zero s | S754_infinity s | S754_finite s _ _ => s
  | S754_nan => false
  end.

(** [float(n)] for an [int]. *)
Definition float_of_int (n : Z) : result float :=
  let f := Z2F n in
  if is_inf f then Raise OverflowError else Ok f.

(** [int(x)] for a [float]: truncation toward zero. *)
Definition int_of_float (x : float) : result Z :=
  match x with
  | S754_nan => Raise ValueError
  | S754_infinity _ => Raise OverflowError
  | S754_zero _ => Ok 0
  | S754_finite s m e =>
      let a := if 0 <=? e then Zpos m * 2 ^ e else Zpos m / 2 ^ (- e) in
      Ok (if s then - a else a)
  end.

(** [a / b] on two [int]s (true division).  CPython divides the two
    C doubles when both operands are below [2^53] in magnitude, and
    otherwise rounds the exact quotient, raising [OverflowError] when it
    is out of the float range. *)
Definition int_truediv (a b : Z) : result float :=
  if b =? 0 then Raise ZeroDivisionError
  else if (Z.abs a <? 2 ^ 53) && (Z.abs b <? 2 ^ 53)
  then Ok (fdiv (Z2F a) (Z2F b))
  else
    let q := round_quot (Z.abs a) (Z.abs b) in
    if is_inf q then Raise OverflowError
    else Ok (if Bool.eqb (a <? 0) (b <? 0) then q else fneg q).

(** The finite float of sign [s] whose value is exactly [r * 2^e], for
    [0 < r < 2^53] and [-1074 <= e]: the mantissa is shifted left until
    it has 53 bits or the exponent reaches the subnormal one. *)
Definition float_exact (s : bool) (r e : Z) : float :=
  let k := Z.max 0 (Z.min (52 - Z.log2 r) (e + 1074)) in
  S754_finite s (Z.to_pos (r * 2 ^ k)) (e - k).

(** C's [fmod(x, y)] for [y] not zero: the remainder of the truncated
    division, computed exactly, with the sign of [x]. *)
Definition fmod (x y : float) : float :=
  match x, y with
  | S754_nan, _ | _, S754_nan => S754_nan
  | S754_infinity _, _ => S754_nan
  | _, S754_zero _ => S754_nan
  | S754_zero _, _ => x
  | S754_finite _ _ _, S754_infinity _ => x
  | S754_finite sx mx ex, S754_finite _ my ey =>
      let e := Z.min ex ey in
      let r := (Zpos mx * 2 ^ (ex - e)) mod (Zpos my * 2 ^ (ey - e)) in
      if r =? 0 then S754_zero sx else float_exact sx r e
  end.

(** [x % y] on floats for [y] not zero ([float_rem] of CPython): the
    result takes the sign of the divisor. *)
Definition mod_value (x y : float) : float :=
  let m := fmod x y in
  if is_zero m then S754_zero (sign_bit y)
  else if is_nan m then m
  else if Bool.eqb (sign_bit y) (sign_bit m) then m
  else fadd m y.

Definition float_mod (x y : float) : result float :=
  if is_zero y then Raise ZeroDivisionError else Ok (mod_value x y).

(** The value of a finite float as a rational number. *)
Definition F2Q (x : float) : Q :=
  match x with
  | S754_finite s m e =>
      let a := if s then Zneg m else Zpos m in
      if 0 <=? e then inject_Z (a * 2 ^ e) else Qmake a (Z.to_pos (2 ^ (- e)))
  | _ => 0%Q
  end.

End Py.

Import Py.
Local Open Scope py_scope.

(* ================================================================== *)
(** ** Strings *)

Module Str.

(** [c.isdigit()] and the class [\d], on ASCII. *)
Definition is_digit (c : ascii) : bool :=
  let n := nat_of_ascii c in (48 <=? n)%nat && (n <=? 57)%nat.

(** [c.isspace()] and the class [\s], on ASCII: TAB, LF, VT, FF, CR,
    the four separators FS, GS, RS, US, and the space. *)
Definition is_space (c : ascii) : bool :=
  let n := nat_of_ascii c in
  ((9 <=? n)%nat && (n <=? 13)%nat) || ((28 <=? n)%nat && (n <=? 32)%nat).

Definition upper_char (c : ascii) : ascii :=
  let n := nat_of_ascii c in
  if (97 <=? n)%nat && (n <=? 122)%nat then ascii_of_nat (n - 32) else c.

(** [s.upper()] *)
Fixpoint upper (s : string) : string :=
  match s with
  | EmptyString => EmptyString
  | String c s' => String (upper_char c) (upper s')
  end.

(** [c in s] for a one-character string [c]. *)
Fixpoint contains (c : ascii) (s : string) : bool :=
  match s with
  | EmptyString => false
  | String d s' => Ascii.eqb c d || contains c s'
  end.

(** [s.replace(c, '')] for a one-character string [c]. *)
Fixpoint remove (c : ascii) (s : string) : string :=
  match s with
  | EmptyString => EmptyString
  | String d s' => if Ascii.eqb c d then remove c s' else String d (remove c s')
  end.

(** [sum(c.isdigit() for c in s)] *)
Fixpoint count_digits (s : string) : Z :=
  match s with
  | EmptyString => 0
  | String c s' => (if is_digit c then 1 else 0) + count_digits s'
  end.

Fixpoint all_chars (p : ascii -> bool) (s : string) : bool :=
  match s with
  | EmptyString => true
  | String c s' => p c && all_chars p s'
  end.

Fixpoint lstrip (s : string) : string :=
  match s with
  | String c s' => if is_space c then lstrip s' else s
  | EmptyString => s
  end.

Fixpoint rev_onto (s acc : string) : string :=
  match s with
  | EmptyString => acc
  | String c s' => rev_onto s' (String c acc)
  end.

Definition rev (s : string) : string := rev_onto s EmptyString.

(** [s.strip()] *)
Definition strip (s : string) : string := rev (lstrip (rev (lstrip s))).

Definition digit_val (c : ascii) : Z := Z.of_nat (nat_of_ascii c) - 48.

(** The longest prefix of decimal digits: its value read in base ten on
    top of [acc], its length, and the rest of the string. *)
Fixpoint read_digits (s : string) (acc : Z) (len : Z) : Z * Z * string :=
  match s with
  | String c s' =>
      if is_digit c then read_digits s' (10 * acc + digit_val c) (len + 1)
      else (acc, len, s)
  | EmptyString => (acc, len, s)
  end.

(** [float(s)] on a decimal numeral without exponent: optional
    surrounding whitespace, an optional sign, digits with at most one
    point and at least one digit.  Every other string is rejected with
    [ValueError]; the exponent, [inf], [nan] and underscore forms that
    [float] also reads cannot be produced by the patterns of the
    decoder and are not modelled. *)
Definition float_of_str (s : string) : result float :=
  let t := strip s in
  let '(neg, t) :=
    match t with
    | String c t' =>
        if Ascii.eqb c "-" then (true, t')
        else if Ascii.eqb c "+" then (false, t')
        else (false, t)
    | EmptyString => (false, t)
    end in
  let '(ip, il, t) := read_digits t 0 0 in
  let '(fp, fl, t) :=
    match t with
    | String c t' =>
        if Ascii.eqb c "." then read_digits t' ip 0 else (ip, 0, t)
    | EmptyString => (ip, 0, t)
    end in
  match t with
  | EmptyString =>
      if il + fl =? 0 then Raise ValueError
      else
        let f := float_of_decimal fp (- fl) in
        Ok (if neg then fneg f else f)
  | _ => Raise ValueError
  end.

(** A float literal of the source, given by its text. *)
Definition lit (s : string) : float :=
  match float_of_str s with
  | Ok f => f
  | Raise _ => S754_nan
  end.

End Str.

(* ================================================================== *)
(** ** Regular expressions

    The fragment of [re] the decoder uses: one-character classes,
    sequences, greedy [?] on a sub-pattern, greedy [*] and [+] on a
    class, and one capturing group.  Matching is by backtracking in
    the priority order of [re]: a greedy quantifier first tries to
    take more. *)

Module Re.

Inductive re : Type :=
| Chr (p : ascii -> bool)
| Seq (a b : re)
| Opt (a : re)
| Star (p : ascii -> bool)
| Plus (p : ascii -> bool)
| Group (a : re).

(** A match object: [group(0)] and [group(1)]. *)
Record Match : Type := { group0 : string; group1 : option string }.

(** The part of [s] that precedes its suffix [rest]. *)
Definition consumed (s rest : string) : string :=
  substring 0 (String.length s - String.length rest) s.

Section Matcher.
Context {A : Type}.

Fixpoint star (p : ascii -> bool) (s : string) (k : string -> option A)
  : option A :=
  match s with
  | String c s' =>
      if p c then
        match star p s' k with
        | Some r => Some r
        | None => k s
        end
      else k s
  | EmptyString => k s
  end.

Fixpoint run (r : re) (s : string) (g : option string)
    (k : string -> option string -> option A) : option A :=
  match r with
  | Chr p =>
      match s with
      | String c s' => if p c then k s' g else None
      | EmptyString => None
      end
  | Seq a b => run a s g (fun s' g' => run b s' g' k)
  | Opt a =>
      match run a s g k with
      | Some x => Some x
      | None => k s g
      end
  | Star p => star p s (fun s' => k s' g)
  | Plus p =>
      match s with
      | String c s' => if p c then star p s' (fun s'' => k s'' g) else None
      | EmptyString => None
      end
  | Group a => run a s g (fun s' _ => k s' (Some (consumed s s')))
  end.
End Matcher.

Definition match_at (r : re) (s : string) : option Match :=
  run r s None (fun rest g => Some {| group0 := consumed s rest; group1 := g |}).

(** [re.search(r, s)]: the match at the leftmost position that has one. *)
Fixpoint search (r : re) (s : string) : option Match :=
  match match_at r s with
  | Some m => Some m
  | None =>
      match s with
      | String _ s' => search r s'
      | EmptyString => None
      end
  end.

Fixpoint seq (rs : list re) : re :=
  match rs with
  | [] => Opt (Chr (fun _ => false))
  | [r] => r
  | r :: rs' => Seq r (seq rs')
  end.

(** The characters a match of [r] can contain. *)
Fixpoint alphabet (r : re) : ascii -> bool :=
  match r with
  | Chr p | Star p | Plus p => p
  | Seq a b => fun c => alphabet a c || alphabet b c
  | Opt a | Group a => alphabet a
  end.

Fixpoint no_group (r : re) : bool :=
  match r with
  | Chr _ | Star _ | Plus _ => true
  | Seq a b => no_group a && no_group b
  | Opt a => no_group a
  | Group _ => false
  end.

(** Classes, under [re.IGNORECASE]. *)
Definition ci (c : ascii) : ascii -> bool :=
  fun x => Ascii.eqb (Str.upper_char x) (Str.upper_char c).

Definition one_of (cs : string) : ascii -> bool :=
  fun x => Str.contains (Str.upper_char x) (Str.upper cs).

Definition either (p q : ascii -> bool) : ascii -> bool :=
  fun x => p x || q x.

Fixpoint word (w : string) : list re :=
  match w with
  | EmptyString => []
  | String c w' => Chr (ci c) :: word w'
  end.

End Re.

(* ================================================================== *)
(** ** External capabilities: OpenCV, numpy and pytesseract

    The image operations and the text recogniser are collaborators of
    the pipeline; the code is verified against any implementation of
    them.  Each call that can raise returns a [result]. *)

Inductive thresh_type : Type := THRESH_BINARY | THRESH_BINARY_INV.

Class Vision : Type := {
  image : Type;
  (** [img.shape[:2]], height first *)
  shape : image -> Z * Z;
  (** [img[y1:y2, x1:x2]] *)
  slice : image -> Z -> Z -> Z -> Z -> image;
  (** [cv2.cvtColor(img, cv2.COLOR_BGR2GRAY)] *)
  cvtColor_BGR2GRAY : image -> result image;
  (** [cv2.threshold(img, thresh, maxval, type)[1]] *)
  threshold : image -> Z -> Z -> thresh_type -> result image;
  (** [cv2.adaptiveThreshold(img, maxval, ADAPTIVE_THRESH_GAUSSIAN_C,
      THRESH_BINARY, block, C)] *)
  adaptiveThreshold : image -> Z -> Z -> Z -> result image;
  (** [import pytesseract] *)
  import_pytesseract : result unit;
  (** [pytesseract.image_to_string(img, config=...)] *)
  image_to_string : image -> string -> result string;
  (** [cv2.resize(img, (width, height))] *)
  resize : image -> Z * Z -> result image;
  (** the output of [cv2.resize] has the size that was asked for *)
  resize_shape : forall img w h out,
      resize img (w, h) = Ok out -> shape out = (h, w)
}.

(* ================================================================== *)
(** ** GeoFix decoder *)

Module Decoder.

Import Str Re.

Record GeoFix : Type := {
  latitude : float;
  longitude : float;
  heading : float
}.

Definition LF : ascii := "010"%char.
Definition dot : ascii -> bool := fun x => Ascii.eqb x ".".

(** [r'[NS]\s*(\d+\.?\s*\d+)'] *)
Definition lat_re : re :=
  seq [Chr (one_of "NS"); Star is_space;
       Group (seq [Plus is_digit; Opt (Chr dot); Star is_space; Plus is_digit])].

(** [r'[EW]\s*(\d+\.?\s*\d+)'] *)
Definition lon_re : re :=
  seq [Chr (one_of "EW"); Star is_space;
       Group (seq [Plus is_digit; Opt (Chr dot); Star is_space; Plus is_digit])].

(** [r'(\d+)\s*KM/H'] *)
Definition speed_re : re :=
  seq (Group (Plus is_digit) :: Star is_space :: word "KM/H").

(** [m.group(1)]; on a group that took no part in the match it is
    [None], and the method call on it raises. *)
Definition group1_str (m : Match) : result string :=
  match group1 m with
  | Some g => Ok g
  | None => Raise (LibraryError "AttributeError")
  end.

(** [m.group(1).replace(' ', '').replace('\n', '')] *)
Definition clean_number (g : string) : string :=
  remove LF (remove " " g).

(** One coordinate: the number after the marker, negated when the
    marker [neg] occurs in the upper-cased match. *)
Definition parse_coord (r : re) (neg : ascii) (text : string)
  : result (option float) :=
  match search r text with
  | None => Ok None
  | Some m =>
      g <- group1_str m;;
      v <- float_of_str (clean_number g);;
      Ok (Some (if contains neg (upper (group0 m)) then fneg (fabs v) else v))
  end.

Definition parse_speed (text : string) : result (option float) :=
  match search speed_re text with
  | None => Ok None
  | Some m =>
      g <- group1_str m;;
      v <- float_of_str g;;
      Ok (Some v)
  end.

Definition zero : float := S754_zero false.

(** Lines 88-116 of [extract_gps_from_frame]: [Some] fix when the
    [return] inside the [try] is reached. *)
Definition parse_overlay (text : string) : result (option GeoFix) :=
  lat <- parse_coord lat_re "S" text;;
  lon <- parse_coord lon_re "W" text;;
  hd <- parse_speed text;;
  match lat, lon with
  | Some la, Some lo =>
      Ok (Some {| latitude := la; longitude := lo;
                  heading := match hd with Some h => h | None => zero end |})
  | _, _ => Ok None
  end.

Definition c_0_15 : float := Eval vm_compute in lit "0.15".
Definition c_0_35 : float := Eval vm_compute in lit "0.35".
Definition base_lat : float := Eval vm_compute in lit "43.7900".
Definition base_lon : float := Eval vm_compute in fneg (lit "79.3140").
Definition base_heading : float := Eval vm_compute in lit "45.0".
Definition c_0_0001 : float := Eval vm_compute in lit "0.0001".
Definition c_2_5 : float := Eval vm_compute in lit "2.5".

(** [int(n * c)] for an [int] [n] and a float constant [c]. *)
Definition int_scale (n : Z) (c : float) : result Z :=
  f <- float_of_int n;;
  int_of_float (fmul f c).

Section WithVision.
Context {V : Vision}.

(** The bottom 15% and left 35% of the frame. *)
Definition overlay_region (frame : image) : result image :=
  let '(h, w) := shape frame in
  overlay_height <- int_scale h c_0_15;;
  overlay_width <- int_scale w c_0_35;;
  Ok (slice frame (h - overlay_height) h 0 overlay_width).

(** The body of the [try] block of [extract_gps_from_frame]. *)
Definition ocr_decode (frame : image) : result (option GeoFix) :=
  _ <- import_pytesseract;;
  overlay <- overlay_region frame;;
  gray <- cvtColor_BGR2GRAY overlay;;
  binary <- threshold gray 127 255 THRESH_BINARY;;
  text <- image_to_string binary "--psm 6";;
  parse_overlay text.

(** The simulated drift that follows the [try] block. *)
Definition fallback_fix (frame_number : Z) : result GeoFix :=
  a <- int_truediv frame_number 10000;;
  let lat := fadd base_lat (fmul a c_0_0001) in
  b <- int_truediv frame_number 10000;;
  let lon := fadd base_lon (fmul b c_0_0001) in
  c <- int_truediv frame_number 100;;
  d <- float_of_int 360;;
  hd <- float_mod (fadd base_heading (fmul c c_2_5)) d;;
  Ok {| latitude := lat; longitude := lon; heading := hd |}.

(** [PerceptionPipeline.extract_gps_from_frame]: every exception of
    the [try] block is caught, and the fallback follows unless the
    block returned. *)
Definition extract_gps_from_frame (frame : image) (frame_number : Z)
  : result GeoFix :=
  match ocr_decode frame with
  | Ok (Some geo) => Ok geo
  | Ok None | Raise _ => fallback_fix frame_number
  end.

End WithVision.

End Decoder.

(* ================================================================== *)
(** ** The stand-alone OCR utility, [test_gps_ocr.py] *)

Module OcrTool.

Import Str Re Decoder.

Definition colon_or_space : ascii -> bool :=
  either (fun x => Ascii.eqb x ":") is_space.

(** The capturing groups of the label patterns: an optional minus
    sign (first one only), [\d+], an optional point, [\d*]. *)
Definition signed_number : re :=
  Group (seq [Opt (Chr (fun x => Ascii.eqb x "-")); Plus is_digit;
              Opt (Chr dot); Star is_digit]).
Definition plain_number : re :=
  Group (seq [Plus is_digit; Opt (Chr dot); Star is_digit]).

(** [lat[:\s]+] followed by the signed number *)
Definition lat_label_re : re :=
  seq (word "lat" ++ [Plus colon_or_space; signed_number]).

(** [lon[:\s]+] followed by the signed number *)
Definition lon_label_re : re :=
  seq (word "lon" ++ [Plus colon_or_space; signed_number]).

(** [h(?:ea)?d(?:ing)?[:\s]+] followed by the unsigned number *)
Definition heading_label_re : re :=
  seq [Chr (ci "h"); Opt (seq (word "ea")); Chr (ci "d");
       Opt (seq (word "ing")); Plus colon_or_space; plain_number].

Definition lat_patterns : list re := [lat_re; lat_label_re].
Definition lon_patterns : list re := [lon_re; lon_label_re].
Definition heading_patterns : list re := [speed_re; heading_label_re].

(** The loop over the coordinate patterns: the first pattern that
    matches and whose number parses gives the value; a [ValueError]
    of [float] moves on to the next pattern. *)
Fixpoint first_coord (pats : list re) (neg : ascii) (text : string)
  : result (option float) :=
  match pats with
  | [] => Ok None
  | r :: rest =>
      match search r text with
      | None => first_coord rest neg text
      | Some m =>
          g <- group1_str m;;
          match float_of_str (clean_number g) with
          | Ok v =>
              Ok (Some (if contains neg (upper (group0 m))
                        then fneg (fabs v) else v))
          | Raise ValueError => first_coord rest neg text
          | Raise e => Raise e
          end
      end
  end.

(** The loop over the heading patterns: the first match is parsed. *)
Fixpoint first_heading (pats : list re) (text : string)
  : result (option float) :=
  match pats with
  | [] => Ok None
  | r :: rest =>
      match search r text with
      | None => first_heading rest text
      | Some m =>
          g <- group1_str m;;
          v <- float_of_str g;;
          Ok (Some v)
      end
  end.

(** [max(results, key=lambda x: sum(c.isdigit() for c in x[1]))[1]]:
    the first text among those with the greatest digit count. *)
Fixpoint best_of (best : string) (texts : list string) : string :=
  match texts with
  | [] => best
  | t :: rest =>
      if count_digits best <? count_digits t then best_of t rest
      else best_of best rest
  end.

Definition best_text (texts : list string) : string :=
  match texts with
  | [] => ""
  | t :: rest => best_of t rest
  end.

Definition parse_best (text : string)
  : result (option float * option float * option float) :=
  lat <- first_coord lat_patterns "S" text;;
  lon <- first_coord lon_patterns "W" text;;
  hd <- first_heading heading_patterns text;;
  Ok (lat, lon, hd).

Section WithVision.
Context {V : Vision}.

(** The three binarized variants of the overlay, in the order of the
    source: plain, inverted, adaptive. *)
Definition variants (frame : image) : result (list image) :=
  overlay <- overlay_region frame;;
  gray <- cvtColor_BGR2GRAY overlay;;
  binary1 <- threshold gray 127 255 THRESH_BINARY;;
  binary2 <- threshold gray 127 255 THRESH_BINARY_INV;;
  binary3 <- adaptiveThreshold gray 255 11 2;;
  Ok [binary1; binary2; binary3].

Fixpoint ocr_all (imgs : list image) : result (list string) :=
  match imgs with
  | [] => Ok []
  | img :: rest =>
      text <- image_to_string img "--psm 6";;
      texts <- ocr_all rest;;
      Ok (text :: texts)
  end.

(** [extract_gps_from_frame_ocr(frame, debug=False)] *)
Definition extract_gps_from_frame_ocr (frame : image)
  : result (option float * option float * option float) :=
  match import_pytesseract with
  | Raise ImportError => Ok (None, None, None)
  | Raise e => Raise e
  | Ok _ =>
      imgs <- variants frame;;
      texts <- ocr_all imgs;;
      parse_best (best_text texts)
  end.

End WithVision.

End OcrTool.

(* ================================================================== *)
(** ** ROI patch extractor *)

Module Roi.

Definition bbox : Type := (Z * Z * Z * Z)%type.

Definition center (b : bbox) : Z * Z :=
  let '(x1, y1, x2, y2) := b in ((x1 + x2) / 2, (y1 + y2) / 2).

Definition half_size (b : bbox) : Z :=
  let '(x1, y1, x2, y2) := b in Z.max (x2 - x1) (y2 - y1) / 2.

(** The crop window [(crop_x1, crop_y1, crop_x2, crop_y2)] in a frame
    of height [h] and width [w]. *)
Definition crop_window (h w : Z) (b : bbox) : bbox :=
  let '(center_x, center_y) := center b in
  let half := half_size b in
  (Z.max 0 (center_x - half), Z.max 0 (center_y - half),
   Z.min w (center_x + half), Z.min h (center_y + half)).

Section WithVision.
Context {V : Vision}.

(** [PerceptionPipeline.extract_roi_patch] *)
Definition extract_roi_patch (frame : image) (b : bbox) (patch_size : Z)
  : result image :=
  let '(h, w) := shape frame in
  let '(crop_x1, crop_y1, crop_x2, crop_y2) := crop_window h w b in
  let patch := slice frame crop_y1 crop_y2 crop_x1 crop_x2 in
  resize patch (patch_size, patch_size).

End WithVision.

End Roi.

(* ================================================================== *)
(** ** Perception pipeline: [process_video] *)

Module Pipeline.

Import Str Decoder Roi.

(** One box of the detector's results, after the conversions of lines
    245-248: the corners through [int], the confidence through
    [float], the class through [result.names]. *)
Record Box : Type := {
  x1 : Z; y1 : Z; x2 : Z; y2 : Z;
  confidence : float;
  class_name : string
}.

(** One data row handed to [csv_writer.writerow], before the f-string
    formatting of its cells. *)
Record Row : Type := {
  frame_number : Z;
  timestamp_sec : float;
  u : float;
  v : Z;
  row_confidence : float;
  row_class_name : string;
  vehicle_lat : float;
  vehicle_lon : float;
  row_heading : float
}.

Inductive CsvLine : Type :=
| Header
| Data (r : Row).

(** [f"{n:0{width}d}"] *)
Definition format_d (width : nat) (n : Z) : string :=
  let digits := NilEmpty.string_of_uint (N.to_uint (Z.to_N (Z.abs n))) in
  let body := if n <? 0 then String "-" digits else digits in
  let pad := (width - String.length body)%nat in
  if n <? 0
  then String "-" (string_of_list_ascii (repeat "0"%char pad) ++ digits)
  else string_of_list_ascii (repeat "0"%char pad) ++ digits.

(** [f"frame_{frame_count:06d}_det_{detection_count:04d}.jpg"] *)
Definition patch_filename (frame_count detection_count : Z) : string :=
  "frame_" ++ format_d 6 frame_count ++ "_det_"
           ++ format_d 4 detection_count ++ ".jpg".

(** [os.path.join(dir, name)] for a relative [name]. *)
Definition path_join (dir name : string) : string :=
  match rev dir with
  | EmptyString => name
  | String "/" _ => dir ++ name
  | _ => dir ++ "/" ++ name
  end.

(** Round half to even of the quotient [a / q], for [q > 0]. *)
Definition div_half_even (a q : Z) : Z :=
  let n := a / q in
  let r := a mod q in
  if 2 * r <? q then n
  else if q <? 2 * r then n + 1
  else if Z.even n then n else n + 1.

(** The digits of [n >= 0] with the point before the last [d] of
    them. *)
Definition fixed (d : nat) (n : Z) : string :=
  let digits := format_d (S d) n in
  let k := (String.length digits - d)%nat in
  match d with
  | O => digits
  | _ => substring 0 k digits ++ "." ++ substring k d digits
  end.

(** [f"{x:.{d}f}"]: the exact value of [x], rounded to [d] decimals,
    ties to even. *)
Definition format_f (d : nat) (x : float) : string :=
  match x with
  | S754_nan => "nan"
  | S754_infinity s => if s then "-inf" else "inf"
  | S754_zero s => (if s then "-" else "") ++ fixed d 0
  | S754_finite s m e =>
      let a := Zpos m * 10 ^ Z.of_nat d in
      let n := if 0 <=? e then a * 2 ^ e else div_half_even a (2 ^ (- e)) in
      (if s then "-" else "") ++ fixed d n
  end.

(** The cells of a line as lines 209-213 and 266-276 hand them to
    [writerow].  [v] is [y2], an [int] that came from a float at line
    245, so its conversion back by the format is exact. *)
Definition cells (line : CsvLine) : list string :=
  match line with
  | Header =>
      ["frame_number"; "timestamp_sec"; "u"; "v"; "confidence";
       "class_name"; "vehicle_lat"; "vehicle_lon"; "heading"]
  | Data r =>
      [format_d 0 (frame_number r);
       format_f 3 (timestamp_sec r);
       format_f 2 (u r);
       format_f 2 (Z2F (v r));
       format_f 4 (row_confidence r);
       row_class_name r;
       format_f 6 (vehicle_lat r);
       format_f 6 (vehicle_lon r);
       format_f 1 (row_heading r)]
  end.

(** The writer of the [csv] module with its default dialect: a cell
    that holds a comma, a quote or a line break is put in quotes, its
    quotes doubled; the cells are joined by commas and the line ends
    with CR LF. *)
Definition quote : ascii := "034"%char.
Definition CR : ascii := "013"%char.

Definition needs_quotes (cell : string) : bool :=
  existsb (fun c => Ascii.eqb c "," || Ascii.eqb c quote
                    || Ascii.eqb c CR || Ascii.eqb c LF)
          (list_ascii_of_string cell).

Fixpoint double_quotes (cell : string) : string :=
  match cell with
  | EmptyString => EmptyString
  | String c rest =>
      if Ascii.eqb c quote
      then String quote (String quote (double_quotes rest))
      else String c (double_quotes rest)
  end.

Definition csv_cell (cell : string) : string :=
  if needs_quotes cell
  then String quote (double_quotes cell ++ String quote EmptyString)
  else cell.

(** The text [csv_writer.writerow(line)] hands to [csv_file.write]. *)
Definition render (line : CsvLine) : string :=
  String.concat "," (map csv_cell (cells line))
  ++ String CR (String LF EmptyString).

(** The file behind the CSV writer, opened with ['w']: the characters
    handed to [csv_file.write] so far, and those of them that have
    reached the disk.  The file is buffered, so the disk holds a front
    part of the text only, until the file is closed. *)
Record File : Type := {
  text : string;
  disk : string
}.

Definition opened : File := {| text := ""; disk := "" |}.

(** The characters on the disk become the first [n] of the text, if
    they were fewer. *)
Definition flush_to (n : nat) (f : File) : File :=
  {| text := text f;
     disk := substring 0 (Nat.max (String.length (disk f)) n) (text f) |}.

(** [csv_file.write(more)], after which [n] characters are on the
    disk. *)
Definition write_file (more : string) (n : nat) (f : File) : File :=
  flush_to n {| text := text f ++ more; disk := disk f |}.

(** The attributes of a [PerceptionPipeline] object ([self]); the model
    itself is a capability of the environment. *)
Record Self : Type := {
  device : string;
  conf_threshold : float;
  target_classes : list string;
  total_frames : Z;
  total_detections : Z;
  inference_times : list float
}.

(** [PerceptionPipeline.__init__]: [target_classes or [...]] takes the
    default for [None] and for the empty list. *)
Definition init (device : string) (conf_threshold : float)
    (target_classes : option (list string)) : Self :=
  {| device := device;
     conf_threshold := conf_threshold;
     target_classes :=
       match target_classes with
       | Some (c :: cs) => c :: cs
       | _ => ["stop sign"; "traffic light"]
       end;
     total_frames := 0;
     total_detections := 0;
     inference_times := [] |}.

(** The returned dictionary. *)
Record Stats : Type := {
  stat_total_frames : Z;
  stat_processed_frames : Z;
  stat_total_detections : Z;
  stat_elapsed_time : float;
  stat_avg_fps : float;
  stat_avg_inference_ms : float;
  stat_output_csv : string;
  stat_output_patches_dir : string
}.

Section WithVision.
Context {V : Vision}.

(** What [cv2.VideoCapture(video_path)] gives. *)
Record Video : Type := {
  isOpened : bool;
  CAP_PROP_FPS : float;
  CAP_PROP_FRAME_COUNT : float;
  frames : list image
}.

(** The collaborators of one run: the detector, the clock, numpy's
    mean and the outcome of each write. *)
Record Env : Type := {
  (** [self.model(frame, conf=..., device=..., verbose=False)] *)
  model : image -> float -> string -> result (list (list Box));
  (** the duration measured around the inference on a frame *)
  inference_time : Z -> float;
  (** [time.time() - start_time] at the end of the run *)
  elapsed : float;
  np_mean : list float -> float;
  makedirs_ok : bool;
  open_ok : bool;
  (** whether the call of [writerow] returns, on a writer that has
      taken so many lines; it raises [IOError] otherwise (a buffered
      file raises at the call in which it fails to empty its buffer) *)
  writerow_ok : nat -> bool;
  (** the value [cv2.imwrite] returns for a path *)
  imwrite_ok : string -> bool;
  (** how many characters of the CSV file are on the disk when that
      call of [writerow] ends, whether it returns or raises *)
  flushed : nat -> nat;
  (** whether [csv_file.close()] returns, with the whole text on the
      disk; it raises [IOError] otherwise, with so many characters on
      the disk *)
  close_ok : bool;
  flushed_at_close : nat
}.

(** What the run leaves outside: the patch files written, the lines
    the CSV writer has taken (the calls of [writerow] that returned),
    the paths [cv2.imwrite] was called with, and the CSV file. *)
Record Output : Type := {
  patches : list (string * image);
  csv : list CsvLine;
  imwrite_calls : list string;
  file : File
}.

(** The local variables of the loop, the list behind
    [self.inference_times], the output, and the frame numbers
    [extract_gps_from_frame] was called with. *)
Record Run : Type := {
  frame_count : Z;
  processed_count : Z;
  detection_count : Z;
  times : list float;
  out : Output;
  decoded : list Z
}.

(** Statements: a state transformer that may stop on an exception,
    keeping the state reached. *)
Definition M (A : Type) : Type := Run -> Run * result A.

Definition ret {A} (a : A) : M A := fun s => (s, Ok a).

Definition mbind {A B} (c : M A) (k : A -> M B) : M B :=
  fun s =>
    match c s with
    | (s', Ok a) => k a s'
    | (s', Raise e) => (s', Raise e)
    end.

Definition lift {A} (c : result A) : M A := fun s => (s, c).
Definition gets {A} (f : Run -> A) : M A := fun s => (s, Ok (f s)).
Definition modify (f : Run -> Run) : M unit := fun s => (f s, Ok tt).

Notation "x <~ c ;; k" := (mbind c (fun x => k))
  (at level 61, c at next level, right associativity).
Notation "c ;;; k" := (mbind c (fun _ => k))
  (at level 61, right associativity).

Fixpoint for_each {A} (l : list A) (body : A -> M unit) : M unit :=
  match l with
  | [] => ret tt
  | a :: l' => body a ;;; for_each l' body
  end.

Definition set_out (f : Output -> Output) (s : Run) : Run :=
  {| frame_count := frame_count s; processed_count := processed_count s;
     detection_count := detection_count s; times := times s;
     out := f (out s); decoded := decoded s |}.

Variable env : Env.
Variable self : Self.

(** [cv2.imwrite(path, patch)]; the returned flag is dropped. *)
Definition imwrite (path : string) (patch : image) : M unit :=
  modify (set_out (fun o =>
    {| patches := if imwrite_ok env path
                  then patches o ++ [(path, patch)] else patches o;
       csv := csv o;
       imwrite_calls := imwrite_calls o ++ [path];
       file := file o |})).

(** [csv_writer.writerow(line)]: the text of the line goes to the
    file; the call returns, or it raises [IOError]. *)
Definition writerow (line : CsvLine) : M unit :=
  fun s =>
    let k := List.length (csv (out s)) in
    let wrote o := write_file (render line) (flushed env k) (file o) in
    if writerow_ok env k
    then (set_out (fun o =>
            {| patches := patches o; csv := csv o ++ [line];
               imwrite_calls := imwrite_calls o; file := wrote o |}) s,
          Ok tt)
    else (set_out (fun o =>
            {| patches := patches o; csv := csv o;
               imwrite_calls := imwrite_calls o; file := wrote o |}) s,
          Raise IOError).

(** [csv_file.close()] (line 290): the buffer is emptied to the disk;
    the call raises [IOError] when that fails.  A run that an
    exception cuts short does not come to this line: the file is left
    as it is. *)
Definition close_file : M unit :=
  fun s =>
    let closed n o :=
      {| patches := patches o; csv := csv o;
         imwrite_calls := imwrite_calls o; file := flush_to n (file o) |} in
    if close_ok env
    then (set_out (fun o => closed (String.length (text (file o))) o) s,
          Ok tt)
    else (set_out (closed (flushed_at_close env)) s, Raise IOError).

(** Lines 243-278: the body of the loop over the boxes. *)
Definition emit (output_patches_dir : string) (video_fps : Z)
    (frame : image) (gps : GeoFix) (box : Box) : M unit :=
  if negb (existsb (String.eqb (class_name box)) (target_classes self))
  then ret tt
  else
    u <~ lift (int_truediv (x1 box + x2 box) 2) ;;
    patch <~ lift (extract_roi_patch frame
                     (x1 box, y1 box, x2 box, y2 box) 256) ;;
    fc <~ gets frame_count ;;
    dc <~ gets detection_count ;;
    let patch_path := path_join output_patches_dir (patch_filename fc dc) in
    imwrite patch_path patch ;;;
    ts <~ lift (int_truediv fc video_fps) ;;
    writerow (Data {| frame_number := fc; timestamp_sec := ts;
                      u := u; v := y2 box;
                      row_confidence := confidence box;
                      row_class_name := class_name box;
                      vehicle_lat := latitude gps;
                      vehicle_lon := longitude gps;
                      row_heading := heading gps |}) ;;;
    modify (fun s =>
      {| frame_count := frame_count s; processed_count := processed_count s;
         detection_count := detection_count s + 1; times := times s;
         out := out s; decoded := decoded s |}).

(** Lines 222-281: the body of the [while] loop for one frame read. *)
Definition step (output_patches_dir : string) (video_fps frame_interval : Z)
    (frame : image) : M unit :=
  fc <~ gets frame_count ;;
  if negb (fc mod frame_interval =? 0)
  then
    modify (fun s =>
      {| frame_count := frame_count s + 1;
         processed_count := processed_count s;
         detection_count := detection_count s; times := times s;
         out := out s; decoded := decoded s |})
  else
    modify (fun s =>
      {| frame_count := frame_count s; processed_count := processed_count s;
         detection_count := detection_count s; times := times s;
         out := out s; decoded := decoded s ++ [fc] |}) ;;;
    gps <~ lift (extract_gps_from_frame frame fc) ;;
    results <~ lift (model env frame (conf_threshold self) (device self)) ;;
    modify (fun s =>
      {| frame_count := frame_count s; processed_count := processed_count s;
         detection_count := detection_count s;
         times := times s ++ [inference_time env fc];
         out := out s; decoded := decoded s |}) ;;;
    for_each results (fun boxes =>
      for_each boxes (emit output_patches_dir video_fps frame gps)) ;;;
    modify (fun s =>
      {| frame_count := frame_count s + 1;
         processed_count := processed_count s + 1;
         detection_count := detection_count s; times := times s;
         out := out s; decoded := decoded s |}).

Definition empty_output : Output :=
  {| patches := []; csv := []; imwrite_calls := []; file := opened |}.

(** The state when the loop is entered (lines 215-217), on an object
    whose [inference_times] holds [ts]. *)
Definition start (ts : list float) : Run :=
  {| frame_count := 0; processed_count := 0; detection_count := 0;
     times := ts; out := empty_output; decoded := [] |}.

(** Lines 292-306. *)
Definition make_stats (output_csv output_patches_dir : string) (s : Run)
  : Stats :=
  let elapsed_time := elapsed env in
  let avg_inference_time :=
    match times s with
    | [] => zero
    | _ => np_mean env (times s)
    end in
  let avg_fps :=
    if SFltb zero elapsed_time
    then fdiv (Z2F (processed_count s)) elapsed_time
    else zero in
  {| stat_total_frames := frame_count s;
     stat_processed_frames := processed_count s;
     stat_total_detections := detection_count s;
     stat_elapsed_time := elapsed_time;
     stat_avg_fps := avg_fps;
     stat_avg_inference_ms := fmul avg_inference_time (Z2F 1000);
     stat_output_csv := output_csv;
     stat_output_patches_dir := output_patches_dir |}.

(** [max(1, video_fps // sample_fps)] *)
Definition frame_interval_of (video_fps sample_fps : Z) : Z :=
  Z.max 1 (video_fps / sample_fps).

(** [process_video] as a statement on the run state. *)
Definition run_video (video : Video) (output_csv output_patches_dir : string)
    (sample_fps : Z) : M Stats :=
  (if isOpened video then ret tt else lift (Raise ValueError)) ;;;
  video_fps <~ lift (int_of_float (CAP_PROP_FPS video)) ;;
  total <~ lift (int_of_float (CAP_PROP_FRAME_COUNT video)) ;;
  (if sample_fps =? 0 then lift (Raise ZeroDivisionError) else ret tt) ;;;
  let frame_interval := frame_interval_of video_fps sample_fps in
  (if makedirs_ok env then ret tt else lift (Raise IOError)) ;;;
  (if open_ok env then ret tt else lift (Raise IOError)) ;;;
  writerow Header ;;;
  for_each (frames video)
    (step output_patches_dir video_fps frame_interval) ;;;
  close_file ;;;
  s <~ gets (fun s => s) ;;
  ret (make_stats output_csv output_patches_dir s).

(** [self.process_video(video_path, output_csv, output_patches_dir,
    sample_fps)]: the object after the call, what the run wrote, and
    the dictionary returned or the exception raised. *)
Definition process_video (video : Video)
    (output_csv output_patches_dir : string) (sample_fps : Z)
  : Self * Output * result Stats :=
  let '(s, r) := run_video video output_csv output_patches_dir sample_fps
                   (start (inference_times self)) in
  ({| device := device self; conf_threshold := conf_threshold self;
      target_classes := target_classes self;
      total_frames := total_frames self;
      total_detections := total_detections self;
      inference_times := times s |},
   out s, r).

End WithVision.

End Pipeline.

(* ================================================================== *)
(** ** A concrete environment

    Pictures that carry the text each binarization makes readable; it
    instantiates the capabilities for the examples below. *)

Module Sample.

Import Pipeline.

Inductive stage : Type := Raw | Gray | Plain | Inverted | Adaptive | Resized.

Record picture : Type := {
  rows : Z;
  cols : Z;
  made_by : stage;
  plain_text : string;
  inverted_text : string;
  adaptive_text : string
}.

Definition restage (s : stage) (p : picture) : picture :=
  {| rows := rows p; cols := cols p; made_by := s;
     plain_text := plain_text p; inverted_text := inverted_text p;
     adaptive_text := adaptive_text p |}.

Definition resized (p : picture) (size : Z * Z) : picture :=
  {| rows := snd size; cols := fst size; made_by := Resized;
     plain_text := plain_text p; inverted_text := inverted_text p;
     adaptive_text := adaptive_text p |}.

Definition read (p : picture) : string :=
  match made_by p with
  | Plain => plain_text p
  | Inverted => inverted_text p
  | Adaptive => adaptive_text p
  | _ => ""
  end.

(** A vision stack over pictures; [installed] tells whether
    [pytesseract] can be imported. *)
Definition vision (installed : bool) : Vision :=
  {| image := picture;
     shape := fun p => (rows p, cols p);
     slice := fun p y1 y2 x1 x2 =>
       {| rows := Z.max 0 (y2 - y1); cols := Z.max 0 (x2 - x1);
          made_by := made_by p; plain_text := plain_text p;
          inverted_text := inverted_text p;
          adaptive_text := adaptive_text p |};
     cvtColor_BGR2GRAY := fun p => Ok (restage Gray p);
     threshold := fun p _ _ t =>
       Ok (restage (match t with
                    | THRESH_BINARY => Plain
                    | THRESH_BINARY_INV => Inverted
                    end) p);
     adaptiveThreshold := fun p _ _ _ => Ok (restage Adaptive p);
     import_pytesseract := if installed then Ok tt else Raise ImportError;
     image_to_string := fun p _ => Ok (read p);
     resize := fun p size => Ok (resized p size);
     resize_shape := fun p w h out (H : Ok (resized p (w, h)) = Ok out) =>
       match H in (_ = r)
             return (match r with
                     | Ok o => (rows o, cols o) = (h, w)
                     | Raise _ => True
                     end)
       with eq_refl => eq_refl end |}.

(** The same stack with the [cv2.resize] that refuses a picture
    without rows or without columns, as OpenCV does. *)
Definition resize_checked (p : picture) (size : Z * Z) : result picture :=
  if (rows p <=? 0) || (cols p <=? 0)
  then Raise (LibraryError "cv2.error")
  else Ok (resized p size).

Definition checking_vision : Vision :=
  {| image := picture;
     shape := fun p => (rows p, cols p);
     slice := @slice (vision true);
     cvtColor_BGR2GRAY := @cvtColor_BGR2GRAY (vision true);
     threshold := @threshold (vision true);
     adaptiveThreshold := @adaptiveThreshold (vision true);
     import_pytesseract := Ok tt;
     image_to_string := @image_to_string (vision true);
     resize := resize_checked;
     resize_shape := fun p w h out =>
       match (rows p <=? 0) || (cols p <=? 0) as b
             return ((if b then Raise (LibraryError "cv2.error")
                      else Ok (resized p (w, h))) = Ok out ->
                     (rows out, cols out) = (h, w))
       with
       | true => fun H =>
           match H in (_ = r)
                 return (match r with
                         | Ok o => (rows o, cols o) = (h, w)
                         | Raise _ => True
                         end)
           with eq_refl => I end
       | false => fun H =>
           match H in (_ = r)
                 return (match r with
                         | Ok o => (rows o, cols o) = (h, w)
                         | Raise _ => True
                         end)
           with eq_refl => eq_refl end
       end |}.

(** A 100 x 100 frame whose overlay reads [plain] after the plain
    threshold and [inverted] after the inverted one. *)
Definition frame_reading (plain inverted : string) : picture :=
  {| rows := 100; cols := 100; made_by := Raw;
     plain_text := plain; inverted_text := inverted; adaptive_text := "" |}.

Definition overlay_text : string := "40 KM/H N43.792879 W79.314193".

(** An overlay text with a TAB inside the latitude, and one with a
    speed of 400 km/h. *)
Definition TAB : ascii := "009"%char.
Definition tabbed_number : string := "43." ++ String TAB "792879".
Definition tabbed_text : string := "N" ++ tabbed_number ++ " W79.314193".
Definition fast_text : string := "400 KM/H N43.7 W79.3".

Definition one : float := Eval vm_compute in Str.lit "1".
Definition three : float := Eval vm_compute in Str.lit "3".

(** numpy's mean on a short list: the sum from the left, divided by the
    length. *)
Definition mean (l : list float) : float :=
  fdiv (fold_left fadd l Decoder.zero) (Z2F (Z.of_nat (List.length l))).

Definition c_0_9 : float := Eval vm_compute in Str.lit "0.9".
Definition c_0_25 : float := Eval vm_compute in Str.lit "0.25".

Definition stop_sign : Box :=
  {| x1 := 0; y1 := 0; x2 := 20; y2 := 40;
     confidence := c_0_9;
     class_name := "stop sign" |}.

(** An environment whose detector sees [boxes] on every frame, whose
    inference takes [dt] seconds, and whose row writes succeed as
    [rows_ok] says; the CSV file keeps its text in the buffer until it
    is closed. *)
Definition env_with (boxes : list Box) (dt : float) (rows_ok : nat -> bool)
  : @Env (vision true) :=
  @Build_Env (vision true) (fun _ _ _ => Ok [boxes]) (fun _ => dt) one mean
             true true rows_ok (fun _ => true) (fun _ => 0%nat) true 0%nat.

Definition video_of (fps : float) (fs : list picture) : @Video (vision true) :=
  @Build_Video (vision true) true fps (Z2F (Z.of_nat (List.length fs))) fs.

Definition pipeline : Self :=
  init "cpu" c_0_25 None.



(** The same detector with inferences of one and of three seconds. *)
Definition busy_env : @Env (vision true) :=
  env_with [stop_sign] one (fun _ => true).

Definition slow_env : @Env (vision true) :=
  env_with [stop_sign] three (fun _ => true).

Definition video_1 : @Video (vision true) :=
  video_of (Z2F 30) [frame_reading "" ""].

(** A detector that sees nothing, and two seconds of video at 30
    frames per second. *)
Definition quiet_env : @Env (vision true) :=
  env_with [] one (fun _ => true).

Definition video_61 : @Video (vision true) :=
  video_of (Z2F 30) (repeat (frame_reading "" "") 61).

End Sample.

(* ================================================================== *)
(** ** Vocabulary of the statements *)

Module Spec.

Import Str Decoder OcrTool Roi Pipeline.

(** [c, c+1, ..., c+n-1] *)
Fixpoint zseq (c : Z) (n : nat) : list Z :=
  match n with
  | O => []
  | S n' => c :: zseq (c + 1) n'
  end.

(** The indices below [n] that are multiples of [interval]. *)
Definition multiples (interval : Z) (c : Z) (n : nat) : list Z :=
  filter (fun i => i mod interval =? 0) (zseq c n).


(** A float of sign [sx] that is a zero or a finite number with a
    mantissa of at most 53 bits and an exponent of at most [E]: its
    magnitude is below [2^(53+E)]. *)
Definition within (sx : bool) (E : Z) (x : float) : Prop :=
  x = S754_zero sx \/
  exists m e, x = S754_finite sx m e /\ Z.pos (digits2_pos m) <= 53 /\ e <= E.

(** The fallback fix as the specification gives it, each operation
    taken in binary64 arithmetic on the operands converted to floats:
    lat = 43.7900 + (frameIndex/10000)*0.0001,
    lon = -79.3140 + (frameIndex/10000)*0.0001,
    heading = (45.0 + (frameIndex/100)*2.5) mod 360. *)
Definition closed_form (frameIndex : Z) : GeoFix :=
  {| latitude :=
       fadd (lit "43.7900")
            (fmul (fdiv (Z2F frameIndex) (Z2F 10000)) (lit "0.0001"));
     longitude :=
       fadd (fneg (lit "79.3140"))
            (fmul (fdiv (Z2F frameIndex) (Z2F 10000)) (lit "0.0001"));
     heading :=
       mod_value
         (fadd (lit "45.0") (fmul (fdiv (Z2F frameIndex) (Z2F 100)) (lit "2.5")))
         (Z2F 360) |}.

(** The claim that the pipeline's decoder parses the text with the most
    digits among the three binarized variants. *)
Definition ensemble_claim : Prop :=
  forall (V : Vision) (frame : image) (frame_number : Z)
         (imgs : list image) (texts : list string),
    import_pytesseract = Ok tt ->
    variants frame = Ok imgs ->
    ocr_all imgs = Ok texts ->
    extract_gps_from_frame frame frame_number =
      match parse_overlay (best_text texts) with
      | Ok (Some geo) => Ok geo
      | _ => fallback_fix frame_number
      end.

(** The patch file names of consecutive records, the first of which
    has the ordinal [i]; [fs] gives the frame index of each record. *)
Fixpoint filenames_from (i : Z) (fs : list Z) : list string :=
  match fs with
  | [] => []
  | f :: fs' => patch_filename f i :: filenames_from (i + 1) fs'
  end.

(** The data rows of a CSV file. *)
Fixpoint data_rows (lines : list CsvLine) : list Row :=
  match lines with
  | [] => []
  | Header :: rest => data_rows rest
  | Data r :: rest => r :: data_rows rest
  end.

(** The object [self] with an empty [inference_times]. *)
Definition without_times (self : Self) : Self :=
  {| device := device self; conf_threshold := conf_threshold self;
     target_classes := target_classes self;
     total_frames := total_frames self;
     total_detections := total_detections self;
     inference_times := [] |}.


Section WithVision.
Context {V : Vision}.

(** The state between two records: [fs] lists the frame index of every
    record emitted so far, each with its row and its patch write. *)
Definition settled (dir : string) (s : Run) (fs : list Z) : Prop :=
  0 <= frame_count s /\
  Forall (fun f => 0 <= f) fs /\
  detection_count s = Z.of_nat (List.length fs) /\
  map frame_number (data_rows (csv (out s))) = fs /\
  imwrite_calls (out s) = map (path_join dir) (filenames_from 0 fs).

(** The state at any point of a run: as [settled], except that the
    last patch write may still lack its row. *)
Definition in_flight (dir : string) (s : Run) (fs : list Z) : Prop :=
  exists rows_done,
    0 <= frame_count s /\
    Forall (fun f => 0 <= f) fs /\
    detection_count s = Z.of_nat (List.length rows_done) /\
    map frame_number (data_rows (csv (out s))) = rows_done /\
    imwrite_calls (out s) = map (path_join dir) (filenames_from 0 fs) /\
    (fs = rows_done \/ exists f, fs = (rows_done ++ [f])%list).

(** The state when the loop over the frames is entered: the header is
    the only line the writer has taken. *)
Definition after_header (env : Env) (ts : list float) : Run :=
  {| frame_count := 0; processed_count := 0; detection_count := 0;
     times := ts;
     out := {| patches := []; csv := [Header]; imwrite_calls := [];
               file := write_file (render Header) (flushed env 0) opened |};
     decoded := [] |}.

(** The state [s] with the CSV file [f]. *)
Definition with_file (f : File) (s : Run) : Run :=
  set_out (fun o => {| patches := patches o; csv := csv o;
                       imwrite_calls := imwrite_calls o; file := f |}) s.

(** The end of a run whose loop over the frames ended as [X] says:
    after a loop that completes the file is closed and the statistics
    are made. *)
Definition finish (env : Env) (output_csv dir : string)
    (X : Run * result unit) : Run * result Stats :=
  match snd X with
  | Ok _ =>
      let C := close_file env (fst X) in
      (fst C,
       match snd C with
       | Ok _ => Ok (make_stats env output_csv dir (fst C))
       | Raise e => Raise e
       end)
  | Raise e => (fst X, Raise e)
  end.

(** The set-up of a run, before the header is written: the value of
    [video_fps], or the exception that ends the run. *)
Definition setup (env : Env) (video : Video) (sample_fps : Z) : result Z :=
  if isOpened video then
    match int_of_float (CAP_PROP_FPS video) with
    | Raise e => Raise e
    | Ok video_fps =>
        match int_of_float (CAP_PROP_FRAME_COUNT video) with
        | Raise e => Raise e
        | Ok _ =>
            if sample_fps =? 0 then Raise ZeroDivisionError
            else if negb (makedirs_ok env) then Raise IOError
            else if negb (open_ok env) then Raise IOError
            else Ok video_fps
        end
    end
  else Raise ValueError.

(** The state [s] of a run on an object whose [inference_times] held
    [ts] before the run instead of nothing. *)
Definition with_times (ts : list float) (s : Run) : Run :=
  {| frame_count := frame_count s; processed_count := processed_count s;
     detection_count := detection_count s;
     times := ts ++ times s;
     out := out s; decoded := decoded s |}.

(** A statement that never reads [self.inference_times]. *)
Definition times_blind {A} (c : M A) : Prop :=
  forall ts s, c (with_times ts s) = (with_times ts (fst (c s)), snd (c s)).

(** The statistics [st] with the average inference time taken over
    [all_times]. *)
Definition with_avg (env : Env) (all_times : list float) (st : Stats)
  : Stats :=
  {| stat_total_frames := stat_total_frames st;
     stat_processed_frames := stat_processed_frames st;
     stat_total_detections := stat_total_detections st;
     stat_elapsed_time := stat_elapsed_time st;
     stat_avg_fps := stat_avg_fps st;
     stat_avg_inference_ms :=
       fmul (match all_times with
             | [] => zero
             | _ => np_mean env all_times
             end) (Z2F 1000);
     stat_output_csv := stat_output_csv st;
     stat_output_patches_dir := stat_output_patches_dir st |}.







(** The [try] block of the decoder does not reach its [return]. *)
Definition decoding_fails (frame : image) : Prop :=
  match ocr_decode frame with
  | Ok (Some _) => False
  | _ => True
  end.



(** A relation between the state before and after that every run of a
    statement respects, whether it ends normally or not. *)
Definition respects {A} (R : Run -> Run -> Prop) (c : M A) : Prop :=
  forall s, R s (fst (c s)).

(** The statement leaves the frame counters and the trace of decoder
    calls alone. *)
Definition frame_local (s s' : Run) : Prop :=
  frame_count s' = frame_count s /\
  processed_count s' = processed_count s /\
  decoded s' = decoded s /\
  times s' = times s.

End WithVision.

End Spec.

From Stdlib Require Import Permutation.

(* ================================================================== *)
(** ** Vocabulary of the statements on the rows of a run *)

Module Rows.

Import Str Decoder Roi Pipeline Spec.

(** The test of line 251, [class_name in self.target_classes]. *)
Definition is_target (self : Self) (box : Box) : bool :=
  existsb (String.eqb (class_name box)) (target_classes self).

Section WithVision.
Context {V : Vision}.

(** The frames read by [cap.read()], each with its index; the first
    has the index [c]. *)
Fixpoint indexed (c : Z) (fs : list image) : list (Z * image) :=
  match fs with
  | [] => []
  | f :: fs' => (c, f) :: indexed (c + 1) fs'
  end.

(** The boxes of the target classes the detector returns on the frame
    of index [i] when that frame is sampled, in the order of the
    detector's results. *)
Definition frame_detections (env : Env) (self : Self) (interval : Z)
    (i : Z) (frame : image) : list (Z * image * Box) :=
  if i mod interval =? 0 then
    match model env frame (conf_threshold self) (device self) with
    | Ok results =>
        map (fun box => (i, frame, box))
            (filter (is_target self) (List.concat results))
    | Raise _ => []
    end
  else [].

Definition detections (env : Env) (self : Self) (interval : Z)
    (c : Z) (fs : list image) : list (Z * image * Box) :=
  flat_map (fun p => frame_detections env self interval (fst p) (snd p))
           (indexed c fs).

(** [row] is the CSV row of the detection [d]: the frame index, the
    time stamp [frame_count / video_fps], the bottom centre of the box,
    its confidence and class, and the fix the decoder returns on that
    frame. *)
Definition row_of (video_fps : Z) (row : Row) (d : Z * image * Box)
  : Prop :=
  let '(i, frame, box) := d in
  frame_number row = i /\
  int_truediv i video_fps = Ok (timestamp_sec row) /\
  int_truediv (x1 box + x2 box) 2 = Ok (u row) /\
  v row = y2 box /\
  row_confidence row = confidence box /\
  row_class_name row = class_name box /\
  extract_gps_from_frame frame i =
    Ok {| latitude := vehicle_lat row;
          longitude := vehicle_lon row;
          heading := row_heading row |}.

(** The statement [c], entered with [frame_count = fc], appends to the
    CSV file the rows of the detections [expected], in order: all of
    them when it ends normally, with [frame_count = fc'], and the
    first ones when it stops on an exception. *)
Definition adds_rows (video_fps : Z) (c : M unit) (fc fc' : Z)
    (expected : list (Z * image * Box)) : Prop :=
  forall s, frame_count s = fc ->
    exists new done rest,
      data_rows (csv (out (fst (c s)))) =
        (data_rows (csv (out s)) ++ new)%list /\
      expected = (done ++ rest)%list /\
      Forall2 (row_of video_fps) new done /\
      (snd (c s) = Ok tt -> rest = [] /\ frame_count (fst (c s)) = fc').

End WithVision.

End Rows.

(* ================================================================== *)
(** ** Vocabulary of the statements on the files of a run *)

Module Files.

Import Str Decoder Roi Pipeline Spec.

Section WithVision.
Context {V : Vision}.

(** The patch files are those of the calls of [cv2.imwrite] that
    returned [True], and each holds a picture of 256 x 256. *)
Definition patches_written (env : Env) (o : Output) : Prop :=
  map fst (patches o) = filter (imwrite_ok env) (imwrite_calls o) /\
  Forall (fun p => shape (snd p) = (256, 256)) (patches o).

(** A relation from the state before a statement to the state after
    it that says the statement keeps [P]. *)
Definition keeps (P : Run -> Prop) (s s' : Run) : Prop := P s -> P s'.

(** A sampled frame adds one to [processed_count] and its inference
    time to [self.inference_times]; every frame adds one to
    [frame_count]. *)
Definition counted (env : Env) (interval : Z) (c : Z) (n : nat)
    (s s' : Run) : Prop :=
  frame_count s' = frame_count s + Z.of_nat n /\
  processed_count s' =
    processed_count s + Z.of_nat (List.length (multiples interval c n)) /\
  times s' =
    (times s ++ map (inference_time env) (multiples interval c n))%list.


End WithVision.

End Files.

(* ================================================================== *)
(** ** Vocabulary of the statements on the patterns *)

Module Capture.

Import Re.

(** The pattern has its capturing group on every way through it, so
    that [group(1)] of a match is never [None]. *)
Fixpoint sets_group (r : re) : bool :=
  match r with
  | Group _ => true
  | Seq a b => sets_group a || sets_group b
  | Chr _ | Opt _ | Star _ | Plus _ => false
  end.

End Capture.

(* ================================================================== *)
(** ** Batch driver, [batch_process_external.py] *)

Module Batch.

Definition VIDEO_DIR : string := "/Volumes/VOLUME1/DCIM/Movie".
Definition OUTPUT_CSV : string :=
  "../../data/detections/batch_external_detections.csv".
Definition OUTPUT_PATCHES : string := "../../data/roi_patches".
Definition PYTHON_BIN : string :=
  "/Users/boyangli/Repo/sentinel-map/.venv/bin/python".
Definition SCRIPT_PATH : string := "detect_and_extract.py".

(** What a call of [subprocess.run] does: it returns with the return
    code of the child, or raises [TimeoutExpired] or another
    exception. *)
Inductive outcome : Type :=
| Completed (returncode : Z)
| TimeoutExpired
| OtherException.

(** What the script finds outside: whether the video directory
    exists, the names of its entries that match [*.MP4] in the order
    [glob] yields them, whether the output CSV exists and whether it
    can be renamed, and what the k-th call of [subprocess.run] does
    with its command. *)
Record World : Type := {
  video_dir_exists : bool;
  mp4_names : list string;
  csv_exists : bool;
  rename_ok : bool;
  subprocess_run : nat -> list string -> outcome
}.

(** [sorted(...)] on paths of one directory: by name, code point after
    code point; the sort is stable. *)
Fixpoint insert (x : string) (l : list string) : list string :=
  match l with
  | [] => [x]
  | y :: l' => if String.leb x y then x :: l else y :: insert x l'
  end.

Fixpoint sorted (l : list string) : list string :=
  match l with
  | [] => []
  | x :: l' => insert x (sorted l')
  end.

(** [str(video_path)] for the entry [name] of the video directory. *)
Definition video_path (name : string) : string :=
  VIDEO_DIR ++ "/" ++ name.

(** Lines 66-75: the command for one video. *)
Definition cmd (name : string) : list string :=
  [PYTHON_BIN; SCRIPT_PATH;
   "--video"; video_path name;
   "--output-csv"; OUTPUT_CSV;
   "--output-patches"; OUTPUT_PATCHES;
   "--device"; "mps";
   "--conf"; "0.25";
   "--sample-fps"; "1"].

(** The local variables of [main] that the loop updates, and the
    commands run so far. *)
Record Tally : Type := {
  success_count : Z;
  failed_videos : list string;
  commands : list (list string)
}.

(** Lines 77-100: one turn of the loop. *)
Definition run_one (w : World) (t : Tally) (name : string) : Tally :=
  let k := List.length (commands t) in
  let called := (commands t ++ [cmd name])%list in
  match subprocess_run w k (cmd name) with
  | Completed 0 =>
      {| success_count := success_count t + 1;
         failed_videos := failed_videos t;
         commands := called |}
  | Completed _ | TimeoutExpired | OtherException =>
      {| success_count := success_count t;
         failed_videos := (failed_videos t ++ [name])%list;
         commands := called |}
  end.

(** How [main] ends: [sys.exit(code)], an exception that nothing
    catches, or the final report. *)
Inductive ending : Type :=
| Exit (code : Z)
| Raised (e : exn)
| Report (renamed : bool) (t : Tally).

Definition main (w : World) : ending :=
  if negb (video_dir_exists w) then Exit 1
  else
    let video_files := sorted (mp4_names w) in
    if (List.length video_files =? 0)%nat then Exit 1
    else if csv_exists w && negb (rename_ok w) then Raised IOError
    else
      Report (csv_exists w)
        (fold_left (run_one w) video_files
           {| success_count := 0; failed_videos := []; commands := [] |}).

(** The return code [0] of the child. *)
Definition succeeded (o : outcome) : bool :=
  match o with
  | Completed 0 => true
  | _ => false
  end.

(** The outcome of each video of [names], the first of which is the
    [k]-th call. *)
Fixpoint outcomes (w : World) (k : nat) (names : list string)
  : list (string * outcome) :=
  match names with
  | [] => []
  | n :: rest => (n, subprocess_run w k (cmd n)) :: outcomes w (S k) rest
  end.

End Batch.

(* ================================================================== *)
(** ** Element trees, the fragment of [xml.etree.ElementTree] in use *)

Module Xml.

Unset Elimination Schemes.
Inductive element : Type :=
| Element (tag : string) (attrib : list (string * string))
          (children : list element).
Set Elimination Schemes.

Definition tag_of (e : element) : string :=
  let 'Element t _ _ := e in t.
Definition attrib_of (e : element) : list (string * string) :=
  let 'Element _ a _ := e in a.
Definition children_of (e : element) : list element :=
  let 'Element _ _ c := e in c.

Fixpoint lookup (key : string) (l : list (string * string))
  : option string :=
  match l with
  | [] => None
  | (k, v) :: l' => if String.eqb key k then Some v else lookup key l'
  end.

(** [e.get(key)] *)
Definition get (e : element) (key : string) : option string :=
  lookup key (attrib_of e).

(** [e.iter()]: the element and all that is below it, in document
    order. *)
Fixpoint iter (e : element) : list element :=
  match e with
  | Element _ _ cs => e :: flat_map iter cs
  end.

(** [e.findall('.//' + tag)]: the elements of that tag at all levels
    beneath [e], in document order. *)
Definition findall_beneath (tag : string) (e : element) : list element :=
  filter (fun x => String.eqb (tag_of x) tag)
         (flat_map iter (children_of e)).

(** [e.findall(tag)]: the children of that tag. *)
Definition findall (tag : string) (e : element) : list element :=
  filter (fun x => String.eqb (tag_of x) tag) (children_of e).

End Xml.

(* ================================================================== *)
(** ** The OSM scripts: merging tiles, filtering and parsing nodes *)

Module Osm.

Import Xml.

(** A [dict] whose keys and values are what [tag.get] returns, a
    string or [None]: the bindings in the order of their first
    insertion. *)
Definition dict : Type := list (option string * option string).

Definition key_eqb (a b : option string) : bool :=
  match a, b with
  | Some x, Some y => String.eqb x y
  | None, None => true
  | _, _ => false
  end.

(** [d[k] = v] *)
Fixpoint dict_set (k v : option string) (d : dict) : dict :=
  match d with
  | [] => [(k, v)]
  | (k', v') :: d' =>
      if key_eqb k k' then (k, v) :: d' else (k', v') :: dict_set k v d'
  end.

Fixpoint dict_find (k : option string) (d : dict)
  : option (option string) :=
  match d with
  | [] => None
  | (k', v) :: d' => if key_eqb k k' then Some v else dict_find k d'
  end.

(** [k in d] *)
Definition has_key (k : string) (d : dict) : bool :=
  match dict_find (Some k) d with
  | Some _ => true
  | None => false
  end.

(** [d.get(k)] *)
Definition dict_get (k : string) (d : dict) : option string :=
  match dict_find (Some k) d with
  | Some v => v
  | None => None
  end.

(** [d.get(k, default)] *)
Definition dict_get_or (k default : string) (d : dict) : option string :=
  match dict_find (Some k) d with
  | Some v => v
  | None => Some default
  end.

(** The tags of a node: [tags[tag.get('k')] = tag.get('v')] for each
    [tag] child in turn; the comprehension
    [{tag.get('k'): tag.get('v') for tag in node.findall('tag')}]
    builds the same dictionary. *)
Definition node_tags (node : element) : dict :=
  fold_left (fun d tag => dict_set (get tag "k") (get tag "v") d)
            (findall "tag" node) [].

(** Truth of a value that is a string or [None]. *)
Definition truthy (v : option string) : bool :=
  match v with
  | Some (String _ _) => true
  | _ => false
  end.

(** [a or b] *)
Definition py_or (a b : option string) : option string :=
  if truthy a then a else b.

(** [v in values] for a value that is a string or [None]. *)
Definition among (v : option string) (values : list string) : bool :=
  match v with
  | Some s => existsb (String.eqb s) values
  | None => false
  end.

Record OsmNode : Type := {
  osm_id : option string;
  osm_type : option string;
  lat : float;
  lon : float;
  tags : dict
}.

(** The root [osm] element that both scripts create. *)
Definition osm_root (children : list element) : element :=
  Element "osm" [("version", "0.6")] children.

Section WithParser.

(** [ET.fromstring] and [ET.parse(...).getroot()], which raise
    [ParseError] on a text that is not well formed, [float] on a
    string, and the writing of a tree to a file. *)
Variable fromstring : string -> result element.
Variable parse_file : string -> result element.
Variable float_of_text : string -> result float.
Variable write_file : element -> string -> result unit.

Definition ParseError : exn := LibraryError "ParseError".
Definition TypeError : exn := LibraryError "TypeError".

(** Whether [except ET.ParseError] catches the exception. *)
Definition is_parse_error (e : exn) : bool :=
  match e with
  | LibraryError msg => String.eqb msg "ParseError"
  | _ => false
  end.

(** [float(node.get(key))]: [float(None)] raises [TypeError]. *)
Definition float_attr (node : element) (key : string) : result float :=
  match get node key with
  | Some s => float_of_text s
  | None => Raise TypeError
  end.

(** ** [ingest_osm_to_snowflake.parse_osm_xml] *)

(** Lines 33-54: the loop over the nodes, [nodes] being the list built
    so far. *)
Fixpoint parse_nodes (todo : list element) (nodes : list OsmNode)
  : result (list OsmNode) :=
  match todo with
  | [] => Ok nodes
  | node :: rest =>
      la <- float_attr node "lat";;
      lo <- float_attr node "lon";;
      let tags := node_tags node in
      if has_key "traffic_sign" tags || has_key "highway" tags
      then
        parse_nodes rest
          (nodes ++ [{| osm_id := get node "id";
                        osm_type := py_or (dict_get "traffic_sign" tags)
                                          (dict_get_or "highway" "unknown" tags);
                        lat := la; lon := lo; tags := tags |}])%list
      else parse_nodes rest nodes
  end.

Definition parse_osm_xml (xml_file : string) : result (list OsmNode) :=
  root <- parse_file xml_file;;
  parse_nodes (findall_beneath "node" root) [].

(** ** [download_toronto_osm.filter_traffic_signs] *)

(** Lines 81-93: whether the node is appended to the filtered tree. *)
Definition kept (node : element) : bool :=
  let tags := node_tags node in
  if existsb (fun key => has_key key tags)
       ["traffic_sign"; "highway"; "traffic_signals"; "direction";
        "maxspeed"]
  then
    if among (dict_get "highway" tags)
         ["traffic_signals"; "stop"; "give_way"; "speed_camera"]
    then true
    else if has_key "traffic_sign" tags then true
    else false
  else false.

(** Lines 80-93: the loop, on the children of the filtered tree and
    the count so far. *)
Fixpoint filter_nodes (todo : list element) (filtered : list element)
    (traffic_count : Z) : list element * Z :=
  match todo with
  | [] => (filtered, traffic_count)
  | node :: rest =>
      if kept node
      then filter_nodes rest (filtered ++ [node])%list (traffic_count + 1)
      else filter_nodes rest filtered traffic_count
  end.

(** [filter_traffic_signs(input_file, output_file)]: the tree that is
    written and the count that is returned. *)
Definition filter_traffic_signs (input_file output_file : string)
  : result (element * Z) :=
  root <- parse_file input_file;;
  let '(filtered, traffic_count) :=
    filter_nodes (findall_beneath "node" root) [] 0 in
  _ <- write_file (osm_root filtered) output_file;;
  Ok (osm_root filtered, traffic_count).

(** ** [download_toronto_tiled.merge_osm_tiles] *)

(** [node_id in seen_ids], on the identifiers seen so far. *)
Definition seen (node_id : option string) (seen_ids : list (option string))
  : bool :=
  existsb (key_eqb node_id) seen_ids.

(** Lines 89-93: the nodes of one tile. *)
Fixpoint add_nodes (todo : list element) (merged : list element)
    (seen_ids : list (option string))
  : list element * list (option string) :=
  match todo with
  | [] => (merged, seen_ids)
  | node :: rest =>
      let node_id := get node "id" in
      if negb (seen node_id seen_ids)
      then add_nodes rest (merged ++ [node])%list (node_id :: seen_ids)
      else add_nodes rest merged seen_ids
  end.

(** Lines 83-95: the loop over the tiles; an empty tile and a tile
    that does not parse are passed over. *)
Fixpoint merge_tiles (tiles_data : list string) (merged : list element)
    (seen_ids : list (option string)) : result (list element) :=
  match tiles_data with
  | [] => Ok merged
  | tile_data :: rest =>
      match tile_data with
      | EmptyString => merge_tiles rest merged seen_ids
      | _ =>
          match fromstring tile_data with
          | Ok tile_root =>
              let '(merged', seen_ids') :=
                add_nodes (findall_beneath "node" tile_root) merged seen_ids in
              merge_tiles rest merged' seen_ids'
          | Raise e =>
              if is_parse_error e then merge_tiles rest merged seen_ids
              else Raise e
          end
      end
  end.

(** [merge_osm_tiles(tiles_data)]: the root of the merged tree. *)
Definition merge_osm_tiles (tiles_data : list string) : result element :=
  merged <- merge_tiles tiles_data [] [];;
  Ok (osm_root merged).

(** The nodes of the tiles that are not empty and parse, in the order
    of the tiles. *)
Fixpoint tile_nodes (tiles_data : list string) : list element :=
  match tiles_data with
  | [] => []
  | tile_data :: rest =>
      match tile_data, fromstring tile_data with
      | String _ _, Ok tile_root =>
          (findall_beneath "node" tile_root ++ tile_nodes rest)%list
      | _, _ => tile_nodes rest
      end
  end.

End WithParser.

(** The identifiers of a list of nodes. *)
Definition ids (nodes : list element) : list (option string) :=
  map (fun n => get n "id") nodes.

(** [merged] holds, for each identifier met in [past], the first node
    of [past] that has it, and [seen_ids] holds these identifiers. *)
Definition merged_from (past merged : list element)
    (seen_ids : list (option string)) : Prop :=
  NoDup (ids merged) /\
  (forall id, seen id seen_ids = true <-> In id (ids merged)) /\
  (forall id, In id (ids merged) <-> In id (ids past)) /\
  (forall k, In k merged ->
     exists before after,
       past = (before ++ k :: after)%list /\
       ~ In (get k "id") (ids before)).

(** The test of [parse_osm_xml] on the tags of a node. *)
Definition is_sign (node : element) : bool :=
  has_key "traffic_sign" (node_tags node)
  || has_key "highway" (node_tags node).

(** [float] reads the latitude and the longitude of the node. *)
Definition readable (float_of_text : string -> result float)
    (node : element) : Prop :=
  exists la lo,
    float_attr float_of_text node "lat" = Ok la /\
    float_attr float_of_text node "lon" = Ok lo.

(** [osm] is the dictionary [parse_osm_xml] builds for [node]. *)
Definition osm_of (float_of_text : string -> result float)
    (node : element) (osm : OsmNode) : Prop :=
  osm_id osm = get node "id" /\
  float_attr float_of_text node "lat" = Ok (lat osm) /\
  float_attr float_of_text node "lon" = Ok (lon osm) /\
  tags osm = node_tags node /\
  osm_type osm =
    py_or (dict_get "traffic_sign" (node_tags node))
          (dict_get_or "highway" "unknown" (node_tags node)).

(** The four values of [highway] that [filter_traffic_signs] keeps. *)
Definition kept_highways : list string :=
  ["traffic_signals"; "stop"; "give_way"; "speed_camera"].

End Osm.

(* ================================================================== *)
(** ** Sample tiles *)

Module OsmSample.

Import Xml Osm.

Definition tag (k v : string) : element :=
  Element "tag" [("k", k); ("v", v)] [].

Definition node (id : string) (tags : list element) : element :=
  Element "node" [("id", id); ("lat", "43.65"); ("lon", "-79.38")] tags.

Definition stop_1 : element := node "1" [tag "highway" "stop"].
Definition signal_2 : element := node "2" [tag "highway" "traffic_signals"].
Definition signal_2_again : element :=
  node "2" [tag "highway" "traffic_signals"; tag "direction" "forward"].
Definition lamp_3 : element :=
  node "3" [tag "highway" "street_lamp"; tag "direction" "90"].
Definition sign_4 : element :=
  node "4" [tag "traffic_sign" "CA:stop"; tag "traffic_sign" "stop"].

Definition tile_a : element := Element "osm" [] [stop_1; signal_2].
Definition tile_b : element :=
  Element "osm" [] [signal_2_again; lamp_3; sign_4].

(** A parser that knows three texts. *)
Definition fromstring (text : string) : result element :=
  if String.eqb text "a" then Ok tile_a
  else if String.eqb text "b" then Ok tile_b
  else Raise ParseError.

Definition all_in_one : element :=
  Element "osm" [] [stop_1; signal_2; lamp_3; sign_4].

Definition parse_file (path : string) : result element :=
  if String.eqb path "toronto_full.osm" then Ok all_in_one
  else if String.eqb path "toronto_traffic.xml"
  then Ok (osm_root [stop_1; signal_2; sign_4])
  else Raise IOError.

Definition float_of_text (s : string) : result float := Str.float_of_str s.

Definition write_file (tree : element) (path : string) : result unit :=
  Ok tt.

End OsmSample.

(* ================================================================== *)
(** ** Tiled download, [download_toronto_tiled.py] *)

Module Tiles.

(** [a < b] on floats. *)
Definition flt (a b : float) : bool := SFltb a b.

(** [min(a, b)]: [b] when [b < a], and otherwise [a]. *)
Definition py_min (a b : float) : float := if flt b a then b else a.

Definition tile : Type := (float * float * float * float)%type.

Section CreateTiles.
Variable min_lon max_lat max_lon tile_size : float.

(** Lines 29-37, the loop over the longitudes of one row.  The loops
    of [create_tiles] go on while a float comparison holds, so a
    number of turns is given: [None] tells that the loop has not
    ended within it. *)
Fixpoint row (turns : nat) (lat lon : float) : option (list tile) :=
  match turns with
  | O => None
  | S turns' =>
      if flt lon max_lon then
        match row turns' lat (fadd lon tile_size) with
        | Some tiles =>
            Some ((lat, lon, py_min (fadd lat tile_size) max_lat,
                   py_min (fadd lon tile_size) max_lon) :: tiles)
        | None => None
        end
      else Some []
  end.

(** Lines 27-38, the loop over the latitudes. *)
Fixpoint rows (turns : nat) (lat : float) : option (list tile) :=
  match turns with
  | O => None
  | S turns' =>
      if flt lat max_lat then
        match row turns lat min_lon with
        | Some here =>
            match rows turns' (fadd lat tile_size) with
            | Some above => Some (here ++ above)%list
            | None => None
            end
        | None => None
        end
      else Some []
  end.

End CreateTiles.

(** [create_tiles(bbox, tile_size)], within [turns] turns of each
    loop. *)
Definition create_tiles (turns : nat) (bbox : tile) (tile_size : float)
  : option (list tile) :=
  let '(min_lat, min_lon, max_lat, max_lon) := bbox in
  rows min_lon max_lat max_lon tile_size turns min_lat.

(** ** [download_tile] *)

(** What one request does: [requests.post] followed by
    [raise_for_status] gives the content of the response or raises. *)
Inductive reply : Type :=
| Content (body : string)
| Failed (e : exn).

(** The requests made and the seconds slept so far. *)
Record Net : Type := { requests : nat; slept : Z }.

(** The request failed with an exception that the loop catches. *)
Definition caught (is_request_exception : exn -> bool) (r : reply) : bool :=
  match r with
  | Failed e => is_request_exception e
  | Content _ => false
  end.

Section DownloadTile.

(** The reply to the k-th request of the program, and the exceptions
    that [except requests.exceptions.RequestException] catches
    ([Timeout] is one of them). *)
Variable post : nat -> reply.
Variable is_request_exception : exn -> bool.

(** Lines 59-75: the turns of [for attempt in range(retry)] that are
    left, [left] of them, from the turn [attempt]. *)
Fixpoint attempts (left : nat) (attempt retry : Z) (net : Net)
  : Net * result (option string) :=
  match left with
  | O => (net, Ok None)
  | S left' =>
      let net1 := {| requests := S (requests net); slept := slept net |} in
      match post (requests net) with
      | Content body => (net1, Ok (Some body))
      | Failed e =>
          if is_request_exception e then
            if attempt <? retry - 1
            then attempts left' (attempt + 1) retry
                   {| requests := requests net1; slept := slept net1 + 2 |}
            else (net1, Raise e)
          else (net1, Raise e)
      end
  end.

(** [download_tile(bbox, retry)]: the content of the response, or
    [None] when the loop ends without a request. *)
Definition download_tile (retry : Z) (net : Net)
  : Net * result (option string) :=
  attempts (Z.to_nat retry) 0 retry net.

End DownloadTile.

End Tiles.

(* ================================================================== *)
(** ** Quick check of the decoder, [quick_ocr_test.py] *)

Module QuickTest.

Import Decoder Pipeline.

Section WithVision.
Context {V : Vision}.

(** How the script ends: [sys.exit(code)], an exception that nothing
    catches, or its last line, after one printed line for each frame
    handled: the index and the fix. *)
Inductive ending : Type :=
| Exit (code : Z)
| Raised (e : exn)
| Printed (lines : list (Z * GeoFix)).

(** Lines 33-42: [for i in range(3)], on the frames that [cap.read()]
    still gives; [todo] turns are left and [i] is the index. *)
Fixpoint first_frames (todo : nat) (i : Z) (frames : list image)
    (lines : list (Z * GeoFix)) : ending :=
  match todo, frames with
  | O, _ | _, [] => Printed lines
  | S todo', frame :: rest =>
      match extract_gps_from_frame frame i with
      | Ok geo => first_frames todo' (i + 1) rest (lines ++ [(i, geo)])%list
      | Raise e => Raised e
      end
  end.

(** The script: [new_pipeline] is what [PerceptionPipeline()] does,
    which loads the detector. *)
Definition quick_ocr_test (video : Video) (new_pipeline : result Self)
  : ending :=
  if negb (isOpened video) then Exit 1
  else
    match int_of_float (CAP_PROP_FRAME_COUNT video) with
    | Raise e => Raised e
    | Ok total_frames =>
        match new_pipeline with
        | Raise e => Raised e
        | Ok pipeline => first_frames 3 0 (frames video) []
        end
    end.

End WithVision.

End QuickTest.

(* ================================================================== *)
(** ** The loop of [download_toronto_tiled] *)

Module TiledDownload.

Import Tiles.

Definition c_0_1 : float := Eval vm_compute in Str.lit "0.1".

(** [failed > len(tiles) * 0.1]: the product is a float, and the
    comparison of the two numbers is exact; both counts are far below
    [2^53]. *)
Definition too_many (failed total : Z) : bool :=
  flt (fmul (Z2F total) c_0_1) (Z2F failed).

(** The variables of the loop: the counter [i] of [enumerate], the
    requests made and the seconds slept, [tiles_data] and [failed]. *)
Record Progress : Type := {
  i : Z;
  net : Net;
  tiles_data : list (option string);
  failed : Z
}.

Definition begin : Progress :=
  {| i := 0; net := {| requests := 0; slept := 0 |};
     tiles_data := []; failed := 0 |}.

Section Loop.
Context {T : Type}.
Variable post : nat -> reply.
Variable is_request_exception : exn -> bool.
Variable fromstring : string -> result Xml.element.

(** [ET.fromstring(data)]; on [None] it raises [TypeError]. *)
Definition parse (data : option string) : result Xml.element :=
  match data with
  | Some text => fromstring text
  | None => Raise Osm.TypeError
  end.

(** Lines 122-142: the loop over the tiles; [except Exception]
    catches whatever the download or the parsing raises. *)
Fixpoint download_all (todo : list T) (total : Z) (p : Progress)
  : Progress :=
  match todo with
  | [] => p
  | tile_bbox :: rest =>
      let '(net1, r) := download_tile post is_request_exception 3 (net p) in
      let after_failure data :=
        let p1 := {| i := i p + 1; net := net1; tiles_data := data;
                     failed := failed p + 1 |} in
        if too_many (failed p1) total then p1
        else download_all rest total p1 in
      match r with
      | Ok data =>
          let appended := (tiles_data p ++ [data])%list in
          match parse data with
          | Ok tree =>
              download_all rest total
                {| i := i p + 1;
                   net := {| requests := requests net1;
                             slept := slept net1 + 1 |};
                   tiles_data := appended; failed := failed p |}
          | Raise e => after_failure appended
          end
      | Raise e => after_failure (tiles_data p)
      end
  end.

(** The contents of the responses among the [k] replies from the
    [a]-th on, and among the first [k] replies. *)
Definition contents_from (a k : nat) : list (option string) :=
  flat_map (fun r => match r with
                     | Content body => [Some body]
                     | Failed _ => []
                     end)
           (map post (seq a k)).

Definition contents (k : nat) : list (option string) := contents_from 0 k.

(** What a run of the loop keeps between the states [p] and [p'], with
    [len] tiles to go at [p]. *)
Definition loop_keeps (total : Z) (len : nat) (p p' : Progress) : Prop :=
  let turns := i p' - i p in
  tiles_data p' = contents (requests (net p')) /\
  0 <= turns <= Z.of_nat len /\
  Z.of_nat (requests (net p')) <= Z.of_nat (requests (net p)) + 3 * turns /\
  0 <= failed p' - failed p <= turns /\
  (turns < Z.of_nat len -> too_many (failed p') total = true) /\
  (too_many (failed p) total = false ->
   failed p' = failed p \/
   too_many (failed p' - 1) total = false).

End Loop.

(** [tiles_data] as [merge_osm_tiles] tests and parses it: [None] is
    passed over as an empty text is. *)
Definition tile_text (data : option string) : string :=
  match data with
  | Some text => text
  | None => ""
  end.

(** Lines 106-114: the bounds of Toronto and the size of a tile. *)
Definition toronto_bbox : tile :=
  (Str.lit "43.58", Str.lit "-79.64", Str.lit "43.86", Str.lit "-79.12").

Definition tile_size : float := Str.lit "0.02".

(** The file written, beneath the directory three levels above the
    script. *)
Definition output_file : string := "local-mvp/toronto_tiled.xml".

Section Script.
Variable post : nat -> reply.
Variable is_request_exception : exn -> bool.
Variable fromstring : string -> result Xml.element.
Variable write_file : Xml.element -> string -> result unit.

(** [download_toronto_tiled()]: the variables at the end of the loop
    and, from the merge on, the count of nodes it prints or the
    exception that ends it.  [ET.indent] changes the white space of the
    tree only, which the elements here do not hold. *)
Definition download_toronto_tiled (turns : nat)
  : option (Progress * result nat) :=
  match create_tiles turns toronto_bbox tile_size with
  | None => None
  | Some tiles =>
      let p := download_all post is_request_exception fromstring tiles
                 (Z.of_nat (List.length tiles)) begin in
      Some (p,
            merged_tree <- Osm.merge_osm_tiles fromstring
                             (map tile_text (tiles_data p));;
            _ <- write_file merged_tree output_file;;
            Ok (List.length (Xml.findall_beneath "node" merged_tree)))
  end.

End Script.

End TiledDownload.

(* ================================================================== *)
(** * Properties *)

Import Str Decoder OcrTool Roi Pipeline Spec.

(* ------------------------------------------------------------------ *)
(** ** ROI patch extractor *)

Lemma crop_window_eq (h w x1 y1 x2 y2 : Z) :
  crop_window h w (x1, y1, x2, y2) =
    (Z.max 0 ((x1 + x2) / 2 - Z.max (x2 - x1) (y2 - y1) / 2),
     Z.max 0 ((y1 + y2) / 2 - Z.max (x2 - x1) (y2 - y1) / 2),
     Z.min w ((x1 + x2) / 2 + Z.max (x2 - x1) (y2 - y1) / 2),
     Z.min h ((y1 + y2) / 2 + Z.max (x2 - x1) (y2 - y1) / 2)).
Proof. reflexivity. Qed.

(** C4 (counterexample).  On a 100 x 100 frame the crop window of the
    box (0, 0, 20, 40) is not x in [0, 40], y in [0, 40]: its right edge
    is center + half-size = 10 + 20 = 30.  The crop window of the box
    (5, 5, 6, 6), one pixel inside the frame, is empty, and
    [cv2.resize] raises on the empty crop: no patch is made.  The crop
    window of the box (-50, -50, -40, -40), which lies outside the
    frame, has the negative right and bottom edges -40. *)
Lemma roi_patch_counterexamples :
  crop_window 100 100 (0, 0, 20, 40) <> (0, 0, 40, 40) /\
  crop_window 100 100 (5, 5, 6, 6) = (5, 5, 5, 5) /\
  @extract_roi_patch Sample.checking_vision (Sample.frame_reading "" "")
    (5, 5, 6, 6) 256 = Raise (LibraryError "cv2.error") /\
  crop_window 100 100 (-50, -50, -40, -40) = (0, 0, -40, -40).
Proof.
  split; [ vm_compute; discriminate | ]. repeat split.
Qed.

(** C4 (amended).  For every frame of height [h] and width [w] and every
    box with [x1 < x2] and [y1 < y2]: the center is the integer midpoint
    of the box, the half-size is half (integer division) of the larger
    of its width and height, the crop window is center -/+ half-size
    clipped below at 0 and above at the frame size, so that its left
    and top edges are not negative and its right and bottom edges not
    beyond the frame.  For a box inside the frame the four edges lie
    within the frame, in order; the crop is then empty when the box is
    one pixel wide and high, and not empty when its larger side is at
    least 2.  The patch is the clipped crop handed to [cv2.resize],
    never padded, and whenever [cv2.resize] returns a patch it is
    [patch_size] x [patch_size].  On a 100 x 100 frame and the box
    (0, 0, 20, 40) the half-size is 20, the center (10, 20) and the
    window x in [0, 30], y in [0, 40]. *)
Theorem roi_patch_clipped_and_resized
    (V : Vision) (frame : image) (h w x1 y1 x2 y2 patch_size : Z) :
  shape frame = (h, w) ->
  x1 < x2 -> y1 < y2 ->
  let b := (x1, y1, x2, y2) in
  let larger := Z.max (x2 - x1) (y2 - y1) in
  let '(crop_x1, crop_y1, crop_x2, crop_y2) := crop_window h w b in
  center b = ((x1 + x2) / 2, (y1 + y2) / 2) /\
  half_size b = larger / 2 /\
  0 <= half_size b /\
  crop_x1 = Z.max 0 (fst (center b) - half_size b) /\
  crop_y1 = Z.max 0 (snd (center b) - half_size b) /\
  crop_x2 = Z.min w (fst (center b) + half_size b) /\
  crop_y2 = Z.min h (snd (center b) + half_size b) /\
  0 <= crop_x1 /\ 0 <= crop_y1 /\ crop_x2 <= w /\ crop_y2 <= h /\
  (0 <= x1 -> x2 <= w -> 0 <= y1 -> y2 <= h ->
   0 <= crop_x1 <= crop_x2 /\ crop_x2 <= w /\
   0 <= crop_y1 <= crop_y2 /\ crop_y2 <= h /\
   (larger = 1 -> crop_x1 = crop_x2 /\ crop_y1 = crop_y2) /\
   (2 <= larger -> crop_x1 < crop_x2 /\ crop_y1 < crop_y2)) /\
  extract_roi_patch frame b patch_size =
    resize (slice frame crop_y1 crop_y2 crop_x1 crop_x2)
           (patch_size, patch_size) /\
  (forall patch, extract_roi_patch frame b patch_size = Ok patch ->
                 shape patch = (patch_size, patch_size)) /\
  half_size (0, 0, 20, 40) = 20 /\
  center (0, 0, 20, 40) = (10, 20) /\
  crop_window 100 100 (0, 0, 20, 40) = (0, 0, 30, 40).
Proof.
  intros Hshape Hx Hy b larger.
  subst b larger. rewrite crop_window_eq.
  assert (Hhalf : 0 <= Z.max (x2 - x1) (y2 - y1) / 2)
    by (apply Z.div_pos; lia).
  unfold extract_roi_patch. rewrite Hshape, crop_window_eq.
  cbn [center half_size fst snd].
  split; [ reflexivity | ]. split; [ reflexivity | ].
  split; [ exact Hhalf | ].
  do 4 (split; [ reflexivity | ]).
  do 4 (split; [ lia | ]).
  split.
  { intros H1 H2 H3 H4.
    set (L := Z.max (x2 - x1) (y2 - y1)) in *.
    assert (HL : 1 <= L) by (subst L; lia).
    assert (Hcx : 0 <= (x1 + x2) / 2 < w)
      by (split; [ apply Z.div_pos; lia
                 | apply Z.div_lt_upper_bound; lia ]).
    assert (Hcy : 0 <= (y1 + y2) / 2 < h)
      by (split; [ apply Z.div_pos; lia
                 | apply Z.div_lt_upper_bound; lia ]).
    clearbody L.
    split; [ lia | ]. split; [ lia | ]. split; [ lia | ].
    split; [ lia | ]. split.
    - intros ->. change (1 / 2) with 0. lia.
    - intros HL2.
      assert (1 <= L / 2) by (apply Z.div_le_lower_bound; lia). lia. }
  split; [ reflexivity | ].
  split; [ | repeat split ].
  intros patch Hpatch. exact (resize_shape _ _ _ _ Hpatch).
Qed.

Lemma roi_patch_clipped_and_resized_witness :
  (0 < 20 /\ 0 < 40) /\
  half_size (0, 0, 20, 40) = 20 /\
  crop_window 100 100 (0, 0, 20, 40) = (0, 0, 30, 40).
Proof.
  pose proof (roi_patch_clipped_and_resized (Sample.vision true)
                (Sample.frame_reading "" "") 100 100 0 0 20 40 256
                eq_refl eq_refl eq_refl) as H.
  cbv zeta in H. rewrite crop_window_eq in H.
  split; [ split; reflexivity | ].
  split; [ exact (proj1 (proj2 H)) | ].
  apply H.
Defined.

(* ------------------------------------------------------------------ *)
(** ** The statement monad of [process_video] *)

Section Statements.
Context {V : Vision}.

Lemma for_each_app {A} (l1 l2 : list A) (body : A -> M unit) (s : Run) :
  for_each (l1 ++ l2) body s =
    mbind (for_each l1 body) (fun _ => for_each l2 body) s.
Proof.
  revert s. induction l1 as [|a l1 IH]; intros s; cbn.
  - reflexivity.
  - unfold mbind. destruct (body a s) as [s1 [[]|e]]; [ | reflexivity ].
    rewrite IH. reflexivity.
Qed.

Variable R : Run -> Run -> Prop.
Hypothesis R_refl : forall s, R s s.
Hypothesis R_trans : forall a b c, R a b -> R b c -> R a c.

Lemma respects_ret {A} (a : A) : respects R (ret a).
Proof. intros s. apply R_refl. Qed.

Lemma respects_lift {A} (c : result A) : respects R (lift c).
Proof. intros s. apply R_refl. Qed.

Lemma respects_gets {A} (f : Run -> A) : respects R (gets f).
Proof. intros s. apply R_refl. Qed.

Lemma respects_modify (f : Run -> Run) :
  (forall s, R s (f s)) -> respects R (modify f).
Proof. intros H s. apply H. Qed.

Lemma respects_bind {A B} (c : M A) (k : A -> M B) :
  respects R c -> (forall a, respects R (k a)) -> respects R (mbind c k).
Proof.
  intros Hc Hk s. unfold mbind. specialize (Hc s).
  destruct (c s) as [s1 [a|e]]; cbn in *.
  - eapply R_trans; [ exact Hc | apply Hk ].
  - exact Hc.
Qed.

Lemma respects_for_each {A} (l : list A) (body : A -> M unit) :
  (forall a, respects R (body a)) -> respects R (for_each l body).
Proof.
  intros Hb. induction l as [|a l IH]; cbn.
  - apply respects_ret.
  - apply respects_bind; [ apply Hb | intros _; exact IH ].
Qed.

Lemma respects_if {A} (b : bool) (c1 c2 : M A) :
  respects R c1 -> respects R c2 -> respects R (if b then c1 else c2).
Proof. destruct b; auto. Qed.

End Statements.

(* ------------------------------------------------------------------ *)
(** ** Frame sampler *)

Section Sampler.
Context {V : Vision}.
Variable env : Env.
Variable self : Self.
Variable dir : string.
Variable video_fps interval : Z.

Lemma frame_local_refl (s : Run) : frame_local s s.
Proof. repeat split. Qed.

Lemma frame_local_trans (a b c : Run) :
  frame_local a b -> frame_local b c -> frame_local a c.
Proof.
  unfold frame_local. intros (?&?&?&?) (?&?&?&?).
  repeat split; congruence.
Qed.

Lemma writerow_frame_local (line : CsvLine) :
  respects frame_local (writerow env line).
Proof.
  intros s. unfold writerow.
  destruct (writerow_ok env _); cbn; repeat split.
Qed.

Lemma emit_frame_local (frame : image) (gps : GeoFix) (box : Box) :
  respects frame_local (emit env self dir video_fps frame gps box).
Proof.
  unfold emit.
  apply respects_if; [ apply respects_ret, frame_local_refl | ].
  repeat (apply (respects_bind _ frame_local_trans); [ | intros ? ]);
    try apply respects_lift; try apply respects_gets;
    try apply frame_local_refl.
  - apply respects_modify. intros s. repeat split.
  - apply writerow_frame_local.
  - apply respects_modify. intros s. repeat split.
Qed.

Lemma boxes_frame_local (frame : image) (gps : GeoFix)
    (results : list (list Box)) :
  respects frame_local
    (for_each results (fun boxes =>
       for_each boxes (emit env self dir video_fps frame gps))).
Proof.
  apply (respects_for_each _ frame_local_refl frame_local_trans).
  intros boxes.
  apply (respects_for_each _ frame_local_refl frame_local_trans).
  intros box. apply emit_frame_local.
Qed.



End Sampler.








(* ------------------------------------------------------------------ *)
(** ** Patch file names *)

Lemma all_chars_app (p : ascii -> bool) (a b : string) :
  all_chars p (a ++ b) = all_chars p a && all_chars p b.
Proof.
  induction a as [|c a IH]; cbn; [ reflexivity | ].
  now rewrite IH, andb_assoc.
Qed.

Lemma digits_of_uint (d : Decimal.uint) :
  all_chars is_digit (NilEmpty.string_of_uint d) = true.
Proof. induction d; cbn; auto. Qed.

Lemma zeros_are_digits (k : nat) :
  all_chars is_digit (string_of_list_ascii (repeat "0"%char k)) = true.
Proof. induction k; cbn; auto. Qed.

Lemma format_d_digits (width : nat) (n : Z) :
  0 <= n -> all_chars is_digit (format_d width n) = true.
Proof.
  intros Hn. unfold format_d.
  destruct (n <? 0) eqn:Hlt; [ apply Z.ltb_lt in Hlt; lia | ].
  now rewrite all_chars_app, zeros_are_digits, digits_of_uint.
Qed.

Lemma uint_of_zeros (k : nat) (t : string) :
  option_map N.of_uint
    (NilEmpty.uint_of_string (string_of_list_ascii (repeat "0"%char k) ++ t)) =
  option_map N.of_uint (NilEmpty.uint_of_string t).
Proof.
  induction k as [|k IH]; [ reflexivity | ].
  cbn [repeat string_of_list_ascii append NilEmpty.uint_of_string].
  rewrite <- IH.
  destruct (NilEmpty.uint_of_string
              (string_of_list_ascii (repeat "0"%char k) ++ t)) as [d|];
    reflexivity.
Qed.

(** The decimal text of a non-negative number determines it, whatever
    the padding. *)
Lemma format_d_inj (w w' : nat) (n n' : Z) :
  0 <= n -> 0 <= n' -> format_d w n = format_d w' n' -> n = n'.
Proof.
  intros Hn Hn' H. unfold format_d in H.
  destruct (n <? 0) eqn:Hlt; [ apply Z.ltb_lt in Hlt; lia | ].
  destruct (n' <? 0) eqn:Hlt'; [ apply Z.ltb_lt in Hlt'; lia | ].
  apply (f_equal (fun t =>
           option_map N.of_uint (NilEmpty.uint_of_string t))) in H.
  rewrite !uint_of_zeros, !NilEmpty.usu in H. cbn in H.
  rewrite !DecimalN.Unsigned.of_to in H. injection H as H. lia.
Qed.

(** Two runs of digits that stop at the same non-digit are equal. *)
Lemma digits_then_stop (c : ascii) : forall d1 d2 x y : string,
  all_chars is_digit d1 = true -> all_chars is_digit d2 = true ->
  is_digit c = false ->
  d1 ++ String c x = d2 ++ String c y -> d1 = d2 /\ x = y.
Proof.
  induction d1 as [|a d1 IH]; intros [|b d2] x y H1 H2 Hc H; cbn in *.
  - injection H as ->. auto.
  - injection H as -> _. apply andb_prop in H2. destruct H2. congruence.
  - injection H as -> _. apply andb_prop in H1. destruct H1. congruence.
  - injection H as -> H. apply andb_prop in H1. apply andb_prop in H2.
    destruct H1, H2. destruct (IH d2 x y) as [-> ->]; auto.
Qed.

Lemma patch_filename_inj (f f' i i' : Z) :
  0 <= f -> 0 <= f' -> 0 <= i -> 0 <= i' ->
  patch_filename f i = patch_filename f' i' -> f = f' /\ i = i'.
Proof.
  intros Hf Hf' Hi Hi' H. unfold patch_filename in H.
  cbn [append] in H. injection H as H.
  apply digits_then_stop in H;
    [ | now apply format_d_digits | now apply format_d_digits | reflexivity ].
  destruct H as [HF H]. cbn [append] in H. injection H as H.
  apply digits_then_stop in H;
    [ | now apply format_d_digits | now apply format_d_digits | reflexivity ].
  destruct H as [HD _].
  split; eapply format_d_inj; eauto.
Qed.

Lemma append_inj_l (a x y : string) : a ++ x = a ++ y -> x = y.
Proof. induction a; cbn; intros H; [ exact H | injection H; auto ]. Qed.

Lemma path_join_inj (dir x y : string) :
  path_join dir x = path_join dir y -> x = y.
Proof.
  unfold path_join. destruct (rev dir) as [|c r]; [ auto | ].
  destruct (Ascii.eqb c "/") eqn:Hc.
  - apply Ascii.eqb_eq in Hc. subst c. apply append_inj_l.
  - assert (H : forall z, match c with
                          | "/"%char => dir ++ z
                          | _ => dir ++ "/" ++ z
                          end = dir ++ "/" ++ z).
    { intros z. destruct c as [[] [] [] [] [] [] [] []];
        try reflexivity; discriminate. }
    rewrite !H. intros E. apply append_inj_l in E. now injection E.
Qed.

Lemma filenames_from_In (fs : list Z) : forall i name,
  In name (filenames_from i fs) ->
  exists f j, In f fs /\ i <= j /\ name = patch_filename f j.
Proof.
  induction fs as [|f fs IH]; intros i name; cbn; [ tauto | ].
  intros [<-|Hin].
  - exists f, i. repeat split; auto; lia.
  - destruct (IH _ _ Hin) as (f' & j & Hf & Hj & ->).
    exists f', j. repeat split; auto; lia.
Qed.

Lemma filenames_from_NoDup (fs : list Z) : forall i,
  0 <= i -> Forall (fun f => 0 <= f) fs -> NoDup (filenames_from i fs).
Proof.
  induction fs as [|f fs IH]; intros i Hi Hfs; cbn; constructor.
  - intros Hin. apply filenames_from_In in Hin.
    destruct Hin as (f' & j & Hf' & Hj & E).
    rewrite Forall_forall in Hfs.
    apply patch_filename_inj in E; try lia.
    + apply Hfs. now left.
    + apply Hfs. now right.
  - apply IH; [ lia | now inversion Hfs ].
Qed.

Lemma filenames_from_app (a b : list Z) : forall i,
  filenames_from i (a ++ b) =
    (filenames_from i a
       ++ filenames_from (i + Z.of_nat (List.length a)) b)%list.
Proof.
  induction a as [|f a IH]; intros i; cbn [filenames_from app List.length].
  - now rewrite Z.add_0_r.
  - rewrite IH. do 3 f_equal. lia.
Qed.

Lemma filenames_from_nth (fs : list Z) : forall i k name,
  nth_error (filenames_from i fs) k = Some name ->
  exists f, nth_error fs k = Some f /\
            name = patch_filename f (i + Z.of_nat k).
Proof.
  induction fs as [|f fs IH]; intros i [|k] name;
    cbn [filenames_from nth_error]; try discriminate.
  - intros [= <-]. exists f. split; [ reflexivity | now rewrite Z.add_0_r ].
  - intros H. destruct (IH _ _ _ H) as (f' & Hf & ->).
    exists f'. split; [ exact Hf | f_equal; lia ].
Qed.

(* ------------------------------------------------------------------ *)
(** ** Record emitter *)

Lemma data_rows_app (a b : list CsvLine) :
  data_rows (a ++ b) = (data_rows a ++ data_rows b)%list.
Proof.
  induction a as [|[|r] a IH]; cbn; [ reflexivity | exact IH | ].
  now rewrite IH.
Qed.

Ltac fields :=
  cbn [frame_count processed_count detection_count times out decoded
       csv patches imwrite_calls file text disk set_out fst snd
       flush_to write_file].

Section Emitter.
Context {V : Vision}.
Variable env : Env.
Variable self : Self.
Variable dir : string.
Variable video_fps interval : Z.

Lemma settled_in_flight (s : Run) (fs : list Z) :
  settled dir s fs -> in_flight dir s fs.
Proof.
  intros (H0 & H1 & H2 & H3 & H4). exists fs. repeat split; auto.
Qed.

Lemma for_each_inv {A} (P Q : Run -> Prop) (body : A -> M unit) :
  (forall s, P s -> Q s) ->
  (forall a s, P s ->
     (snd (body a s) = Ok tt -> P (fst (body a s))) /\ Q (fst (body a s))) ->
  forall l s, P s ->
    (snd (for_each l body s) = Ok tt -> P (fst (for_each l body s))) /\
    Q (fst (for_each l body s)).
Proof.
  intros HPQ Hbody. induction l as [|a l IH]; intros s HP.
  - fields. auto.
  - cbn [for_each]. unfold mbind.
    destruct (Hbody a s HP) as [Hok Hq].
    destruct (body a s) as [s1 [[]|e]]; cbn in *.
    + apply IH. now apply Hok.
    + split; [ discriminate | exact Hq ].
Qed.

(** One record: the patch is written under the next ordinal, then the
    row; when the statement stops in between the patch has no row. *)
Lemma emit_settled (frame : image) (gps : GeoFix) (box : Box) (s : Run) :
  (exists fs, settled dir s fs) ->
  (snd (emit env self dir video_fps frame gps box s) = Ok tt ->
   exists fs, settled dir (fst (emit env self dir video_fps frame gps box s)) fs)
  /\
  exists fs, in_flight dir (fst (emit env self dir video_fps frame gps box s)) fs.
Proof.
  intros (fs & Hs).
  pose proof (settled_in_flight s fs Hs) as Hfly.
  unfold emit.
  destruct (negb _); [ fields; split; eauto | ].
  unfold mbind, lift, gets, modify.
  destruct (int_truediv (x1 box + x2 box) 2) as [u0|e];
    [ | fields; split; [ discriminate | eauto ] ].
  destruct (extract_roi_patch _ _ _) as [patch|e];
    [ | fields; split; [ discriminate | eauto ] ].
  unfold imwrite, modify.
  destruct Hs as (H0 & H1 & H2 & H3 & H4).
  assert (Hcalls :
    (imwrite_calls (out s)
       ++ [path_join dir (patch_filename (frame_count s) (detection_count s))])%list
    = map (path_join dir) (filenames_from 0 (fs ++ [frame_count s]))).
  { rewrite filenames_from_app, map_app, H4, H2. reflexivity. }
  assert (Hall : Forall (fun f => 0 <= f) (fs ++ [frame_count s]))
    by (apply Forall_app; split; [ exact H1 | repeat constructor; exact H0 ]).
  destruct (int_truediv (frame_count s) video_fps) as [ts|e].
  2:{ fields. split; [ discriminate | ].
      exists (fs ++ [frame_count s])%list, fs. fields.
      repeat split; eauto. }
  unfold writerow. cbn [out set_out csv].
  destruct (writerow_ok env _).
  - fields. split; [ intros _ | ].
    + exists (fs ++ [frame_count s])%list. repeat split; fields; auto.
      * rewrite H2, length_app. cbn [List.length]. lia.
      * rewrite data_rows_app, map_app, H3. reflexivity.
    + exists (fs ++ [frame_count s])%list. apply settled_in_flight.
      repeat split; fields; auto.
      * rewrite H2, length_app. cbn [List.length]. lia.
      * rewrite data_rows_app, map_app, H3. reflexivity.
  - fields. split; [ discriminate | ].
    exists (fs ++ [frame_count s])%list, fs. fields.
    repeat split; eauto.
Qed.

Lemma step_settled (frame : image) (s : Run) :
  (exists fs, settled dir s fs) ->
  (snd (step env self dir video_fps interval frame s) = Ok tt ->
   exists fs,
     settled dir (fst (step env self dir video_fps interval frame s)) fs) /\
  exists fs,
    in_flight dir (fst (step env self dir video_fps interval frame s)) fs.
Proof.
  intros (fs & Hs).
  pose proof (settled_in_flight s fs Hs) as Hfly.
  destruct Hs as (H0 & H1 & H2 & H3 & H4).
  unfold step, mbind, gets, modify, lift. cbv beta iota.
  destruct (negb _).
  - fields. split; [ intros _ | ].
    + exists fs. repeat split; fields; auto. lia.
    + exists fs. apply settled_in_flight. repeat split; fields; auto. lia.
  - destruct (extract_gps_from_frame frame (frame_count s)) as [gps|e].
    2:{ fields. split; [ discriminate | ]. exists fs, fs. fields.
        repeat split; auto. }
    destruct (model env frame _ _) as [results|e].
    2:{ fields. split; [ discriminate | ]. exists fs, fs. fields.
        repeat split; auto. }
    match goal with
    | |- context [for_each results ?b ?s0] =>
        pose proof (for_each_inv
                      (fun s => exists fs, settled dir s fs)
                      (fun s => exists fs, in_flight dir s fs)
                      b
                      (fun s '(ex_intro _ fs H) =>
                         ex_intro _ fs (settled_in_flight s fs H))
                      (fun boxes s Hs =>
                         for_each_inv
                           (fun s => exists fs, settled dir s fs)
                           (fun s => exists fs, in_flight dir s fs)
                           (emit env self dir video_fps frame gps)
                           (fun s '(ex_intro _ fs H) =>
                              ex_intro _ fs (settled_in_flight s fs H))
                           (fun box s Hs => emit_settled frame gps box s Hs)
                           boxes s Hs)
                      results s0) as Hloop;
        pose proof (boxes_frame_local env self dir video_fps frame gps
                      results s0) as Hl;
        destruct (for_each results b s0) as [s1 [[]|e]]
    end; cbn [fst snd] in *.
    + destruct Hloop as [Hok _].
      { exists fs. repeat split; fields; auto. }
      destruct (Hok eq_refl) as (fs1 & G0 & G1 & G2 & G3 & G4).
      fields. split; [ intros _ | ].
      * exists fs1. repeat split; fields; auto. lia.
      * exists fs1. apply settled_in_flight. repeat split; fields; auto. lia.
    + destruct Hloop as [_ Hq].
      { exists fs. repeat split; fields; auto. }
      split; [ discriminate | exact Hq ].
Qed.

End Emitter.

Section OutputRelations.
Context {V : Vision}.
Variable env : Env.
Variable self : Self.
Variable dir : string.
Variable video_fps interval : Z.

(** A relation that only looks at what the run wrote. *)
Variable R : Run -> Run -> Prop.
Hypothesis R_trans : forall a b c, R a b -> R b c -> R a c.
Hypothesis R_same_out : forall s s', out s' = out s -> R s s'.
Hypothesis R_imwrite : forall path patch, respects R (imwrite env path patch).
Hypothesis R_writerow : forall line, respects R (writerow env line).

Lemma R_refl (s : Run) : R s s.
Proof. now apply R_same_out. Qed.




End OutputRelations.


(* ------------------------------------------------------------------ *)
(** ** Whole runs *)

Section Runs.
Context {V : Vision}.
Variable env : Env.
Variable self : Self.
Variable output_csv dir : string.
Variable sample_fps : Z.

Lemma close_file_eq (s : Run) :
  exists f r, close_file env s = (with_file f s, r) /\
              (r = Ok tt \/ r = Raise IOError).
Proof.
  unfold close_file. destruct (close_ok env); do 2 eexists;
    (split; [ reflexivity | auto ]).
Qed.

Lemma finish_cases (X : Run * result unit) (s : Run) (r : result Stats) :
  finish env output_csv dir X = (s, r) ->
  exists f,
    s = with_file f (fst X) /\
    (forall stats, r = Ok stats ->
       snd X = Ok tt /\ stats = make_stats env output_csv dir s) /\
    (forall e, snd X = Raise e -> r = Raise e).
Proof.
  unfold finish. destruct X as [s1 [[]|e]]; cbn [fst snd].
  - destruct (close_file_eq s1) as (f & r1 & -> & Hr). cbn [fst snd].
    intros [= <- <-]. exists f. split; [ reflexivity | ].
    split; [ | discriminate ].
    destruct Hr as [->| ->]; [ | discriminate ].
    intros stats [= <-]. split; reflexivity.
  - intros [= <- <-]. exists (file (out s1)). split.
    + destruct s1 as [a b c d [p l i f] g]. reflexivity.
    + split; [ discriminate | ]. now intros e0 [= <-].
Qed.

(** A run either stops during its set-up, having written no line, or
    takes the header and enters the loop over the frames. *)
Lemma run_video_cases (video : Video) (ts : list float) :
  (exists e f, run_video env self video output_csv dir sample_fps (start ts)
               = (with_file f (start ts), Raise e)) \/
  (exists video_fps,
     int_of_float (CAP_PROP_FPS video) = Ok video_fps /\
     writerow_ok env 0 = true /\
     let X := for_each (frames video)
                (step env self dir video_fps
                   (frame_interval_of video_fps sample_fps))
                (after_header env ts) in
     run_video env self video output_csv dir sample_fps (start ts)
     = finish env output_csv dir X).
Proof.
  unfold run_video, mbind, lift, ret, gets.
  assert (Hstop : forall e,
            exists e0 f, (start ts, @Raise Stats e)
                         = (with_file f (start ts), Raise e0))
    by (intros e; exists e, opened; reflexivity).
  destruct (isOpened video); [ | left; apply Hstop ].
  destruct (int_of_float (CAP_PROP_FPS video)) as [video_fps|e];
    [ | left; apply Hstop ].
  destruct (int_of_float (CAP_PROP_FRAME_COUNT video)) as [total|e];
    [ | left; apply Hstop ].
  destruct (sample_fps =? 0); [ left; apply Hstop | ].
  destruct (makedirs_ok env); [ | left; apply Hstop ].
  destruct (open_ok env); [ | left; apply Hstop ].
  unfold writerow. cbn [start out csv empty_output List.length]. cbv zeta.
  destruct (writerow_ok env 0) eqn:Hw;
    [ | left; do 2 eexists; reflexivity ].
  right. exists video_fps. repeat split.
  cbv zeta. change (set_out _ (start ts)) with (after_header env ts).
  unfold finish.
  destruct (for_each (frames video) _ (after_header env ts)) as [s1 [[]|e]];
    cbn [fst snd]; [ | reflexivity ].
  destruct (close_file env s1) as [s2 [[]|e]]; reflexivity.
Qed.

Lemma start_settled (ts : list float) : settled dir (start ts) [].
Proof. repeat split; cbn; auto; lia. Qed.

Lemma after_header_settled (ts : list float) :
  settled dir (after_header env ts) [].
Proof. repeat split; cbn; auto; lia. Qed.

(** Every run ends in flight, and a run that completes ends settled. *)
Lemma run_video_in_flight (video : Video) (ts : list float)
    (s : Run) (r : result Stats) :
  run_video env self video output_csv dir sample_fps (start ts) = (s, r) ->
  (exists fs, in_flight dir s fs) /\
  (forall stats, r = Ok stats ->
     (exists fs, settled dir s fs) /\
     stats = make_stats env output_csv dir s).
Proof.
  intros Hrun.
  destruct (run_video_cases video ts)
    as [(e & f & He)|(video_fps & _ & _ & HX)].
  - rewrite He in Hrun. injection Hrun as <- <-.
    split; [ | discriminate ].
    exists []. apply settled_in_flight, start_settled.
  - cbv zeta in HX. rewrite HX in Hrun. clear HX.
    apply finish_cases in Hrun. destruct Hrun as (f & -> & Hstats & _).
    match type of Hstats with
    | context [for_each ?l ?b ?s0] =>
        pose proof (for_each_inv
                      (fun s => exists fs, settled dir s fs)
                      (fun s => exists fs, in_flight dir s fs)
                      b
                      (fun s '(ex_intro _ fs H) =>
                         ex_intro _ fs (settled_in_flight dir s fs H))
                      (fun f s Hs =>
                         step_settled env self dir video_fps _ f s Hs)
                      l s0
                      (ex_intro _ [] (after_header_settled ts))) as Hloop
    end.
    destruct Hloop as [Hok Hq]. split; [ exact Hq | ].
    intros stats Hs. destruct (Hstats stats Hs) as [HX ->].
    split; [ exact (Hok HX) | reflexivity ].
Qed.

End Runs.


Lemma NoDup_map_inj {A B} (f : A -> B) (l : list A) :
  (forall x y, f x = f y -> x = y) -> NoDup l -> NoDup (map f l).
Proof.
  intros Hinj. induction 1 as [|x l Hx Hl IH]; cbn; constructor; auto.
  intros Hin. apply in_map_iff in Hin. destruct Hin as (y & E & Hy).
  apply Hinj in E. now subst y.
Qed.

Lemma filenames_from_length (fs : list Z) : forall i,
  List.length (filenames_from i fs) = List.length fs.
Proof. induction fs as [|f fs IH]; intros i; cbn; auto. Qed.

(** What every state in flight says about the patch writes and the
    rows. *)
Lemma in_flight_facts {V : Vision} (dir : string) (s : Run) (fs : list Z) :
  in_flight dir s fs ->
  let rows := data_rows (csv (out s)) in
  imwrite_calls (out s) = map (path_join dir) (filenames_from 0 fs) /\
  NoDup (filenames_from 0 fs) /\
  NoDup (imwrite_calls (out s)) /\
  detection_count s = Z.of_nat (List.length rows) /\
  map frame_number rows = firstn (List.length rows) fs /\
  (List.length rows <= List.length fs <= List.length rows + 1)%nat.
Proof.
  intros (done & H0 & H1 & H2 & H3 & H4 & H5) rows. subst rows.
  assert (Hlen : List.length (data_rows (csv (out s))) = List.length done)
    by (rewrite <- H3; now rewrite length_map).
  assert (Hnd : NoDup (filenames_from 0 fs))
    by (apply filenames_from_NoDup; [ lia | exact H1 ]).
  split; [ exact H4 | ]. split; [ exact Hnd | ]. split.
  { rewrite H4. apply NoDup_map_inj; [ apply path_join_inj | exact Hnd ]. }
  split; [ now rewrite Hlen | ].
  rewrite Hlen, H3.
  destruct H5 as [->|[f ->]].
  - rewrite firstn_all. split; [ reflexivity | lia ].
  - rewrite firstn_app, Nat.sub_diag, firstn_all. cbn [firstn].
    rewrite app_nil_r, length_app. cbn. split; [ reflexivity | lia ].
Qed.

(** C10.  In every run of [process_video], completed or not, the patch
    writes carry the ordinals 0, 1, 2, ... in the order of emission,
    across all frames: the k-th write of the run is named
    frame_{f:06d}_det_{k:04d}.jpg, where f is the frame of the k-th
    record.  The names are pairwise distinct, the k-th row of the CSV
    file belongs to the k-th write, so that the ordinal of a record is
    the number of records emitted before it, and the counter ends at
    the number of rows. *)
Theorem detection_ordinal_is_run_global
    (V : Vision) (env : Env) (self : Self) (video : Video)
    (output_csv dir : string) (sample_fps : Z) (ts : list float)
    (s : Run) (r : result Stats) :
  run_video env self video output_csv dir sample_fps (start ts) = (s, r) ->
  let rows := data_rows (csv (out s)) in
  exists fs : list Z,
    imwrite_calls (out s) = map (path_join dir) (filenames_from 0 fs) /\
    (forall (k : nat) (path : string),
        nth_error (imwrite_calls (out s)) k = Some path ->
        exists f, nth_error fs k = Some f /\
                  path = path_join dir (patch_filename f (Z.of_nat k))) /\
    NoDup (filenames_from 0 fs) /\
    NoDup (imwrite_calls (out s)) /\
    detection_count s = Z.of_nat (List.length rows) /\
    map frame_number rows = firstn (List.length rows) fs /\
    (forall stats, r = Ok stats ->
        List.length fs = List.length rows /\
        stat_total_detections stats = Z.of_nat (List.length rows)).
Proof.
  intros Hrun rows.
  destruct (run_video_in_flight env self output_csv dir sample_fps
              video ts s r Hrun) as [[fs Hfly] Hok].
  destruct (in_flight_facts dir s fs Hfly) as (Hc & Hn & Hn' & Hd & Hr & Hl).
  exists fs. split; [ exact Hc | ]. split.
  { intros k path Hk. rewrite Hc, nth_error_map in Hk.
    destruct (nth_error (filenames_from 0 fs) k) as [name|] eqn:E;
      [ | discriminate ].
    injection Hk as <-.
    destruct (filenames_from_nth fs 0 k name E) as (f & Hf & ->).
    exists f. split; [ exact Hf | reflexivity ]. }
  split; [ exact Hn | ]. split; [ exact Hn' | ].
  split; [ exact Hd | ]. split; [ exact Hr | ].
  intros stats Hs. destruct (Hok stats Hs) as [[fs' Hset] ->].
  destruct Hset as (_ & _ & G2 & G3 & G4).
  assert (Hlen : List.length fs = List.length fs').
  { apply (f_equal (@List.length _)) in Hc. rewrite G4 in Hc.
    now rewrite !length_map, !filenames_from_length in Hc. }
  assert (Hrows : List.length rows = List.length fs')
    by (subst rows; rewrite <- G3; now rewrite length_map).
  split; [ congruence | ]. cbn. rewrite G2. congruence.
Qed.

Lemma detection_ordinal_is_run_global_witness :
  let s := fst (run_video Sample.busy_env Sample.pipeline Sample.video_61
                  "detections.csv" "roi_patches" 1 (start [])) in
  NoDup (imwrite_calls (out s)) /\
  imwrite_calls (out s) =
    ["roi_patches/frame_000000_det_0000.jpg";
     "roi_patches/frame_000030_det_0001.jpg";
     "roi_patches/frame_000060_det_0002.jpg"].
Proof.
  set (X := run_video Sample.busy_env Sample.pipeline Sample.video_61
              "detections.csv" "roi_patches" 1 (start [])).
  cbv zeta.
  destruct (detection_ordinal_is_run_global
              (Sample.vision true) Sample.busy_env Sample.pipeline
              Sample.video_61 "detections.csv" "roi_patches" 1 []
              (fst X) (snd X) (surjective_pairing X))
    as (fs & _ & _ & _ & Hn & _).
  split; [ exact Hn | vm_compute; reflexivity ].
Defined.

(* ------------------------------------------------------------------ *)
(** ** Statistics of a run *)

Section Times.
Context {V : Vision}.
Variable env : Env.
Variable self : Self.
Variable output_csv dir : string.
Variable sample_fps : Z.

Lemma run_video_eq (video : Video) (ts : list float) :
  run_video env self video output_csv dir sample_fps (start ts) =
  match setup env video sample_fps with
  | Raise e => (start ts, Raise e)
  | Ok video_fps =>
      if writerow_ok env 0
      then finish env output_csv dir
             (for_each (frames video)
                (step env self dir video_fps
                   (frame_interval_of video_fps sample_fps))
                (after_header env ts))
      else (with_file (write_file (render Header) (flushed env 0) opened)
              (start ts),
            Raise IOError)
  end.
Proof.
  unfold run_video, setup, mbind, lift, ret, gets.
  destruct (isOpened video); [ | reflexivity ].
  destruct (int_of_float (CAP_PROP_FPS video)) as [video_fps|e];
    [ | reflexivity ].
  destruct (int_of_float (CAP_PROP_FRAME_COUNT video)) as [total|e];
    [ | reflexivity ].
  destruct (sample_fps =? 0); [ reflexivity | ].
  destruct (makedirs_ok env); [ | reflexivity ].
  destruct (open_ok env); [ | reflexivity ].
  unfold writerow. cbn [start out csv empty_output List.length negb].
  cbv zeta.
  destruct (writerow_ok env 0); [ | reflexivity ].
  change (set_out _ (start ts)) with (after_header env ts).
  unfold finish.
  destruct (for_each (frames video) _ (after_header env ts))
    as [s1 [[]|e]]; cbn [fst snd]; [ | reflexivity ].
  destruct (close_file env s1) as [s2 [[]|e]]; reflexivity.
Qed.

Lemma times_blind_bind {A B} (c : M A) (k : A -> M B) :
  times_blind c -> (forall a, times_blind (k a)) -> times_blind (mbind c k).
Proof.
  intros Hc Hk ts s. unfold mbind. rewrite Hc.
  destruct (c s) as [s1 [a|e]]; cbn [fst snd]; [ apply Hk | reflexivity ].
Qed.

Lemma times_blind_for_each {A} (l : list A) (body : A -> M unit) :
  (forall a, times_blind (body a)) -> times_blind (for_each l body).
Proof.
  intros Hb. induction l as [|a l IH]; cbn [for_each].
  - intros ts s. reflexivity.
  - apply times_blind_bind; [ apply Hb | intros _; exact IH ].
Qed.

Lemma times_blind_writerow (line : CsvLine) : times_blind (writerow env line).
Proof.
  intros ts s. unfold writerow. cbn [with_times out].
  destruct (writerow_ok env _); reflexivity.
Qed.

Lemma times_blind_close_file : times_blind (close_file env).
Proof.
  intros ts s. unfold close_file. cbn [with_times out].
  destruct (close_ok env); reflexivity.
Qed.

Ltac solve_times_blind :=
  repeat match goal with
  | |- forall _, _ => intro
  | |- times_blind (mbind _ _) => apply times_blind_bind
  | |- times_blind (for_each _ _) => apply times_blind_for_each
  | |- times_blind (writerow _ _) => apply times_blind_writerow
  | |- times_blind (if ?b then _ else _) => destruct b
  | |- times_blind (emit _ _ _ _ _ _ _) => unfold emit
  | |- times_blind _ =>
      let ts := fresh "ts" in let s := fresh "s" in
      intros ts s;
      unfold with_times, modify, imwrite, lift, gets, ret, set_out;
      cbn [frame_count processed_count detection_count times out decoded
           fst snd];
      rewrite ?app_assoc; reflexivity
  end.

Lemma times_blind_step (video_fps interval : Z) (frame : image) :
  times_blind (step env self dir video_fps interval frame).
Proof. unfold step. solve_times_blind. Qed.

End Times.

(** C8 (counterexample).  A second run on the same object starts with
    the inference time of the first run in [inference_times], and its
    average (2000 ms) is not that of the same run on a fresh object
    (3000 ms). *)
Lemma second_run_starts_with_old_times :
  let '(self1, _, _) :=
    process_video Sample.busy_env Sample.pipeline Sample.video_1
      "detections.csv" "roi_patches" 1 in
  let '(_, _, r2) :=
    process_video Sample.slow_env self1 Sample.video_1
      "detections.csv" "roi_patches" 1 in
  let '(_, _, r0) :=
    process_video Sample.slow_env Sample.pipeline Sample.video_1
      "detections.csv" "roi_patches" 1 in
  times (@start (Sample.vision true) (inference_times self1)) = [Sample.one] /\
  match r2, r0 with
  | Ok second, Ok fresh =>
      stat_avg_inference_ms second = Str.lit "2000" /\
      stat_avg_inference_ms fresh = Str.lit "3000"
  | _, _ => False
  end.
Proof. vm_compute. repeat split. Qed.

Lemma without_times_id (self : Self) :
  inference_times self = [] -> without_times self = self.
Proof. destruct self. cbn. now intros ->. Qed.

(** C8 (amended).  The three counters are local to a run and are zero
    when its loop is entered; [inference_times] belongs to the object,
    is empty when the object is built and is only appended to.  A run
    on an object that already holds times writes the same output and
    returns the same statistics as on a fresh object, except that the
    average inference time is taken over the old and the new times
    together; so the statistics of the first run of an object depend on
    that run only. *)
Theorem counters_are_per_run_times_per_object
    (V : Vision) (env : Env) (self : Self) (video : Video)
    (output_csv dir : string) (sample_fps : Z) :
  let old := inference_times self in
  let '(self1, o1, r1) :=
    process_video env self video output_csv dir sample_fps in
  let '(self0, o0, r0) :=
    process_video env (without_times self) video output_csv dir sample_fps in
  (frame_count (start old) = 0 /\
   processed_count (start old) = 0 /\
   detection_count (start old) = 0 /\
   times (start old) = old) /\
  (forall device conf classes,
     inference_times (init device conf classes) = []) /\
  o1 = o0 /\
  inference_times self1 = (old ++ inference_times self0)%list /\
  r1 = match r0 with
       | Ok stats0 => Ok (with_avg env (inference_times self1) stats0)
       | Raise e => Raise e
       end /\
  (old = [] -> (self1, o1, r1) = (self0, o0, r0)).
Proof.
  intros old. unfold process_video.
  cbn [inference_times without_times device conf_threshold target_classes
       total_frames total_detections].
  assert (Hstep : forall video_fps interval,
    @run_video V env (without_times self) video = run_video env self video /\
    forall f, step env (without_times self) dir video_fps interval f
              = step env self dir video_fps interval f)
    by (intros; split; reflexivity).
  destruct (Hstep 0 0) as [-> _]. clear Hstep.
  rewrite !run_video_eq. fold old.
  destruct (setup env video sample_fps) as [video_fps|e].
  - destruct (writerow_ok env 0).
    + assert (Hh : after_header env old
                   = with_times old (after_header env []))
        by (unfold after_header, with_times; cbn; now rewrite app_nil_r).
      rewrite Hh. unfold finish.
      rewrite (times_blind_for_each (frames video)
                 (step env self dir video_fps
                    (frame_interval_of video_fps sample_fps))
                 (times_blind_step env self dir video_fps
                    (frame_interval_of video_fps sample_fps))
                 old (after_header env [])).
      destruct (for_each (frames video) _ (after_header env []))
        as [s0 [[]|e]]; cbn [fst snd].
      * rewrite (times_blind_close_file env old s0).
        destruct (close_file env s0) as [s1 [[]|e]];
          cbn [fst snd times out with_times inference_times].
        -- repeat split.
           intros E. rewrite E. cbn [app].
           destruct s1; reflexivity.
        -- repeat split.
           intros E. rewrite E. reflexivity.
      * cbn [fst snd times out with_times inference_times].
        repeat split.
        intros E. rewrite E. reflexivity.
    + cbn [fst snd times out start inference_times with_file set_out].
      rewrite app_nil_r. repeat split.
      intros E. rewrite E. reflexivity.
  - cbn [fst snd times out start inference_times].
    rewrite app_nil_r. repeat split.
    intros E. rewrite E. reflexivity.
Qed.

(* ------------------------------------------------------------------ *)
(** ** GeoFix decoder: which text is parsed *)

Lemma best_of_spec (texts : list string) : forall best,
  In (best_of best texts) (best :: texts) /\
  (forall t, In t (best :: texts) ->
             count_digits t <= count_digits (best_of best texts)) /\
  ((forall t, In t texts -> count_digits t <= count_digits best) ->
   best_of best texts = best).
Proof.
  induction texts as [|t texts IH]; intros best; cbn [best_of].
  - split; [ now left | ]. split; [ | reflexivity ].
    intros t [<-|[]]. lia.
  - destruct (count_digits best <? count_digits t) eqn:Hlt.
    + apply Z.ltb_lt in Hlt. destruct (IH t) as (Hin & Hmax & _).
      split; [ right; exact Hin | ]. split.
      * intros x [<-|Hx]; [ | now apply Hmax ].
        specialize (Hmax t (or_introl eq_refl)). lia.
      * intros Hall. specialize (Hall t (or_introl eq_refl)). lia.
    + apply Z.ltb_ge in Hlt. destruct (IH best) as (Hin & Hmax & Hfirst).
      split; [ destruct Hin as [<-|Hin]; [ now left | right; now right ] | ].
      split.
      * intros x [<-|[<-|Hx]].
        -- apply Hmax. now left.
        -- specialize (Hmax best (or_introl eq_refl)). lia.
        -- apply Hmax. now right.
      * intros Hall. apply Hfirst. intros x Hx. apply Hall. now right.
Qed.

(** C1 (counterexample).  A frame whose overlay is readable only after
    the inverted threshold: the text with the most digits parses to a
    fix, and the pipeline's decoder, which reads the plain threshold
    alone, does not return it. *)
Lemma decoder_ignores_inverted_variant : ~ ensemble_claim.
Proof.
  intros H.
  specialize (H (Sample.vision true)
                (Sample.frame_reading "" Sample.overlay_text) 0).
  cbn in H.
  specialize (H _ _ eq_refl eq_refl eq_refl).
  vm_compute in H. discriminate H.
Qed.

(** C1 (amended).  For every sampled frame the decoder of the pipeline
    produces one binarized variant of the overlay crop, the plain
    threshold, runs text recognition on it and parses that text.  The
    stand-alone utility [extract_gps_from_frame_ocr] produces the three
    variants (plain, inverted, adaptive threshold), runs recognition
    on each, and parses the first of the texts that have the greatest
    count of digit characters. *)
Theorem decoder_reads_plain_tool_reads_best_of_three
    (V : Vision) (frame : image) (frame_number : Z)
    (overlay gray binary1 binary2 binary3 : image) (t1 t2 t3 : string) :
  import_pytesseract = Ok tt ->
  overlay_region frame = Ok overlay ->
  cvtColor_BGR2GRAY overlay = Ok gray ->
  threshold gray 127 255 THRESH_BINARY = Ok binary1 ->
  threshold gray 127 255 THRESH_BINARY_INV = Ok binary2 ->
  adaptiveThreshold gray 255 11 2 = Ok binary3 ->
  image_to_string binary1 "--psm 6" = Ok t1 ->
  image_to_string binary2 "--psm 6" = Ok t2 ->
  image_to_string binary3 "--psm 6" = Ok t3 ->
  let best := best_text [t1; t2; t3] in
  extract_gps_from_frame frame frame_number =
    match parse_overlay t1 with
    | Ok (Some geo) => Ok geo
    | _ => fallback_fix frame_number
    end /\
  variants frame = Ok [binary1; binary2; binary3] /\
  extract_gps_from_frame_ocr frame = parse_best best /\
  In best [t1; t2; t3] /\
  (forall t, In t [t1; t2; t3] -> count_digits t <= count_digits best) /\
  (count_digits t2 <= count_digits t1 ->
   count_digits t3 <= count_digits t1 -> best = t1) /\
  (count_digits t1 < count_digits t2 ->
   count_digits t3 <= count_digits t2 -> best = t2).
Proof.
  intros Himp Hov Hgray H1 H2 H3 Ht1 Ht2 Ht3 best.
  assert (Hvar : variants frame = Ok [binary1; binary2; binary3]).
  { unfold variants. rewrite Hov. cbn [bind].
    rewrite Hgray. cbn [bind]. rewrite H1. cbn [bind].
    rewrite H2. cbn [bind]. now rewrite H3. }
  split.
  { unfold extract_gps_from_frame, ocr_decode.
    rewrite Himp. cbn [bind]. rewrite Hov. cbn [bind].
    rewrite Hgray. cbn [bind]. rewrite H1. cbn [bind].
    rewrite Ht1. cbn [bind].
    destruct (parse_overlay t1) as [[geo|]|e]; reflexivity. }
  split; [ exact Hvar | ]. split.
  { unfold extract_gps_from_frame_ocr. rewrite Himp, Hvar. cbn [bind ocr_all].
    rewrite Ht1. cbn [bind]. rewrite Ht2. cbn [bind]. rewrite Ht3.
    reflexivity. }
  subst best. unfold best_text.
  destruct (best_of_spec [t2; t3] t1) as (Hin & Hmax & Hfirst).
  split; [ exact Hin | ]. split; [ exact Hmax | ]. split.
  - intros L2 L3. apply Hfirst. intros t [<-|[<-|[]]]; assumption.
  - intros L2 L3. cbn [best_of].
    apply Z.ltb_lt in L2. rewrite L2.
    destruct (best_of_spec [t3] t2) as (_ & _ & Hf).
    apply Hf. intros t [<-|[]]. assumption.
Qed.

Lemma decoder_reads_plain_tool_reads_best_of_three_witness :
  extract_gps_from_frame_ocr
    (Sample.frame_reading "" Sample.overlay_text : @image (Sample.vision true))
  = parse_best Sample.overlay_text.
Proof.
  pose (frame := Sample.frame_reading "" Sample.overlay_text).
  pose (overlay := @slice (Sample.vision true) frame 85 100 0 35).
  pose (gray := Sample.restage Sample.Gray overlay).
  exact (proj1 (proj2 (proj2
    (decoder_reads_plain_tool_reads_best_of_three
       (Sample.vision true) frame 0 overlay gray
       (Sample.restage Sample.Plain gray)
       (Sample.restage Sample.Inverted gray)
       (Sample.restage Sample.Adaptive gray)
       "" Sample.overlay_text ""
       eq_refl eq_refl eq_refl eq_refl eq_refl eq_refl
       eq_refl eq_refl eq_refl)))).
Defined.

(* ------------------------------------------------------------------ *)
(** ** GeoFix decoder: the fallback *)

Lemma int_truediv_small (a b : Z) :
  Z.abs a < 2 ^ 53 -> 0 < Z.abs b < 2 ^ 53 ->
  int_truediv a b = Ok (fdiv (Z2F a) (Z2F b)).
Proof.
  intros Ha Hb. unfold int_truediv.
  destruct (b =? 0) eqn:E; [ apply Z.eqb_eq in E; lia | ].
  assert (Ha' : (Z.abs a <? 2 ^ 53) = true) by (apply Z.ltb_lt; lia).
  assert (Hb' : (Z.abs b <? 2 ^ 53) = true) by (apply Z.ltb_lt; lia).
  now rewrite Ha', Hb'.
Qed.

(** Below [2^53] in magnitude the fallback never raises and is the
    closed form. *)
Lemma fallback_fix_closed_form (frame_number : Z) :
  Z.abs frame_number < 2 ^ 53 ->
  fallback_fix frame_number = Ok (closed_form frame_number).
Proof.
  intros Hn. unfold fallback_fix.
  rewrite !int_truediv_small by (cbn; lia).
  reflexivity.
Qed.

Lemma extract_gps_fallback {V : Vision} (frame : image) (frame_number : Z) :
  decoding_fails frame ->
  extract_gps_from_frame frame frame_number = fallback_fix frame_number.
Proof.
  unfold decoding_fails, extract_gps_from_frame.
  destruct (ocr_decode frame) as [[geo|]|e]; [ intros [] | | ]; reflexivity.
Qed.

(** C2.  For every [frameIndex >= 0], when decoding falls back the
    decoder returns what [fallback_fix] computes from the frame index
    alone, whatever the frame and the capabilities; below [2^53] this
    is the closed form, in binary64 arithmetic,
    lat = 43.7900 + (frameIndex/10000)*0.0001,
    lon = -79.3140 + (frameIndex/10000)*0.0001,
    heading = (45.0 + (frameIndex/100)*2.5) mod 360,
    so that two runs return the same bits. *)
Theorem fallback_is_closed_form_of_frame_index
    (V : Vision) (frame : image) (frameIndex : Z) :
  0 <= frameIndex ->
  decoding_fails frame ->
  extract_gps_from_frame frame frameIndex = fallback_fix frameIndex /\
  (frameIndex < 2 ^ 53 ->
   extract_gps_from_frame frame frameIndex = Ok (closed_form frameIndex)) /\
  (forall (V' : Vision) (frame' : @image V'),
     @decoding_fails V' frame' ->
     @extract_gps_from_frame V' frame' frameIndex =
     extract_gps_from_frame frame frameIndex).
Proof.
  intros Hn Hfail. split; [ now apply extract_gps_fallback | ]. split.
  - intros Hlt. rewrite extract_gps_fallback by assumption.
    apply fallback_fix_closed_form. lia.
  - intros V' frame' Hfail'. now rewrite !extract_gps_fallback.
Qed.

Lemma fallback_is_closed_form_of_frame_index_witness :
  0 <= 123456 /\
  @extract_gps_from_frame (Sample.vision false)
    (Sample.frame_reading Sample.overlay_text "") 123456
  = Ok (closed_form 123456).
Proof.
  split; [ lia | ].
  apply (fallback_is_closed_form_of_frame_index
           (Sample.vision false)
           (Sample.frame_reading Sample.overlay_text "") 123456);
    [ lia | exact I | reflexivity ].
Defined.

(** C6.  For every frame and every frame index (below [2^53] in
    magnitude) the decoder returns a fix and never raises: when
    [pytesseract] cannot be imported, when any step of the [try] block
    raises, and when the latitude or the longitude is not found, the
    fix returned is the fallback. *)
Theorem decoder_never_raises
    (V : Vision) (frame : image) (frameIndex : Z) :
  Z.abs frameIndex < 2 ^ 53 ->
  (exists geo : GeoFix, extract_gps_from_frame frame frameIndex = Ok geo) /\
  (forall e, import_pytesseract = Raise e ->
     extract_gps_from_frame frame frameIndex = Ok (closed_form frameIndex)) /\
  (forall e, ocr_decode frame = Raise e ->
     extract_gps_from_frame frame frameIndex = Ok (closed_form frameIndex)) /\
  (ocr_decode frame = Ok None ->
     extract_gps_from_frame frame frameIndex = Ok (closed_form frameIndex)) /\
  (forall geo, ocr_decode frame = Ok (Some geo) ->
     extract_gps_from_frame frame frameIndex = Ok geo).
Proof.
  intros Hn.
  pose proof (fallback_fix_closed_form frameIndex Hn) as Hfb.
  unfold extract_gps_from_frame.
  split; [ | split; [ | split; [ | split ] ] ].
  - destruct (ocr_decode frame) as [[geo|]|e]; rewrite ?Hfb; eauto.
  - intros e He. unfold ocr_decode. rewrite He. cbn [bind]. exact Hfb.
  - intros e ->. exact Hfb.
  - intros ->. exact Hfb.
  - intros geo ->. reflexivity.
Qed.

Lemma decoder_never_raises_witness :
  Z.abs 7 < 2 ^ 53 /\
  exists geo : GeoFix,
    @extract_gps_from_frame (Sample.vision false)
      (Sample.frame_reading Sample.overlay_text "") 7 = Ok geo.
Proof.
  split; [ reflexivity | ].
  exact (proj1 (decoder_never_raises (Sample.vision false)
                  (Sample.frame_reading Sample.overlay_text "") 7
                  eq_refl)).
Defined.

(* ------------------------------------------------------------------ *)
(** ** Binary64 arithmetic: signs and magnitudes

    The rounding function of the Standard Library shifts the mantissa
    right until it fits and may then carry once; the lemmas below
    bound the exponent it returns, which is enough to see that the
    operations of the fallback stay finite. *)

Section Rounding.

Lemma digits2_pos_log2 (p : positive) :
  Z.pos (digits2_pos p) = Z.log2 (Z.pos p) + 1.
Proof.
  assert (H : forall q, digits2_pos q = Pos.size q)
    by (induction q; cbn; congruence).
  rewrite H. destruct p; cbn; lia.
Qed.

Lemma Zdigits2_log2 (m : Z) : 0 < m -> Zdigits2 m = Z.log2 m + 1.
Proof. destruct m; try lia. intros _. apply digits2_pos_log2. Qed.

Lemma Zdigits2_nonneg (m : Z) : 0 <= Zdigits2 m.
Proof. destruct m; cbn; lia. Qed.

Lemma Zdigits2_le (a b : Z) : 0 <= a <= b -> Zdigits2 a <= Zdigits2 b.
Proof.
  intros [Ha Hab]. destruct (Z.eq_dec a 0) as [->|Hne].
  - apply Zdigits2_nonneg.
  - rewrite !Zdigits2_log2 by lia.
    pose proof (Z.log2_le_mono a b Hab). lia.
Qed.

Lemma Zdigits2_succ (m : Z) : 0 <= m -> Zdigits2 (m + 1) <= Zdigits2 m + 1.
Proof.
  intros Hm. destruct (Z.eq_dec m 0) as [->|Hne]; [ cbn; lia | ].
  rewrite !Zdigits2_log2 by lia.
  pose proof (Z.log2_succ_le m) as H. unfold Z.succ in H. lia.
Qed.

Lemma Zdigits2_mul_pow2 (m k : Z) :
  0 < m -> 0 <= k -> Zdigits2 (m * 2 ^ k) = Zdigits2 m + k.
Proof.
  intros Hm Hk.
  assert (0 < 2 ^ k) by (apply Z.pow_pos_nonneg; lia).
  rewrite !Zdigits2_log2 by nia.
  rewrite <- Z.shiftl_mul_pow2 by lia. rewrite Z.log2_shiftl by lia. lia.
Qed.

Lemma Zdigits2_div_pow2 (m k : Z) :
  0 <= m -> 0 <= k -> Zdigits2 (m / 2 ^ k) <= Z.max 0 (Zdigits2 m - k).
Proof.
  intros Hm Hk.
  assert (Hp : 0 < 2 ^ k) by (apply Z.pow_pos_nonneg; lia).
  assert (Hq : 0 <= m / 2 ^ k) by (apply Z.div_pos; lia).
  destruct (Z.eq_dec (m / 2 ^ k) 0) as [->|Hne]; [ cbn; lia | ].
  assert (Hm' : 0 < m).
  { destruct (Z.eq_dec m 0) as [->|]; [ | lia ].
    rewrite Z.div_0_l in Hne by lia. lia. }
  assert (Hge : 2 ^ k <= m).
  { destruct (Z.lt_ge_cases m (2 ^ k)) as [Hlt|]; [ | assumption ].
    rewrite Z.div_small in Hne by lia. lia. }
  apply Z.log2_le_pow2 in Hge; [ | lia ].
  rewrite !Zdigits2_log2 by lia.
  rewrite <- Z.shiftr_div_pow2 by lia. rewrite Z.log2_shiftr by lia. lia.
Qed.

Lemma Zdigits2_add (a b : Z) :
  0 <= a -> 0 <= b ->
  Zdigits2 (a + b) <= Z.max (Zdigits2 a) (Zdigits2 b) + 1.
Proof.
  intros Ha Hb.
  destruct (Z.le_ge_cases a b).
  - transitivity (Zdigits2 (b * 2 ^ 1)).
    + apply Zdigits2_le. lia.
    + destruct (Z.eq_dec b 0) as [->|]; [ cbn; lia | ].
      rewrite Zdigits2_mul_pow2 by lia. lia.
  - transitivity (Zdigits2 (a * 2 ^ 1)).
    + apply Zdigits2_le. lia.
    + destruct (Z.eq_dec a 0) as [->|]; [ cbn; lia | ].
      rewrite Zdigits2_mul_pow2 by lia. lia.
Qed.

Lemma Zdigits2_mul (a b : Z) :
  0 < a -> 0 < b -> Zdigits2 (a * b) <= Zdigits2 a + Zdigits2 b.
Proof.
  intros Ha Hb. rewrite !Zdigits2_log2 by nia.
  pose proof (Z.log2_mul_above a b). lia.
Qed.

Lemma shr_1_m (r : shr_record) :
  0 <= shr_m r -> shr_m (shr_1 r) = shr_m r / 2.
Proof.
  destruct r as [m rb sb]. cbn [shr_m]. intros Hm.
  destruct m as [|[p|p|]|p]; try lia; cbn [shr_1 shr_m].
  - reflexivity.
  - rewrite Pos2Z.inj_xI.
    apply (Z.div_unique_pos _ _ _ 1); lia.
  - rewrite Pos2Z.inj_xO.
    apply (Z.div_unique_pos _ _ _ 0); lia.
  - reflexivity.
Qed.

Lemma iter_shr_1_m (p : positive) : forall r,
  0 <= shr_m r -> shr_m (iter_pos shr_1 p r) = shr_m r / 2 ^ Z.pos p.
Proof.
  induction p as [p IH|p IH|]; intros r Hr; cbn [iter_pos].
  - assert (H1 : 0 <= shr_m (shr_1 r))
      by (rewrite shr_1_m by lia; apply Z.div_pos; lia).
    assert (Hp : 0 < 2 ^ Z.pos p) by (apply Z.pow_pos_nonneg; lia).
    assert (H2 : 0 <= shr_m (iter_pos shr_1 p (shr_1 r)))
      by (rewrite IH by lia; apply Z.div_pos; lia).
    rewrite IH, IH, shr_1_m by lia.
    rewrite !Z.div_div by lia. f_equal.
    replace (Z.pos p~1) with (Z.pos p + Z.pos p + 1) by lia.
    rewrite !Z.pow_add_r by lia. change (2 ^ 1) with 2. ring.
  - assert (Hp : 0 < 2 ^ Z.pos p) by (apply Z.pow_pos_nonneg; lia).
    assert (H2 : 0 <= shr_m (iter_pos shr_1 p r))
      by (rewrite IH by lia; apply Z.div_pos; lia).
    rewrite IH, IH by lia.
    rewrite !Z.div_div by lia. f_equal.
    replace (Z.pos p~0) with (Z.pos p + Z.pos p) by lia.
    rewrite !Z.pow_add_r by lia. ring.
  - rewrite shr_1_m by lia. reflexivity.
Qed.

Lemma shr_record_of_loc_m (m : Z) (l : location) :
  shr_m (shr_record_of_loc m l) = m.
Proof. destruct l as [|[]]; reflexivity. Qed.

(** The first step of rounding: the mantissa is shifted right so that
    at most 53 bits stay, or the exponent is at least the least one. *)
Lemma shr_fexp_spec (m e : Z) (l : location) :
  0 <= m ->
  let '(mrs, e') := shr_fexp prec emax m e l in
  0 <= shr_m mrs <= m /\
  Zdigits2 (shr_m mrs) <= 53 /\
  e' = Z.max e (Z.max (Zdigits2 m + e - 53) (-1074)).
Proof.
  intros Hm. unfold shr_fexp, shr, fexp, SpecFloat.emin, prec, emax.
  pose proof (Zdigits2_nonneg m) as Hd.
  change (3 - 1024 - 53) with (-1074).
  destruct (Z.max (Zdigits2 m + e - 53) (-1074) - e) as [|p|p] eqn:En.
  - rewrite shr_record_of_loc_m. repeat split; lia.
  - rewrite iter_shr_1_m by (rewrite shr_record_of_loc_m; lia).
    rewrite shr_record_of_loc_m.
    assert (Hp : 0 < 2 ^ Z.pos p) by (apply Z.pow_pos_nonneg; lia).
    pose proof (Zdigits2_div_pow2 m (Z.pos p) Hm ltac:(lia)) as Hdiv.
    split; [ split; [ apply Z.div_pos; lia | ] | split; lia ].
    apply Z.div_le_upper_bound; nia.
  - rewrite shr_record_of_loc_m. repeat split; lia.
Qed.

Lemma round_nearest_even_bounds (m : Z) (l : location) :
  m <= round_nearest_even m l <= m + 1.
Proof.
  destruct l as [|[]]; cbn; try lia. destruct (Z.even m); lia.
Qed.

(** Rounding a non-negative mantissa keeps the sign and never gives a
    NaN; and when the number is below [2^1024] by enough, the result is
    finite. *)
Lemma round_aux_within (sx : bool) (m e : Z) (l : location) (E : Z) :
  0 <= m -> e <= E -> Zdigits2 m + e - 53 <= E -> -1074 <= E ->
  E + 1 <= 971 ->
  within sx (E + 1) (binary_round_aux prec emax sx m e l).
Proof.
  intros Hm He Hd HE Hmax. unfold binary_round_aux.
  pose proof (shr_fexp_spec m e l Hm) as H1.
  destruct (shr_fexp prec emax m e l) as [mrs1 e1].
  destruct H1 as ([H1a H1b] & H1d & ->).
  set (m2 := round_nearest_even (shr_m mrs1) (loc_of_shr_record mrs1)).
  pose proof (round_nearest_even_bounds (shr_m mrs1)
                (loc_of_shr_record mrs1)) as Hr. fold m2 in Hr.
  assert (Hm2 : 0 <= m2) by lia.
  assert (Hd2 : Zdigits2 m2 <= 54).
  { transitivity (Zdigits2 (shr_m mrs1 + 1)).
    - apply Zdigits2_le. lia.
    - pose proof (Zdigits2_succ (shr_m mrs1) H1a). lia. }
  pose proof (shr_fexp_spec m2
                (Z.max e (Z.max (Zdigits2 m + e - 53) (-1074)))
                loc_Exact Hm2) as H2.
  destruct (shr_fexp prec emax m2 _ loc_Exact) as [mrs2 e2].
  destruct H2 as ([H2a H2b] & H2d & ->).
  destruct (shr_m mrs2) as [|p|p] eqn:Em; [ now left | | lia ].
  assert (Hle : Z.max (Z.max e (Z.max (Zdigits2 m + e - 53) (-1074)))
                  (Z.max (Zdigits2 m2 +
                          Z.max e (Z.max (Zdigits2 m + e - 53) (-1074)) - 53)
                         (-1074)) <= E + 1) by lia.
  unfold prec, emax. change (1024 - 53) with 971.
  destruct (Z.leb_spec
              (Z.max (Z.max e (Z.max (Zdigits2 m + e - 53) (-1074)))
                 (Z.max (Zdigits2 m2 +
                         Z.max e (Z.max (Zdigits2 m + e - 53) (-1074)) - 53)
                        (-1074))) 971) as [_|Hgt]; [ | lia ].
  right. eexists _, _. split; [ reflexivity | ]. split; [ | exact Hle ].
  exact H2d.
Qed.

Lemma round_aux_sign (sx : bool) (m e : Z) (l : location) :
  0 <= m ->
  is_nan (binary_round_aux prec emax sx m e l) = false /\
  sign_bit (binary_round_aux prec emax sx m e l) = sx.
Proof.
  intros Hm. unfold binary_round_aux.
  pose proof (shr_fexp_spec m e l Hm) as H1.
  destruct (shr_fexp prec emax m e l) as [mrs1 e1].
  destruct H1 as ([H1a H1b] & _ & _).
  pose proof (round_nearest_even_bounds (shr_m mrs1)
                (loc_of_shr_record mrs1)) as Hr.
  match goal with
  | |- context [shr_fexp prec emax ?m2 ?e2 loc_Exact] =>
      pose proof (shr_fexp_spec m2 e2 loc_Exact ltac:(lia)) as H2;
      destruct (shr_fexp prec emax m2 e2 loc_Exact) as [mrs2 e3]
  end.
  destruct H2 as ([H2a H2b] & _ & _).
  destruct (shr_m mrs2) as [|p|p]; [ now split | | lia ].
  destruct (_ <=? _); now split.
Qed.

Lemma iter_xO_pow2 (p d : positive) :
  Z.pos (Pos.iter xO p d) = Z.pos p * 2 ^ Z.pos d.
Proof.
  revert p. induction d as [|d IH] using Pos.peano_ind; intros p.
  - cbn. lia.
  - rewrite Pos.iter_succ, Pos2Z.inj_xO, IH, Pos2Z.inj_succ.
    rewrite Z.pow_succ_r by lia. ring.
Qed.

Lemma shl_align_spec (p : positive) (e e' : Z) :
  let '(mz, ez) := shl_align p e e' in
  ez = Z.min e e' /\ Z.pos mz = Z.pos p * 2 ^ (e - ez).
Proof.
  unfold shl_align. destruct (e' - e) as [|d|d] eqn:Ed.
  - replace (Z.min e e') with e by lia. rewrite Z.sub_diag. cbn. lia.
  - replace (Z.min e e') with e by lia. rewrite Z.sub_diag. cbn. lia.
  - replace (Z.min e e') with e' by lia. split; [ reflexivity | ].
    rewrite iter_xO_pow2. do 2 f_equal. lia.
Qed.

Lemma binary_round_within (sx : bool) (p : positive) (e E : Z) :
  e <= E -> Z.pos (digits2_pos p) + e - 53 <= E -> -1074 <= E ->
  E + 1 <= 971 ->
  within sx (E + 1) (binary_round prec emax sx p e).
Proof.
  intros He Hd HE Hmax. unfold binary_round.
  pose proof (shl_align_spec p e
                (fexp prec emax (Z.pos (digits2_pos p) + e))) as Hs.
  destruct (shl_align p e _) as [mz ez]. destruct Hs as [Hez Hmz].
  assert (Hk : 0 <= e - ez) by lia.
  apply round_aux_within; try lia.
  rewrite Hmz, Zdigits2_mul_pow2 by lia. cbn [Zdigits2]. lia.
Qed.

Lemma binary_round_sign (sx : bool) (p : positive) (e : Z) :
  is_nan (binary_round prec emax sx p e) = false /\
  sign_bit (binary_round prec emax sx p e) = sx.
Proof.
  unfold binary_round. destruct (shl_align p e _) as [mz ez].
  apply round_aux_sign. lia.
Qed.

Lemma normalize_sign (m e : Z) :
  0 <= m ->
  is_nan (binary_normalize prec emax m e false) = false /\
  sign_bit (binary_normalize prec emax m e false) = false.
Proof.
  intros Hm. destruct m as [|p|p]; [ now split | | lia ].
  apply binary_round_sign.
Qed.

Lemma Z2F_within (n : Z) : 0 <= n < 2 ^ 53 -> within false 1 (Z2F n).
Proof.
  intros [H0 Hn]. unfold Z2F, binary_normalize.
  destruct n as [|p|p]; [ now left | | lia ].
  apply (binary_round_within false p 0 0); try lia.
  rewrite digits2_pos_log2.
  assert (Z.log2 (Z.pos p) < 53) by (apply Z.log2_lt_pow2; lia). lia.
Qed.

Lemma fmul_within (Ex Ey : Z) (x y : float) :
  within false Ex x -> within false Ey y ->
  -1074 <= Ex + Ey + 53 -> Ex + Ey + 54 <= 971 ->
  within false (Ex + Ey + 54) (fmul x y).
Proof.
  intros [->|(mx & ex & -> & Hdx & Hex)] [->|(my & ey & -> & Hdy & Hey)]
         Hlo Hhi; try (now left).
  unfold fmul, SFmul. cbn [xorb].
  replace (Ex + Ey + 54) with (Ex + Ey + 53 + 1) by lia.
  apply round_aux_within; try lia.
  pose proof (Zdigits2_mul (Z.pos mx) (Z.pos my) ltac:(lia) ltac:(lia)) as H.
  cbn [Zdigits2] in H. rewrite Pos2Z.inj_mul. cbn [Zdigits2] in *. lia.
Qed.

Lemma fdiv_within (Ex : Z) (x : float) (my : positive) (ey : Z) :
  within false Ex x ->
  -1074 <= Ex - ey -> Ex - ey + 1 <= 971 ->
  within false (Ex - ey + 1) (fdiv x (S754_finite false my ey)).
Proof.
  intros [->|(mx & ex & -> & Hdx & Hex)] Hlo Hhi; [ now left | ].
  unfold fdiv, SFdiv, SFdiv_core_binary. cbn [xorb].
  set (e' := Z.min _ _).
  assert (He' : e' <= ex - ey) by (subst e'; lia).
  set (m' := match ex - ey - e' with
             | 0 => Z.pos mx
             | Z.pos _ => Z.shiftl (Z.pos mx) (ex - ey - e')
             | Z.neg _ => 0
             end).
  assert (Hm' : 0 <= m' /\ Zdigits2 m' + e' <= Z.pos (digits2_pos mx) + ex - ey).
  { subst m'. destruct (ex - ey - e') as [|s|s] eqn:Es.
    - cbn [Zdigits2]. lia.
    - rewrite Z.shiftl_mul_pow2 by lia.
      assert (0 < 2 ^ Z.pos s) by (apply Z.pow_pos_nonneg; lia).
      rewrite Zdigits2_mul_pow2 by lia. cbn [Zdigits2]. nia.
    - cbn [Zdigits2]. lia. }
  destruct Hm' as [Hm0 Hmd].
  pose proof (Z_div_mod m' (Z.pos my) ltac:(lia)) as Hdm.
  destruct (Z.div_eucl m' (Z.pos my)) as [q r].
  destruct Hdm as [Hq Hr].
  assert (Hq0 : 0 <= q <= m') by nia.
  apply round_aux_within; try lia.
  pose proof (Zdigits2_le q m' Hq0). lia.
Qed.

Lemma fadd_within (Ex Ey : Z) (x y : float) :
  within false Ex x -> within false Ey y ->
  -1074 <= Z.max Ex Ey + 1 -> Z.max Ex Ey + 2 <= 971 ->
  within false (Z.max Ex Ey + 2) (fadd x y).
Proof.
  intros [->|(mx & ex & -> & Hdx & Hex)] [->|(my & ey & -> & Hdy & Hey)]
         Hlo Hhi.
  - now left.
  - right. exists my, ey. repeat split; [ assumption | lia ].
  - right. exists mx, ex. repeat split; [ assumption | lia ].
  - unfold fadd, SFadd. cbn [cond_Zopp].
    pose proof (shl_align_spec mx ex (Z.min ex ey)) as Hx.
    pose proof (shl_align_spec my ey (Z.min ex ey)) as Hy.
    destruct (shl_align mx ex _) as [mx' ex'].
    destruct (shl_align my ey _) as [my' ey'].
    destruct Hx as [Hex' Hmx']. destruct Hy as [Hey' Hmy'].
    cbn [fst]. cbn [Z.add binary_normalize].
    replace (Z.max Ex Ey + 2) with (Z.max Ex Ey + 1 + 1) by lia.
    apply binary_round_within; try lia.
    pose proof (Zdigits2_add (Z.pos mx') (Z.pos my') ltac:(lia) ltac:(lia))
      as Hadd.
    assert (Hx : Zdigits2 (Z.pos mx') = Z.pos (digits2_pos mx) + (ex - ex'))
      by (rewrite Hmx', Zdigits2_mul_pow2 by lia; reflexivity).
    assert (Hy : Zdigits2 (Z.pos my') = Z.pos (digits2_pos my) + (ey - ey'))
      by (rewrite Hmy', Zdigits2_mul_pow2 by lia; reflexivity).
    rewrite Hx, Hy in Hadd.
    change (Z.pos mx' + Z.pos my') with (Z.pos (mx' + my')) in Hadd.
    cbn [Zdigits2] in Hadd.
    change (IntDef.Z.min ex ey) with (Z.min ex ey). lia.
Qed.

End Rounding.

(* ------------------------------------------------------------------ *)
(** ** The value of a float and of a remainder *)

Lemma F2Q_finite (s : bool) (m : positive) (e : Z) :
  (F2Q (S754_finite s m e) ==
   inject_Z (if s then Z.neg m else Z.pos m) * (2 # 1) ^ e)%Q.
Proof.
  unfold F2Q. set (a := if s then Z.neg m else Z.pos m).
  destruct (0 <=? e) eqn:He.
  - apply Z.leb_le in He. rewrite inject_Z_mult.
    rewrite (Zpower_Qpower 2 e He). reflexivity.
  - apply Z.leb_gt in He.
    assert (Hp : 0 < 2 ^ (- e)) by (apply Z.pow_pos_nonneg; lia).
    rewrite Qmake_Qdiv, Z2Pos.id by exact Hp.
    rewrite (Zpower_Qpower 2 (- e)) by lia.
    assert (H : ((2 # 1) ^ e == / (2 # 1) ^ (- e))%Q)
      by (rewrite <- Qpower_opp; now replace (- - e) with e by lia).
    rewrite H. reflexivity.
Qed.

Lemma pow2_Q_pos (e : Z) : (0 < (2 # 1) ^ e)%Q.
Proof. apply Qpower_0_lt. reflexivity. Qed.

(** An integer [r] scaled by [2^e], as [float_exact] stores it. *)
Lemma F2Q_float_exact (r e : Z) :
  0 < r ->
  (F2Q (float_exact false r e) == inject_Z r * (2 # 1) ^ e)%Q.
Proof.
  intros Hr. unfold float_exact.
  set (k := Z.max 0 _).
  assert (Hk : 0 <= k) by (subst k; lia).
  assert (Hp : 0 < 2 ^ k) by (apply Z.pow_pos_nonneg; lia).
  rewrite F2Q_finite. rewrite Z2Pos.id by nia.
  rewrite inject_Z_mult, (Zpower_Qpower 2 k Hk).
  replace e with (k + (e - k)) at 2 by lia.
  rewrite Qpower_plus by discriminate.
  change (inject_Z 2) with (2 # 1). ring.
Qed.

(** The remainder by a positive float of a float that is zero or
    positive is a finite float in [0, y). *)
Lemma mod_value_range (E : Z) (x : float) (my : positive) (ey : Z) :
  within false E x ->
  let y := S754_finite false my ey in
  let h := mod_value x y in
  is_finite h = true /\ sign_bit h = false /\
  (0 <= F2Q h)%Q /\ (F2Q h < F2Q y)%Q.
Proof.
  intros Hx y h.
  assert (Hy : (0 < F2Q y)%Q).
  { subst y. rewrite F2Q_finite.
    apply Qmult_lt_0_compat; [ | apply pow2_Q_pos ].
    change 0%Q with (inject_Z 0). rewrite <- Zlt_Qlt. lia. }
  destruct Hx as [->|(mx & ex & -> & Hdx & Hex)].
  - subst h. cbn. repeat split; [ discriminate | exact Hy ].
  - subst h. subst y. unfold mod_value, fmod. cbv beta iota zeta.
    remember (Z.min ex ey) as e eqn:He.
    remember (Z.pos my * 2 ^ (ey - e)) as Y eqn:EY.
    assert (HY : 0 < Y).
    { subst Y. assert (0 < 2 ^ (ey - e))
        by (apply Z.pow_pos_nonneg; subst e; lia). nia. }
    pose proof (Z.mod_pos_bound (Z.pos mx * 2 ^ (ex - e)) Y HY) as Hr.
    remember ((Z.pos mx * 2 ^ (ex - e)) mod Y) as r eqn:Erd.
    destruct (r =? 0) eqn:Er.
    + cbn. repeat split; [ discriminate | exact Hy ].
    + apply Z.eqb_neq in Er.
      cbn [is_zero is_nan sign_bit float_exact Bool.eqb is_finite].
      split; [ reflexivity | ]. split; [ reflexivity | ].
      rewrite (F2Q_float_exact r e) by lia. rewrite F2Q_finite.
      split.
      * apply Qmult_le_0_compat; [ | apply Qlt_le_weak, pow2_Q_pos ].
        change 0%Q with (inject_Z 0). rewrite <- Zle_Qle. lia.
      * apply Qlt_le_trans with (inject_Z Y * (2 # 1) ^ e)%Q.
        -- apply Qmult_lt_compat_r; [ apply pow2_Q_pos | ].
           rewrite <- Zlt_Qlt. lia.
        -- subst Y. rewrite inject_Z_mult.
           rewrite (Zpower_Qpower 2 (ey - e)) by (subst e; lia).
           change (inject_Z 2) with (2 # 1).
           rewrite <- Qmult_assoc, <- Qpower_plus by discriminate.
           replace (ey - e + e) with ey by lia. apply Qle_refl.
Qed.

(* ------------------------------------------------------------------ *)
(** ** What a match consists of *)

Lemma length_append (a b : string) :
  String.length (a ++ b) = (String.length a + String.length b)%nat.
Proof. induction a as [|c a IH]; cbn; [ reflexivity | now rewrite IH ]. Qed.

Lemma substring_prefix (a b : string) :
  substring 0 (String.length a) (a ++ b) = a.
Proof. induction a as [|c a IH]; cbn; [ now destruct b | now rewrite IH ]. Qed.

Lemma consumed_app (pre rest : string) : Re.consumed (pre ++ rest) rest = pre.
Proof.
  unfold Re.consumed. rewrite length_append.
  replace (String.length pre + String.length rest - String.length rest)%nat
    with (String.length pre) by lia.
  apply substring_prefix.
Qed.

Lemma append_assoc (a b c : string) : (a ++ b) ++ c = a ++ b ++ c.
Proof. induction a as [|x a IH]; cbn; [ reflexivity | now rewrite IH ]. Qed.

Lemma all_chars_weaken (p q : ascii -> bool) (s : string) :
  (forall c, p c = true -> q c = true) ->
  all_chars p s = true -> all_chars q s = true.
Proof.
  intros Hpq. induction s as [|c s IH]; cbn; [ reflexivity | ].
  intros H. apply andb_prop in H. destruct H as [Hc Hs].
  now rewrite (Hpq c Hc), IH.
Qed.

Section Matching.
Context {A : Type}.

Lemma star_sound (p : ascii -> bool) (s : string)
    (k : string -> option A) (x : A) :
  Re.star p s k = Some x ->
  exists pre rest,
    s = pre ++ rest /\ all_chars p pre = true /\ k rest = Some x.
Proof.
  induction s as [|c s IH]; cbn.
  - intros H. exists "", "". auto.
  - destruct (p c) eqn:Hc.
    + destruct (Re.star p s k) as [y|] eqn:Hs.
      * intros [= ->]. destruct (IH eq_refl) as (pre & rest & -> & Hp & Hk).
        exists (String c pre), rest. cbn. rewrite Hc, Hp. auto.
      * intros H. exists "", (String c s). auto.
    + intros H. exists "", (String c s). auto.
Qed.

(** Soundness of the matcher: when [run] succeeds, the pattern took a
    prefix made of characters of its classes, and the continuation
    succeeded on the rest; a pattern without group hands the capture
    on unchanged. *)
Lemma run_sound (r : Re.re) : forall (s : string) (g : option string)
    (k : string -> option string -> option A) (x : A),
  Re.run r s g k = Some x ->
  exists pre rest g',
    s = pre ++ rest /\ all_chars (Re.alphabet r) pre = true /\
    k rest g' = Some x /\ (Re.no_group r = true -> g' = g).
Proof.
  induction r as [p|a IHa b IHb|a IHa|p|p|a IHa]; intros s g k x;
    cbn [Re.run Re.alphabet Re.no_group].
  - destruct s as [|c s]; [ discriminate | ].
    destruct (p c) eqn:Hc; [ | discriminate ].
    intros H. exists (String c ""), s, g. cbn. rewrite Hc. auto.
  - intros H. apply IHa in H.
    destruct H as (pre1 & rest1 & g1 & -> & H1 & H & Hg1).
    apply IHb in H.
    destruct H as (pre2 & rest2 & g2 & -> & H2 & H & Hg2).
    exists (pre1 ++ pre2), rest2, g2. rewrite append_assoc.
    split; [ reflexivity | ]. split.
    + rewrite all_chars_app. apply andb_true_intro. split.
      * eapply all_chars_weaken; [ | exact H1 ].
        intros c Hc. now rewrite Hc.
      * eapply all_chars_weaken; [ | exact H2 ].
        intros c Hc. rewrite Hc. apply orb_true_r.
    + split; [ exact H | ]. intros Hn. apply andb_prop in Hn.
      destruct Hn as [Ha Hb]. rewrite (Hg2 Hb). now apply Hg1.
  - destruct (Re.run a s g k) as [y|] eqn:Ha.
    + intros [= ->]. now apply IHa.
    + intros H. exists "", s, g. auto.
  - intros H. apply star_sound in H.
    destruct H as (pre & rest & -> & Hp & H). exists pre, rest, g. auto.
  - destruct s as [|c s]; [ discriminate | ].
    destruct (p c) eqn:Hc; [ | discriminate ].
    intros H. apply star_sound in H.
    destruct H as (pre & rest & -> & Hp & H).
    exists (String c pre), rest, g. cbn. rewrite Hc, Hp. auto.
  - intros H. apply IHa in H.
    destruct H as (pre & rest & g' & -> & Hp & H & _).
    exists pre, rest, (Some (Re.consumed (pre ++ rest) rest)).
    repeat split; auto. discriminate.
Qed.

End Matching.

Lemma search_sound (r : Re.re) (s : string) (m : Re.Match) :
  Re.search r s = Some m ->
  exists skipped rest, s = skipped ++ rest /\ Re.match_at r rest = Some m.
Proof.
  induction s as [|c s IH]; cbn [Re.search].
  - destruct (Re.match_at r "") as [m'|] eqn:E; [ | discriminate ].
    intros [= ->]. exists "", "". auto.
  - destruct (Re.match_at r (String c s)) as [m'|] eqn:E.
    + intros [= ->]. exists "", (String c s). auto.
    + intros H. destruct (IH H) as (skipped & rest & -> & Hm).
      exists (String c skipped), rest. auto.
Qed.

(* ------------------------------------------------------------------ *)
(** ** GeoFix decoder: parsing the overlay text *)

(** A match of [marker \s* (number)]: the marker, then white space,
    then the captured number. *)
Lemma marked_number_match (p : ascii -> bool) (number : Re.re)
    (text : string) (m : Re.Match) :
  Re.search (Re.seq [Re.Chr p; Re.Star is_space; Re.Group number]) text
    = Some m ->
  exists marker ws num,
    p marker = true /\ all_chars is_space ws = true /\
    all_chars (Re.alphabet number) num = true /\
    Re.group0 m = String marker (ws ++ num) /\
    Re.group1 m = Some num.
Proof.
  intros H. apply search_sound in H.
  destruct H as (skipped & rest & _ & H).
  unfold Re.match_at in H. cbn [Re.seq Re.run] in H.
  destruct rest as [|c s1]; [ discriminate | ].
  destruct (p c) eqn:Hc; [ | discriminate ].
  apply star_sound in H. destruct H as (ws & s2 & -> & Hws & H).
  apply run_sound in H.
  destruct H as (num & s3 & g' & -> & Hnum & H & _).
  injection H as <-.
  exists c, ws, num. cbn [Re.group0 Re.group1].
  rewrite consumed_app.
  replace (String c (ws ++ num ++ s3)) with (String c (ws ++ num) ++ s3)
    by (cbn; now rewrite append_assoc).
  rewrite consumed_app. auto.
Qed.

Lemma contains_upper_none (x : ascii) (q : ascii -> bool) (s : string) :
  (forall c, q c = true -> Ascii.eqb x (upper_char c) = false) ->
  all_chars q s = true -> contains x (upper s) = false.
Proof.
  intros Hq. induction s as [|c s IH]; cbn; [ reflexivity | ].
  intros H. apply andb_prop in H. destruct H as [Hc Hs].
  now rewrite (Hq c Hc), IH.
Qed.

Lemma contains_none (x : ascii) (q : ascii -> bool) (s : string) :
  (forall c, q c = true -> Ascii.eqb x c = false) ->
  all_chars q s = true -> contains x s = false.
Proof.
  intros Hq. induction s as [|c s IH]; cbn; [ reflexivity | ].
  intros H. apply andb_prop in H. destruct H as [Hc Hs].
  now rewrite (Hq c Hc), IH.
Qed.

Lemma contains_remove (x y : ascii) (s : string) :
  contains x s = false -> contains x (remove y s) = false.
Proof.
  induction s as [|c s IH]; cbn; [ reflexivity | ].
  intros H. apply orb_false_elim in H. destruct H as [Hc Hs].
  destruct (Ascii.eqb y c); cbn; [ now apply IH | ].
  now rewrite Hc, IH.
Qed.

Lemma remove_gone (x : ascii) (s : string) : contains x (remove x s) = false.
Proof.
  induction s as [|c s IH]; cbn; [ reflexivity | ].
  destruct (Ascii.eqb x c) eqn:E; cbn; [ exact IH | now rewrite E, IH ].
Qed.

(** The characters of the number of a coordinate are digits, the point
    and white space: none is a minus sign, and none upper-cases to a
    letter. *)
Lemma number_chars (c : ascii) :
  Re.alphabet
    (Re.seq [Re.Plus is_digit; Re.Opt (Re.Chr dot); Re.Star is_space;
             Re.Plus is_digit]) c = true ->
  Ascii.eqb "-" c = false /\
  Ascii.eqb "S" (upper_char c) = false /\
  Ascii.eqb "W" (upper_char c) = false.
Proof.
  destruct c as [[] [] [] [] [] [] [] []]; vm_compute;
    intros H; try discriminate H; repeat split.
Qed.

Lemma space_chars (c : ascii) :
  is_space c = true ->
  Ascii.eqb "S" (upper_char c) = false /\
  Ascii.eqb "W" (upper_char c) = false.
Proof.
  destruct c as [[] [] [] [] [] [] [] []]; vm_compute;
    intros H; try discriminate H; repeat split.
Qed.

Lemma digit_chars (c : ascii) :
  is_digit c = true -> Ascii.eqb "-" c = false.
Proof.
  destruct c as [[] [] [] [] [] [] [] []]; vm_compute;
    intros H; try discriminate H; reflexivity.
Qed.

Lemma contains_lstrip (x : ascii) (s : string) :
  contains x s = false -> contains x (lstrip s) = false.
Proof.
  induction s as [|c s IH]; cbn; [ reflexivity | ].
  intros H. destruct (is_space c); [ | exact H ].
  apply orb_false_elim in H. now apply IH.
Qed.

Lemma contains_rev_onto (x : ascii) (s : string) : forall acc,
  contains x s = false -> contains x acc = false ->
  contains x (rev_onto s acc) = false.
Proof.
  induction s as [|c s IH]; intros acc Hs Ha; cbn; [ exact Ha | ].
  cbn in Hs. apply orb_false_elim in Hs. destruct Hs as [Hc Hs].
  apply IH; [ exact Hs | ]. cbn. now rewrite Hc, Ha.
Qed.

Lemma contains_strip (x : ascii) (s : string) :
  contains x s = false -> contains x (strip s) = false.
Proof.
  intros H. unfold strip, rev.
  apply contains_rev_onto; [ | reflexivity ].
  apply contains_lstrip.
  apply contains_rev_onto; [ | reflexivity ].
  now apply contains_lstrip.
Qed.

Lemma read_digits_nonneg (s : string) : forall acc len,
  0 <= acc -> 0 <= fst (fst (read_digits s acc len)).
Proof.
  induction s as [|c s IH]; intros acc len Hacc; cbn [read_digits fst];
    [ exact Hacc | ].
  destruct (is_digit c) eqn:Hc; [ | exact Hacc ].
  apply IH. unfold digit_val.
  unfold is_digit in Hc. apply andb_prop in Hc. destruct Hc as [Hlo _].
  apply Nat.leb_le in Hlo. lia.
Qed.

Lemma float_of_decimal_sign (d e : Z) :
  0 <= d ->
  is_nan (float_of_decimal d e) = false /\
  sign_bit (float_of_decimal d e) = false.
Proof.
  intros Hd. unfold float_of_decimal.
  destruct (0 <=? e) eqn:He.
  - apply Z.leb_le in He. apply normalize_sign.
    assert (0 <= 10 ^ e) by (apply Z.pow_nonneg; lia). nia.
  - apply Z.leb_gt in He. unfold round_quot. apply normalize_sign.
    assert (Hb : 0 < 10 ^ (- e)) by (apply Z.pow_pos_nonneg; lia).
    set (k := Z.max 0 _).
    assert (Hk : 0 <= 2 ^ k) by (apply Z.pow_nonneg; lia).
    assert (Hq : 0 <= d * 2 ^ k / 10 ^ (- e))
      by (apply Z.div_pos; [ nia | lia ]).
    destruct (_ =? 0); lia.
Qed.

(** [float] of a text without minus sign is not negative, and never a
    NaN. *)
Lemma float_of_str_sign (s : string) (v : float) :
  float_of_str s = Ok v -> contains "-" s = false ->
  sign_bit v = false /\ is_nan v = false.
Proof.
  unfold float_of_str. intros H Hs.
  apply contains_strip in Hs.
  destruct (strip s) as [|c t] eqn:Et.
  - cbn in H. discriminate.
  - cbn [contains] in Hs. apply orb_false_elim in Hs. destruct Hs as [Hc _].
    rewrite Ascii.eqb_sym in Hc. rewrite Hc in H.
    assert (Hneg : exists t0,
      (if Ascii.eqb c "+" then (false, t) else (false, String c t))
      = (false, t0)) by (destruct (Ascii.eqb c "+"); eauto).
    destruct Hneg as [t0 Ht0]. rewrite Ht0 in H. clear Ht0.
    pose proof (read_digits_nonneg t0 0 0 ltac:(lia)) as Hip.
    destruct (read_digits t0 0 0) as [[ip il] t1]. cbn [fst] in Hip.
    assert (Hfp : exists fp fl t2,
      match t1 with
      | "" => (ip, 0, t1)
      | String c0 t' =>
          if Ascii.eqb c0 "." then read_digits t' ip 0 else (ip, 0, t1)
      end = (fp, fl, t2) /\ 0 <= fp).
    { destruct t1 as [|c0 t']; [ now exists ip, 0, "" | ].
      destruct (Ascii.eqb c0 ".").
      - pose proof (read_digits_nonneg t' ip 0 Hip) as Hfp.
        destruct (read_digits t' ip 0) as [[fp fl] t2]. now exists fp, fl, t2.
      - now exists ip, 0, (String c0 t'). }
    destruct Hfp as (fp & fl & t2 & E & Hfp). rewrite E in H.
    destruct t2; [ | discriminate ].
    destruct (il + fl =? 0); [ discriminate | ].
    injection H as <-.
    destruct (float_of_decimal_sign fp (- fl) Hfp). auto.
Qed.

Lemma fabs_nonneg (f : float) : sign_bit f = false -> fabs f = f.
Proof. destruct f as [[]|[]| |[] m e]; cbn; congruence. Qed.

(** One coordinate: the value is the number after the marker with the
    spaces and newlines removed, and it is negated exactly when the
    marker is the letter [neg], in either case. *)
Lemma parse_coord_sign (cls : string) (neg : ascii)
    (text : string) (m : Re.Match) (v : float) :
  let number := Re.seq [Re.Plus is_digit; Re.Opt (Re.Chr dot);
                        Re.Star is_space; Re.Plus is_digit] in
  let r := Re.seq [Re.Chr (Re.one_of cls); Re.Star is_space;
                   Re.Group number] in
  (forall c, Re.alphabet number c = true \/ is_space c = true ->
             Ascii.eqb neg (upper_char c) = false) ->
  Re.search r text = Some m ->
  parse_coord r neg text = Ok (Some v) ->
  exists marker rest num,
    Re.group0 m = String marker rest /\
    Re.one_of cls marker = true /\
    Re.group1 m = Some num /\
    float_of_str (clean_number num) = Ok (fabs v) /\
    (sign_bit v = true <-> upper_char marker = neg).
Proof.
  intros number r Hneg Hsearch Hparse.
  destruct (marked_number_match _ _ _ _ Hsearch)
    as (marker & ws & num & Hmarker & Hws & Hnum & Hg0 & Hg1).
  exists marker, (ws ++ num), num.
  unfold parse_coord in Hparse. rewrite Hsearch in Hparse.
  unfold group1_str in Hparse. rewrite Hg1 in Hparse. cbn [bind] in Hparse.
  destruct (float_of_str (clean_number num)) as [f|e] eqn:Ef;
    [ | discriminate ].
  cbn [bind] in Hparse. injection Hparse as <-.
  assert (Hminus : contains "-" (clean_number num) = false).
  { unfold clean_number. do 2 apply contains_remove.
    eapply contains_none; [ | exact Hnum ].
    intros c Hc. now destruct (number_chars c Hc). }
  destruct (float_of_str_sign _ _ Ef Hminus) as [Hsign Hnan].
  assert (Hrest : contains neg (upper (ws ++ num)) = false).
  { apply (contains_upper_none neg
             (fun c => Re.alphabet number c || is_space c)).
    - intros c Hc. apply Hneg. apply orb_prop in Hc. tauto.
    - rewrite all_chars_app. apply andb_true_intro. split.
      + eapply all_chars_weaken; [ | exact Hws ].
        intros c Hc. rewrite Hc. apply orb_true_r.
      + eapply all_chars_weaken; [ | exact Hnum ].
        intros c Hc. now rewrite Hc. }
  rewrite Hg0. cbn [upper contains]. rewrite Hrest, orb_false_r.
  split; [ reflexivity | ]. split; [ exact Hmarker | ].
  split; [ exact Hg1 | ].
  destruct (Ascii.eqb neg (upper_char marker)) eqn:E.
  - apply Ascii.eqb_eq in E. split.
    + f_equal. destruct f as [[]|[]| |[] mf ef]; cbn in *; congruence.
    + split; [ now intros _ | intros _ ].
      destruct f as [[]|[]| |[] mf ef]; cbn in *; congruence.
  - split; [ now rewrite fabs_nonneg | ].
    rewrite Hsign. split; [ discriminate | ].
    intros Hm. symmetry in Hm. apply Ascii.eqb_eq in Hm. congruence.
Qed.

Lemma clean_number_no_space (g : string) :
  contains " " (clean_number g) = false /\
  contains LF (clean_number g) = false.
Proof.
  unfold clean_number. split.
  - apply contains_remove, remove_gone.
  - apply remove_gone.
Qed.

(** C5 (counterexample).  With a TAB inside the number the pattern
    matches, the TAB is still there after the cleaning, and [float]
    rejects the text: no latitude 43.792879 is parsed. *)
Lemma tab_inside_number_is_not_stripped :
  Re.search lat_re Sample.tabbed_text =
    Some {| Re.group0 := "N" ++ Sample.tabbed_number;
            Re.group1 := Some Sample.tabbed_number |} /\
  clean_number Sample.tabbed_number = Sample.tabbed_number /\
  contains Sample.TAB (clean_number Sample.tabbed_number) = true /\
  is_space Sample.TAB = true /\
  parse_coord lat_re "S" Sample.tabbed_text = Raise ValueError /\
  parse_overlay Sample.tabbed_text = Raise ValueError.
Proof. vm_compute. repeat split. Qed.

(** C5 (amended).  The text "40 KM/H N43.792879 W79.314193" parses to
    lat = 43.792879, lon = -79.314193, heading = 40.0, and "S43.7 W79.3"
    to lat = -43.7.  In general the magnitude of a coordinate is the
    number after the marker with every space and newline removed, the
    latitude is negative exactly when its marker is S and the
    longitude exactly when its marker is W, in either case of the
    letter. *)
Theorem overlay_text_parses_with_signed_coordinates :
  parse_overlay "40 KM/H N43.792879 W79.314193" =
    Ok (Some {| latitude := lit "43.792879";
                longitude := fneg (lit "79.314193");
                heading := lit "40.0" |}) /\
  (exists geo, parse_overlay "S43.7 W79.3" = Ok (Some geo) /\
               latitude geo = fneg (lit "43.7")) /\
  (forall text m lat,
     Re.search lat_re text = Some m ->
     parse_coord lat_re "S" text = Ok (Some lat) ->
     exists marker rest num,
       Re.group0 m = String marker rest /\
       Re.one_of "NS" marker = true /\
       Re.group1 m = Some num /\
       float_of_str (clean_number num) = Ok (fabs lat) /\
       (sign_bit lat = true <-> upper_char marker = "S"%char)) /\
  (forall text m lon,
     Re.search lon_re text = Some m ->
     parse_coord lon_re "W" text = Ok (Some lon) ->
     exists marker rest num,
       Re.group0 m = String marker rest /\
       Re.one_of "EW" marker = true /\
       Re.group1 m = Some num /\
       float_of_str (clean_number num) = Ok (fabs lon) /\
       (sign_bit lon = true <-> upper_char marker = "W"%char)) /\
  (forall num, contains " " (clean_number num) = false /\
               contains LF (clean_number num) = false) /\
  (forall text geo,
     parse_overlay text = Ok (Some geo) ->
     parse_coord lat_re "S" text = Ok (Some (latitude geo)) /\
     parse_coord lon_re "W" text = Ok (Some (longitude geo))).
Proof.
  split; [ vm_compute; reflexivity | ].
  split; [ eexists; split; vm_compute; reflexivity | ].
  split.
  { intros text m lat. apply (parse_coord_sign "NS" "S").
    intros c [Hc|Hc];
      [ now destruct (number_chars c Hc) | now destruct (space_chars c Hc) ]. }
  split.
  { intros text m lon. apply (parse_coord_sign "EW" "W").
    intros c [Hc|Hc];
      [ now destruct (number_chars c Hc) | now destruct (space_chars c Hc) ]. }
  split; [ apply clean_number_no_space | ].
  intros text geo. unfold parse_overlay.
  destruct (parse_coord lat_re "S" text) as [[la|]|e]; cbn [bind];
    try discriminate;
    destruct (parse_coord lon_re "W" text) as [[lo|]|e]; cbn [bind];
    try discriminate;
    destruct (parse_speed text) as [[hd|]|e]; cbn [bind];
    try discriminate; intros [= <-]; split; reflexivity.
Qed.

(* ------------------------------------------------------------------ *)
(** ** GeoFix decoder: the heading *)

Lemma speed_match (text : string) (m : Re.Match) :
  Re.search speed_re text = Some m ->
  exists digits,
    Re.group1 m = Some digits /\ all_chars is_digit digits = true.
Proof.
  intros H. apply search_sound in H.
  destruct H as (skipped & rest & _ & H).
  unfold Re.match_at, speed_re in H.
  cbn [Re.seq Re.word Re.run] in H.
  destruct rest as [|c s1]; [ discriminate | ].
  destruct (is_digit c) eqn:Hc; [ | discriminate ].
  apply star_sound in H. destruct H as (ds & s2 & -> & Hds & H).
  apply star_sound in H. destruct H as (ws & s3 & -> & Hws & H).
  repeat match type of H with
  | match ?s with "" => None | String _ _ => _ end = Some _ =>
      destruct s; [ discriminate | ]
  | (if ?b then _ else None) = Some _ =>
      destruct b; [ | discriminate ]
  end.
  injection H as <-. cbn [Re.group1].
  exists (String c ds). split.
  - f_equal. change (String c (ds ++ ws ++ ?t)) with (String c ds ++ ws ++ t).
    apply consumed_app.
  - cbn. now rewrite Hc, Hds.
Qed.

Lemma parse_overlay_heading (text : string) (geo : GeoFix) :
  parse_overlay text = Ok (Some geo) ->
  (Re.search speed_re text = None -> heading geo = zero) /\
  (forall m, Re.search speed_re text = Some m ->
     exists digits,
       Re.group1 m = Some digits /\ all_chars is_digit digits = true /\
       float_of_str digits = Ok (heading geo)) /\
  sign_bit (heading geo) = false /\ is_nan (heading geo) = false.
Proof.
  unfold parse_overlay.
  destruct (parse_coord lat_re "S" text) as [[la|]|e]; cbn [bind];
    try discriminate;
    destruct (parse_coord lon_re "W" text) as [[lo|]|e]; cbn [bind];
    try discriminate.
  - unfold parse_speed.
    destruct (Re.search speed_re text) as [m|] eqn:Hs.
    + destruct (speed_match text m Hs) as (digits & Hg & Hd).
      unfold group1_str. rewrite Hg. cbn [bind].
      destruct (float_of_str digits) as [v|e] eqn:Ev; cbn [bind];
        [ | discriminate ].
      intros [= <-]. cbn [heading].
      assert (Hminus : contains "-" digits = false).
      { eapply contains_none; [ | exact Hd ]. apply digit_chars. }
      destruct (float_of_str_sign digits v Ev Hminus) as [Hsign Hnan].
      split; [ discriminate | ]. split; [ | now split ].
      intros m' [= <-]. exists digits. auto.
    + cbn [bind]. intros [= <-]. cbn [heading].
      split; [ reflexivity | ]. split; [ discriminate | now split ].
  - destruct (parse_speed text) as [hd|e]; cbn [bind]; discriminate.
  - destruct (parse_speed text) as [hd|e]; cbn [bind]; discriminate.
  - destruct (parse_speed text) as [hd|e]; cbn [bind]; discriminate.
Qed.

Lemma ocr_decode_parses {V : Vision} (frame : image) (geo : GeoFix) :
  ocr_decode frame = Ok (Some geo) ->
  exists text, parse_overlay text = Ok (Some geo).
Proof.
  unfold ocr_decode.
  destruct import_pytesseract; cbn [bind]; [ | discriminate ].
  destruct (overlay_region frame) as [overlay|]; cbn [bind];
    [ | discriminate ].
  destruct (cvtColor_BGR2GRAY overlay) as [gray|]; cbn [bind];
    [ | discriminate ].
  destruct (threshold gray 127 255 THRESH_BINARY) as [binary|]; cbn [bind];
    [ | discriminate ].
  destruct (image_to_string binary "--psm 6") as [text|]; cbn [bind];
    [ | discriminate ].
  eauto.
Qed.

(** The angle of the fallback before the reduction is a finite float
    that is zero or positive. *)
Lemma fallback_angle_within (n : Z) :
  0 <= n < 2 ^ 53 ->
  within false 53
    (fadd (lit "45.0") (fmul (fdiv (Z2F n) (Z2F 100)) (lit "2.5"))).
Proof.
  intros Hn.
  pose proof (Z2F_within n Hn) as H0.
  change (Z2F 100) with (S754_finite false 7036874417766400 (-46)).
  pose proof (fdiv_within 1 (Z2F n) 7036874417766400 (-46) H0
                ltac:(lia) ltac:(lia)) as H1.
  assert (H25 : within false (-51) (lit "2.5")).
  { right. exists 5629499534213120%positive, (-51).
    split; [ vm_compute; reflexivity | ]. split; [ vm_compute | lia ].
    discriminate. }
  pose proof (fmul_within _ _ _ _ H1 H25 ltac:(lia) ltac:(lia)) as H2.
  assert (H45 : within false (-47) (lit "45.0")).
  { right. exists 6333186975989760%positive, (-47).
    split; [ vm_compute; reflexivity | ]. split; [ vm_compute | lia ].
    discriminate. }
  pose proof (fadd_within _ _ _ _ H45 H2 ltac:(lia) ltac:(lia)) as H3.
  exact H3.
Qed.

(** The heading of the fallback lies in [0, 360). *)
Lemma fallback_heading_range (n : Z) :
  0 <= n < 2 ^ 53 ->
  let h := heading (closed_form n) in
  is_finite h = true /\ sign_bit h = false /\
  (0 <= F2Q h)%Q /\ (F2Q h < 360)%Q.
Proof.
  intros Hn h. subst h. cbn [closed_form heading].
  change (Z2F 360) with (S754_finite false 6333186975989760 (-44)).
  pose proof (mod_value_range 53 _ 6333186975989760 (-44)
                (fallback_angle_within n Hn)) as H.
  cbv zeta in H. destruct H as (Hfin & Hsign & Hlo & Hhi).
  repeat split; try assumption.
  eapply Qlt_le_trans; [ exact Hhi | ]. vm_compute. discriminate.
Qed.

(** C7 (counterexample).  A frame whose overlay reads
    "400 KM/H N43.7 W79.3" is decoded, and the heading returned is the
    speed reading 400.0, which is not below 360. *)
Lemma decoded_heading_may_reach_400 :
  exists geo : GeoFix,
    @extract_gps_from_frame (Sample.vision true)
      (Sample.frame_reading Sample.fast_text "") 0 = Ok geo /\
    heading geo = Z2F 400 /\
    (F2Q (heading geo) == 400)%Q /\
    ~ (F2Q (heading geo) < 360)%Q.
Proof.
  eexists. split; [ vm_compute; reflexivity | ].
  split; [ vm_compute; reflexivity | ].
  split; vm_compute; [ reflexivity | discriminate ].
Qed.

(** C7 (amended).  Every fix the decoder returns carries a latitude, a
    longitude and a heading that is a float.  In the fallback path
    (frame index from 0, below [2^53]) the fix is the deterministic
    formula value and its heading, taken mod 360, is a finite float in
    [0,360).  In the decoded path the fix is the one parsed from the
    recognized text: its heading is 0.0 when no speed reading is found
    and otherwise the value of the digits read before KM/H, a float
    that is not negative and not a NaN, with no upper bound. *)
Theorem heading_is_speed_reading_or_fallback_angle
    (V : Vision) (frame : image) (frameIndex : Z) :
  (decoding_fails frame -> 0 <= frameIndex < 2 ^ 53 ->
   extract_gps_from_frame frame frameIndex = Ok (closed_form frameIndex) /\
   is_finite (heading (closed_form frameIndex)) = true /\
   sign_bit (heading (closed_form frameIndex)) = false /\
   (0 <= F2Q (heading (closed_form frameIndex)))%Q /\
   (F2Q (heading (closed_form frameIndex)) < 360)%Q) /\
  (forall geo,
     ocr_decode frame = Ok (Some geo) ->
     extract_gps_from_frame frame frameIndex = Ok geo /\
     exists text,
       parse_overlay text = Ok (Some geo) /\
       (Re.search speed_re text = None -> heading geo = zero) /\
       (forall m, Re.search speed_re text = Some m ->
          exists digits,
            Re.group1 m = Some digits /\
            all_chars is_digit digits = true /\
            float_of_str digits = Ok (heading geo)) /\
       sign_bit (heading geo) = false /\
       is_nan (heading geo) = false).
Proof.
  split.
  - intros Hfail Hn. split.
    + rewrite extract_gps_fallback by assumption.
      apply fallback_fix_closed_form. lia.
    + exact (fallback_heading_range frameIndex Hn).
  - intros geo Hdec. split.
    + unfold extract_gps_from_frame. now rewrite Hdec.
    + destruct (ocr_decode_parses frame geo Hdec) as (text & Htext).
      exists text. split; [ exact Htext | ].
      exact (parse_overlay_heading text geo Htext).
Qed.

Lemma heading_is_speed_reading_or_fallback_angle_witness :
  (@extract_gps_from_frame (Sample.vision false)
     (Sample.frame_reading Sample.overlay_text "") 7
   = Ok (closed_form 7) /\
   (F2Q (heading (closed_form 7)) < 360)%Q) /\
  (exists text,
     parse_overlay text =
       Ok (Some {| latitude := lit "43.792879";
                   longitude := fneg (lit "79.314193");
                   heading := lit "40.0" |})).
Proof.
  split.
  - destruct (proj1 (heading_is_speed_reading_or_fallback_angle
                       (Sample.vision false)
                       (Sample.frame_reading Sample.overlay_text "") 7)
                I ltac:(lia)) as (H1 & _ & _ & _ & H2).
    split; [ exact H1 | exact H2 ].
  - destruct (proj2 (heading_is_speed_reading_or_fallback_angle
                       (Sample.vision true)
                       (Sample.frame_reading Sample.overlay_text "") 7)
                _ eq_refl) as (_ & text & H & _).
    exists text. exact H.
Defined.

(* ================================================================== *)
(** * Further properties of the code *)

Import Rows.

(* ------------------------------------------------------------------ *)
(** ** The rows of a run *)

Section RowsOfRun.
Context {V : Vision}.
Variable env : Env.
Variable self : Self.
Variable dir : string.
Variable video_fps interval : Z.

Lemma adds_rows_skip (c : M unit) (fc fc' : Z) :
  (forall s, frame_count s = fc ->
     data_rows (csv (out (fst (c s)))) = data_rows (csv (out s)) /\
     (snd (c s) = Ok tt -> frame_count (fst (c s)) = fc')) ->
  adds_rows video_fps c fc fc' [].
Proof.
  intros H s Hs. destruct (H s Hs) as [Hr Hf].
  exists [], [], []. rewrite app_nil_r.
  repeat split; auto.
Qed.

Lemma adds_rows_seq (c k : M unit) (fc fc1 fc2 : Z)
    (e1 e2 : list (Z * image * Box)) :
  adds_rows video_fps c fc fc1 e1 ->
  adds_rows video_fps k fc1 fc2 e2 ->
  adds_rows video_fps (mbind c (fun _ => k)) fc fc2 (e1 ++ e2)%list.
Proof.
  intros Hc Hk s Hs. unfold mbind.
  destruct (Hc s Hs) as (new1 & done1 & rest1 & Hr1 & -> & Hf1 & Hok1).
  destruct (c s) as [s1 [[]|e]]; cbn [fst snd] in *.
  - destruct (Hok1 eq_refl) as [-> Hfc1].
    destruct (Hk s1 Hfc1) as (new2 & done2 & rest2 & Hr2 & -> & Hf2 & Hok2).
    exists (new1 ++ new2)%list, (done1 ++ done2)%list, rest2.
    rewrite Hr2, Hr1, !app_nil_r, <- !app_assoc.
    split; [ reflexivity | ]. split; [ reflexivity | ].
    split; [ now apply Forall2_app | exact Hok2 ].
  - exists new1, done1, (rest1 ++ e2)%list.
    rewrite <- app_assoc. repeat split; auto; discriminate.
Qed.

Lemma adds_rows_for_each {A} (body : A -> M unit) (fc : Z)
    (f : A -> list (Z * image * Box)) (l : list A) :
  (forall a, adds_rows video_fps (body a) fc fc (f a)) ->
  adds_rows video_fps (for_each l body) fc fc (flat_map f l).
Proof.
  intros Hb. induction l as [|a l IH]; cbn [for_each flat_map].
  - apply adds_rows_skip. intros s Hs. cbn. auto.
  - eapply adds_rows_seq; [ apply Hb | exact IH ].
Qed.

(** One box: a box of a target class gets its row, any other box
    nothing. *)
Lemma emit_adds_row (frame : image) (gps : GeoFix) (box : Box) (fc : Z) :
  extract_gps_from_frame frame fc = Ok gps ->
  adds_rows video_fps (emit env self dir video_fps frame gps box) fc fc
    (if is_target self box then [(fc, frame, box)] else []).
Proof.
  intros Hgps s Hs. unfold emit. fold (is_target self box).
  destruct (is_target self box); cbn [negb].
  2:{ exists [], [], []. cbn. rewrite app_nil_r. repeat split; auto. }
  assert (Hstop : forall s' (r : result unit),
            data_rows (csv (out s')) = data_rows (csv (out s)) ->
            r <> Ok tt ->
            exists new done rest,
              data_rows (csv (out s')) = (data_rows (csv (out s)) ++ new)%list /\
              [(fc, frame, box)] = (done ++ rest)%list /\
              Forall2 (row_of video_fps) new done /\
              (r = Ok tt -> rest = [] /\ frame_count s' = fc)).
  { intros s' r Hr Hne. exists [], [], [(fc, frame, box)].
    rewrite app_nil_r. repeat split; auto; contradiction. }
  unfold mbind, lift, gets, modify.
  destruct (int_truediv (x1 box + x2 box) 2) as [u0|e] eqn:Hu;
    [ | fields; apply Hstop; [ reflexivity | discriminate ] ].
  destruct (extract_roi_patch _ _ _) as [patch|e];
    [ | fields; apply Hstop; [ reflexivity | discriminate ] ].
  unfold imwrite, modify.
  destruct (int_truediv (frame_count s) video_fps) as [ts|e] eqn:Hts;
    [ | fields; apply Hstop; [ reflexivity | discriminate ] ].
  unfold writerow. cbn [out set_out csv].
  destruct (writerow_ok env _);
    [ | fields; apply Hstop; [ reflexivity | discriminate ] ].
  fields. eexists [_], [(fc, frame, box)], [].
  rewrite data_rows_app. cbn [data_rows].
  repeat split; auto.
  constructor; [ | constructor ].
  cbn. rewrite <- Hs. repeat split; auto.
  rewrite Hs, Hgps. now destruct gps.
Qed.

Lemma concat_filter_flat_map (p : Box -> bool) (g : Box -> Z * image * Box)
    (results : list (list Box)) :
  flat_map (fun boxes => flat_map (fun box => if p box then [g box] else [])
                           boxes) results
  = map g (filter p (List.concat results)).
Proof.
  induction results as [|boxes results IH]; cbn [flat_map List.concat].
  - reflexivity.
  - rewrite filter_app, map_app, IH. f_equal.
    induction boxes as [|b boxes IHb]; cbn; [ reflexivity | ].
    destruct (p b); cbn; now rewrite IHb.
Qed.

(** One turn of the loop over the frames. *)
Lemma step_adds_rows (frame : image) (fc : Z) :
  adds_rows video_fps (step env self dir video_fps interval frame)
    fc (fc + 1) (frame_detections env self interval fc frame).
Proof.
  intros s Hs. subst fc. unfold frame_detections.
  unfold step, mbind, gets, modify, lift. cbv beta iota.
  destruct (frame_count s mod interval =? 0); cbn [negb].
  2:{ fields. exists [], [], []. rewrite app_nil_r.
      repeat split; auto. }
  destruct (extract_gps_from_frame frame (frame_count s)) as [gps|e] eqn:Hgps.
  2:{ fields. exists [], []. eexists. rewrite app_nil_r.
      split; [ reflexivity | ]. split; [ cbn [app]; reflexivity | ].
      split; [ apply Forall2_nil | discriminate ]. }
  destruct (model env frame _ _) as [results|e].
  2:{ fields. exists [], [], []. rewrite app_nil_r.
      repeat split; auto; discriminate. }
  rewrite <- (concat_filter_flat_map (is_target self)
                (fun box => (frame_count s, frame, box)) results).
  match goal with
  | |- context [for_each results ?b ?s0] =>
      pose proof (adds_rows_for_each b (frame_count s)
                    (fun boxes =>
                       flat_map (fun box =>
                         if is_target self box
                         then [(frame_count s, frame, box)] else []) boxes)
                    results
                    (fun boxes =>
                       adds_rows_for_each _ (frame_count s) _ boxes
                         (fun box =>
                            emit_adds_row frame gps box (frame_count s) Hgps))
                    s0 eq_refl) as Hloop;
      destruct (for_each results b s0) as [s1 [[]|e]]
  end; cbn [fst snd] in *;
    destruct Hloop as (new & done & rest & Hr & He & Hf & Hok).
  - destruct (Hok eq_refl) as [-> Hfc]. fields.
    exists new, done, []. repeat split; auto. lia.
  - exists new, done, rest. repeat split; auto; discriminate.
Qed.

Lemma frames_add_rows (fs : list image) : forall fc,
  adds_rows video_fps (for_each fs (step env self dir video_fps interval))
    fc (fc + Z.of_nat (List.length fs))
    (detections env self interval fc fs).
Proof.
  induction fs as [|f fs IH]; intros fc;
    cbn [for_each detections indexed flat_map List.length fst snd].
  - apply adds_rows_skip. intros s Hs. cbn. split; [ reflexivity | lia ].
  - replace (fc + Z.of_nat (S (List.length fs)))
      with (fc + 1 + Z.of_nat (List.length fs)) by lia.
    eapply adds_rows_seq; [ apply step_adds_rows | apply IH ].
Qed.

End RowsOfRun.

Section RowsOfVideo.
Context {V : Vision}.
Variable env : Env.
Variable self : Self.
Variable output_csv dir : string.
Variable sample_fps : Z.

(** The rows of a run: none when the run stops before its loop, and
    otherwise the rows of the first detections of the video. *)
Lemma run_video_rows (video : Video) (ts : list float) :
  let X := run_video env self video output_csv dir sample_fps (start ts) in
  (exists e f, X = (with_file f (start ts), Raise e)) \/
  (exists video_fps done rest,
     int_of_float (CAP_PROP_FPS video) = Ok video_fps /\
     detections env self (frame_interval_of video_fps sample_fps) 0
       (frames video) = (done ++ rest)%list /\
     Forall2 (row_of video_fps) (data_rows (csv (out (fst X)))) done /\
     (forall stats, snd X = Ok stats -> rest = [])).
Proof.
  cbv zeta.
  destruct (run_video_cases env self output_csv dir sample_fps video ts)
    as [He|(video_fps & Hfps & Hw & Hrun)].
  - left. exact He.
  - right. cbv zeta in Hrun.
    destruct (finish_cases env output_csv dir _ _ _
                (eq_trans (eq_sym Hrun) (surjective_pairing _)))
      as (f & Hs & Hstats & _).
    rewrite Hs.
    destruct (frames_add_rows env self dir video_fps
                (frame_interval_of video_fps sample_fps) (frames video) 0
                (after_header env ts) eq_refl)
      as (new & done & rest & Hr & He & Hf & Hok).
    exists video_fps, done, rest. split; [ exact Hfps | ].
    split; [ exact He | ]. split.
    + change (csv (out (with_file f ?s))) with (csv (out s)).
      rewrite Hr. cbn. exact Hf.
    + intros stats Hst. destruct (Hstats stats Hst) as [HX _].
      now destruct (Hok HX).
Qed.

End RowsOfVideo.

Lemma indexed_bounds {V : Vision} (fs : list image) : forall c i frame,
  In (i, frame) (indexed c fs) ->
  c <= i < c + Z.of_nat (List.length fs) /\
  nth_error fs (Z.to_nat (i - c)) = Some frame.
Proof.
  induction fs as [|f fs IH]; intros c i frame; cbn [indexed In List.length].
  - intros [].
  - intros [[= <- <-]|H].
    + split; [ lia | ]. now rewrite Z.sub_diag.
    + destruct (IH _ _ _ H) as [Hb Hn]. split; [ lia | ].
      replace (Z.to_nat (i - c)) with (S (Z.to_nat (i - (c + 1)))) by lia.
      exact Hn.
Qed.

Lemma Forall2_In_l {A B} (R : A -> B -> Prop) (l : list A) (l' : list B)
    (a : A) :
  Forall2 R l l' -> In a l -> exists b, In b l' /\ R a b.
Proof.
  induction 1 as [|x y l l' Hxy H IH]; cbn; [ intros [] | ].
  intros [<-|Ha]; [ eauto | ].
  destruct (IH Ha) as (b & Hb & Hab). eauto.
Qed.

(** The frame indices of the detections never decrease. *)
Lemma detections_sorted {V : Vision} (env : Env) (self : Self)
    (interval : Z) (fs : list image) : forall c,
  Sorted Z.le (map (fun d => fst (fst d)) (detections env self interval c fs)) /\
  Forall (fun d => c <= fst (fst d)) (detections env self interval c fs).
Proof.
  induction fs as [|f fs IH]; intros c;
    cbn [detections indexed flat_map fst snd map].
  - split; constructor.
  - destruct (IH (c + 1)) as [Hs Hall].
    fold (detections env self interval (c + 1) fs).
    assert (Hhere : Forall (fun d => fst (fst d) = c)
                      (frame_detections env self interval c f)).
    { unfold frame_detections.
      destruct (c mod interval =? 0); [ | constructor ].
      destruct (model env f _ _); [ | constructor ].
      apply Forall_forall. intros d Hd. apply in_map_iff in Hd.
      now destruct Hd as (box & <- & _). }
    split.
    + rewrite map_app.
      induction Hhere as [|d l Hd Hl IHl]; cbn [map app]; [ exact Hs | ].
      constructor; [ exact IHl | ].
      destruct l as [|d' l]; cbn [map app].
      * destruct (detections env self interval (c + 1) fs) as [|d2 ds];
          constructor.
        inversion Hall; subst. cbn in *. lia.
      * constructor. inversion Hl; subst. lia.
    + apply Forall_app. split.
      * eapply Forall_impl; [ | exact Hhere ]. cbn. intros; lia.
      * eapply Forall_impl; [ | exact Hall ]. cbn. intros; lia.
Qed.

Lemma Sorted_app_l {A} (R : A -> A -> Prop) (l1 l2 : list A) :
  Sorted R (l1 ++ l2) -> Sorted R l1.
Proof.
  induction l1 as [|a l1 IH]; cbn; [ constructor | ].
  intros H. inversion H as [|? ? Hs Hh]; subst.
  constructor; [ now apply IH | ].
  destruct l1; [ constructor | ]. inversion Hh; subst. now constructor.
Qed.

Lemma Forall2_map_eq {A B C} (R : A -> B -> Prop) (f : A -> C) (g : B -> C)
    (l : list A) (l' : list B) :
  (forall a b, R a b -> f a = g b) ->
  Forall2 R l l' -> map f l = map g l'.
Proof.
  intros Hfg. induction 1 as [|x y l l' Hxy H IH]; cbn; [ reflexivity | ].
  now rewrite (Hfg _ _ Hxy), IH.
Qed.

(** X1.  The data rows of the CSV file of a run are the rows of the
    boxes of the target classes that the detector returned on the
    sampled frames, frame after frame and, within a frame, in the
    order of the detector: each row carries the index of its frame,
    the time stamp [index / video_fps], the bottom centre
    [((x1 + x2) / 2, y2)] of its box, the confidence and the class of
    the box and the fix the decoder returned on the frame.  A run that
    completes has a row for each of these boxes, a run that stops has
    rows for the first of them. *)
Theorem csv_rows_are_the_target_detections
    (V : Vision) (env : Env) (self : Self) (video : Video)
    (output_csv dir : string) (sample_fps : Z) :
  let '(_, o, r) :=
    process_video env self video output_csv dir sample_fps in
  let rows := data_rows (csv o) in
  let expected video_fps :=
    detections env self (frame_interval_of video_fps sample_fps) 0
      (frames video) in
  (rows = [] \/
   exists video_fps done rest,
     int_of_float (CAP_PROP_FPS video) = Ok video_fps /\
     expected video_fps = (done ++ rest)%list /\
     Forall2 (row_of video_fps) rows done) /\
  (forall stats, r = Ok stats ->
     exists video_fps,
       int_of_float (CAP_PROP_FPS video) = Ok video_fps /\
       Forall2 (row_of video_fps) rows (expected video_fps)).
Proof.
  unfold process_video.
  pose proof (run_video_rows env self output_csv dir sample_fps video
                (inference_times self)) as H.
  cbv zeta in H.
  destruct (run_video env self video output_csv dir sample_fps
              (start (inference_times self))) as [s r].
  cbn [fst snd] in H. cbv zeta.
  destruct H as [(e & f0 & [= -> ->])|(video_fps & done & rest & Hfps & He & Hf & Hok)].
  - split; [ left; reflexivity | discriminate ].
  - split; [ right; exists video_fps, done, rest; auto | ].
    intros stats Hs. exists video_fps. split; [ exact Hfps | ].
    rewrite He, (Hok stats Hs), app_nil_r. exact Hf.
Qed.

(** X2.  In the CSV file of every run the rows come in the order of
    the frames: the frame numbers never decrease from one row to the
    next, and each is the index of a frame of the video that the
    sampler took. *)
Theorem csv_rows_follow_the_frames
    (V : Vision) (env : Env) (self : Self) (video : Video)
    (output_csv dir : string) (sample_fps : Z) :
  let '(_, o, _) :=
    process_video env self video output_csv dir sample_fps in
  let rows := data_rows (csv o) in
  Sorted Z.le (map frame_number rows) /\
  (forall row, In row rows ->
     exists video_fps frame,
       int_of_float (CAP_PROP_FPS video) = Ok video_fps /\
       nth_error (frames video) (Z.to_nat (frame_number row)) = Some frame /\
       0 <= frame_number row < Z.of_nat (List.length (frames video)) /\
       frame_number row mod frame_interval_of video_fps sample_fps = 0).
Proof.
  unfold process_video.
  pose proof (run_video_rows env self output_csv dir sample_fps video
                (inference_times self)) as H.
  cbv zeta in H.
  destruct (run_video env self video output_csv dir sample_fps
              (start (inference_times self))) as [s r].
  cbn [fst snd] in H. cbv zeta.
  destruct H as [(e & f0 & [= -> ->])|(video_fps & done & rest & Hfps & He & Hf & _)].
  - cbn. split; [ constructor | intros row [] ].
  - set (interval := frame_interval_of video_fps sample_fps) in *.
    assert (Hmap : map frame_number (data_rows (csv (out s)))
                   = map (fun d => fst (fst d)) done).
    { eapply Forall2_map_eq; [ | exact Hf ].
      intros row [[i frame] box] Hrow. cbn. apply Hrow. }
    split.
    + rewrite Hmap.
      destruct (detections_sorted env self interval (frames video) 0)
        as [Hs _].
      rewrite He, map_app in Hs. now apply Sorted_app_l in Hs.
    + intros row Hrow.
      destruct (Forall2_In_l _ _ _ _ Hf Hrow) as ([[i frame] box] & Hd & Hr).
      destruct Hr as (Hi & _).
      assert (Hin : In (i, frame, box)
                      (detections env self interval 0 (frames video)))
        by (rewrite He; apply in_or_app; now left).
      unfold detections in Hin. apply in_flat_map in Hin.
      destruct Hin as ([j f] & Hjf & Hin). cbn [fst snd] in Hin.
      unfold frame_detections in Hin.
      destruct (j mod interval =? 0) eqn:Hmod; [ | destruct Hin ].
      destruct (model env f _ _); [ | destruct Hin ].
      apply in_map_iff in Hin. destruct Hin as (b & [= <- <- <-] & _).
      destruct (indexed_bounds _ _ _ _ Hjf) as [Hb Hn].
      rewrite Z.sub_0_r in Hn. apply Z.eqb_eq in Hmod.
      exists video_fps, f. rewrite Hi. repeat split; auto; lia.
Qed.

(* ------------------------------------------------------------------ *)
(** ** The patch files of a run *)

Import Files.

Section PatchFiles.
Context {V : Vision}.
Variable env : Env.
Variable self : Self.
Variable dir : string.
Variable video_fps interval : Z.

Lemma keeps_refl (P : Run -> Prop) (s : Run) : keeps P s s.
Proof. intros H. exact H. Qed.

Lemma keeps_trans (P : Run -> Prop) (a b c : Run) :
  keeps P a b -> keeps P b c -> keeps P a c.
Proof. unfold keeps. auto. Qed.

Lemma keeps_same_out (P : Output -> Prop) (f : Run -> Run) :
  (forall s, out (f s) = out s) ->
  respects (keeps (fun s => P (out s))) (modify f).
Proof. intros H s. unfold keeps, modify. cbn. now rewrite H. Qed.

Lemma emit_patches (frame : image) (gps : GeoFix) (box : Box) :
  respects (keeps (fun s => patches_written env (out s)))
    (emit env self dir video_fps frame gps box).
Proof.
  intros s [Hp Hs]. unfold emit.
  destruct (negb _); [ fields; split; assumption | ].
  unfold mbind, lift, gets, modify.
  destruct (int_truediv (x1 box + x2 box) 2) as [u0|e];
    [ | fields; split; assumption ].
  destruct (extract_roi_patch frame _ 256) as [patch|e] eqn:Hpatch;
    [ | fields; split; assumption ].
  assert (Hshape : shape patch = (256, 256)).
  { unfold extract_roi_patch in Hpatch.
    destruct (shape frame) as [h w].
    destruct (crop_window h w _) as [[[cx1 cy1] cx2] cy2].
    exact (resize_shape _ _ _ _ Hpatch). }
  unfold imwrite, modify.
  set (path := path_join dir
                 (patch_filename (frame_count s) (detection_count s))).
  assert (Hnow : patches_written env
            {| patches := if imwrite_ok env path
                          then (patches (out s) ++ [(path, patch)])%list
                          else patches (out s);
               csv := csv (out s);
               imwrite_calls := (imwrite_calls (out s) ++ [path])%list;
               file := file (out s) |}).
  { split; cbn [patches imwrite_calls].
    - rewrite filter_app. cbn [filter].
      destruct (imwrite_ok env path).
      + now rewrite map_app, Hp.
      + now rewrite app_nil_r.
    - destruct (imwrite_ok env path); [ | exact Hs ].
      apply Forall_app. split; [ exact Hs | ].
      constructor; [ exact Hshape | constructor ]. }
  destruct (int_truediv (frame_count s) video_fps) as [ts|e];
    [ | fields; exact Hnow ].
  unfold writerow. cbn [out set_out csv].
  destruct (writerow_ok env _); fields; exact Hnow.
Qed.

Lemma step_patches (frame : image) :
  respects (keeps (fun s => patches_written env (out s)))
    (step env self dir video_fps interval frame).
Proof.
  unfold step.
  repeat match goal with
  | |- respects _ (mbind _ _) =>
      apply (respects_bind _ (keeps_trans _)); [ | intros ? ]
  | |- respects _ (if _ then _ else _) => apply respects_if
  | |- respects _ (lift _) => apply respects_lift, keeps_refl
  | |- respects _ (gets _) => apply respects_gets, keeps_refl
  | |- respects _ (modify _) =>
      apply (keeps_same_out (patches_written env)); reflexivity
  | |- respects _ (for_each _ _) =>
      apply (respects_for_each _ (keeps_refl _) (keeps_trans _)); intros ?
  | |- respects _ (emit _ _ _ _ _ _ _) => apply emit_patches
  end.
Qed.

End PatchFiles.

Lemma run_video_patches {V : Vision} (env : Env) (self : Self)
    (video : Video) (output_csv dir : string) (sample_fps : Z)
    (ts : list float) :
  patches_written env
    (out (fst (run_video env self video output_csv dir sample_fps
                 (start ts)))).
Proof.
  destruct (run_video_cases env self output_csv dir sample_fps video ts)
    as [(e & f & ->)|(video_fps & _ & _ & Hrun)].
  - split; cbn; constructor.
  - cbv zeta in Hrun.
    destruct (finish_cases env output_csv dir _ _ _
                (eq_trans (eq_sym Hrun) (surjective_pairing _)))
      as (f & -> & _).
    match goal with
    | |- patches_written env (out (with_file f ?s)) =>
        change (patches_written env (out s))
    end.
    apply (respects_for_each _ (keeps_refl _) (keeps_trans _)
             (frames video) _
             (step_patches env self dir video_fps
                (frame_interval_of video_fps sample_fps))).
    split; cbn; constructor.
Qed.

(** X3.  Every patch file a run writes holds a picture of
    256 x 256, whatever the size of the box and of its clipped crop. *)
Theorem patch_files_are_256_square
    (V : Vision) (env : Env) (self : Self) (video : Video)
    (output_csv dir : string) (sample_fps : Z) :
  let '(_, o, _) :=
    process_video env self video output_csv dir sample_fps in
  forall path patch, In (path, patch) (patches o) ->
                     shape patch = (256, 256).
Proof.
  unfold process_video.
  pose proof (run_video_patches env self video output_csv dir sample_fps
                (inference_times self)) as [_ H].
  destruct (run_video env self video output_csv dir sample_fps
              (start (inference_times self))) as [s r].
  cbn [fst] in H. intros path patch Hin.
  rewrite Forall_forall in H. exact (H _ Hin).
Qed.

(** X4.  The value [cv2.imwrite] returns is never looked at: the patch
    files of a run are those of its [imwrite] calls that returned
    [True], while a run that completes has made one call for each row
    of its CSV file; so where no call succeeds no patch file exists,
    and every row is written all the same. *)
Theorem imwrite_result_is_ignored
    (V : Vision) (env : Env) (self : Self) (video : Video)
    (output_csv dir : string) (sample_fps : Z) :
  let '(_, o, r) :=
    process_video env self video output_csv dir sample_fps in
  map fst (patches o) = filter (imwrite_ok env) (imwrite_calls o) /\
  ((forall path, imwrite_ok env path = false) -> patches o = []) /\
  (forall stats, r = Ok stats ->
     List.length (imwrite_calls o) = List.length (data_rows (csv o)) /\
     stat_total_detections stats = Z.of_nat (List.length (imwrite_calls o))).
Proof.
  unfold process_video.
  pose proof (run_video_patches env self video output_csv dir sample_fps
                (inference_times self)) as [Hp _].
  destruct (run_video env self video output_csv dir sample_fps
              (start (inference_times self))) as [s r] eqn:Hrun.
  cbn [fst] in Hp. split; [ exact Hp | ]. split.
  - intros Hno.
    assert (Hf : forall l, filter (imwrite_ok env) l = []).
    { induction l as [|p l IH]; cbn; [ reflexivity | ].
      now rewrite Hno. }
    rewrite Hf in Hp. now destruct (patches (out s)).
  - intros stats Hs.
    destruct (run_video_in_flight env self output_csv dir sample_fps
                video _ s r Hrun) as [_ Hok].
    destruct (Hok stats Hs) as [[fs Hset] ->].
    destruct Hset as (_ & _ & G2 & G3 & G4).
    rewrite G4, length_map, filenames_from_length.
    split; [ now rewrite <- G3, length_map | ].
    cbn [make_stats stat_total_detections]. exact G2.
Qed.

(* ------------------------------------------------------------------ *)
(** ** The counters of a run *)

Lemma zseq_app (a b : nat) : forall c,
  zseq c (a + b) = (zseq c a ++ zseq (c + Z.of_nat a) b)%list.
Proof.
  induction a as [|a IH]; intros c; cbn [zseq Nat.add app].
  - now rewrite Z.add_0_r.
  - rewrite IH. do 3 f_equal. lia.
Qed.

Lemma multiples_app (interval c : Z) (a b : nat) :
  multiples interval c (a + b) =
    (multiples interval c a ++ multiples interval (c + Z.of_nat a) b)%list.
Proof. unfold multiples. now rewrite zseq_app, filter_app. Qed.

Section Counters.
Context {V : Vision}.
Variable env : Env.
Variable self : Self.
Variable dir : string.
Variable video_fps interval : Z.

Lemma step_counted (frame : image) (s : Run) :
  snd (step env self dir video_fps interval frame s) = Ok tt ->
  counted env interval (frame_count s) 1 s
    (fst (step env self dir video_fps interval frame s)).
Proof.
  unfold counted, multiples. cbn [zseq filter].
  unfold step, mbind, gets, modify, lift. cbv beta iota.
  destruct (frame_count s mod interval =? 0); cbn [negb].
  2:{ fields. intros _. cbn. rewrite app_nil_r. repeat split; lia. }
  destruct (extract_gps_from_frame frame (frame_count s)) as [gps|e];
    [ | fields; discriminate ].
  destruct (model env frame _ _) as [results|e]; [ | fields; discriminate ].
  match goal with
  | |- context [for_each results ?b ?s0] =>
      pose proof (boxes_frame_local env self dir video_fps frame gps
                    results s0) as Hl;
      destruct (for_each results b s0) as [s1 [[]|e]]
  end; fields; [ | discriminate ].
  intros _. cbn [fst] in Hl. destruct Hl as (Hf & Hp & _ & Ht).
  cbn in Hf, Hp, Ht. rewrite Hf, Hp, Ht. cbn. repeat split; lia.
Qed.

Lemma frames_counted (fs : list image) : forall s,
  snd (for_each fs (step env self dir video_fps interval) s) = Ok tt ->
  counted env interval (frame_count s) (List.length fs) s
    (fst (for_each fs (step env self dir video_fps interval) s)).
Proof.
  induction fs as [|f fs IH]; intros s.
  - intros _. unfold counted, multiples. cbn.
    rewrite app_nil_r. repeat split; lia.
  - cbn [for_each]. unfold mbind.
    pose proof (step_counted f s) as Hstep.
    destruct (step env self dir video_fps interval f s) as [s1 [[]|e]];
      cbn [fst snd] in *; [ | discriminate ].
    intros Hrest. specialize (IH s1 Hrest).
    destruct (Hstep eq_refl) as (F1 & P1 & T1).
    destruct IH as (F2 & P2 & T2).
    change (List.length (f :: fs)) with (1 + List.length fs)%nat.
    unfold counted. rewrite multiples_app, length_app, map_app.
    rewrite F1 in F2, P2, T2.
    change (Z.of_nat 1) with 1 in *.
    rewrite F2, P2, T2, P1, T1, <- app_assoc.
    repeat split; lia.
Qed.




End Counters.

(** X5.  A run that completes returns the number of frames it read as
    [total_frames], whatever the frame count the video reports, and
    the number of frames it sampled as [processed_frames]; it appends
    to [self.inference_times] one duration for each sampled frame, in
    order, and returns the two output paths as they were given. *)
Theorem completed_run_counts_what_it_read
    (V : Vision) (env : Env) (self self1 : Self) (video : Video)
    (output_csv dir : string) (sample_fps : Z) (o : Output) (stats : Stats) :
  process_video env self video output_csv dir sample_fps
    = (self1, o, Ok stats) ->
  exists video_fps,
    int_of_float (CAP_PROP_FPS video) = Ok video_fps /\
    let n := List.length (frames video) in
    let sampled := multiples (frame_interval_of video_fps sample_fps) 0 n in
    stat_total_frames stats = Z.of_nat n /\
    stat_processed_frames stats = Z.of_nat (List.length sampled) /\
    inference_times self1 =
      (inference_times self ++ map (inference_time env) sampled)%list /\
    stat_output_csv stats = output_csv /\
    stat_output_patches_dir stats = dir.
Proof.
  unfold process_video.
  destruct (run_video_cases env self output_csv dir sample_fps video
              (inference_times self))
    as [(e & f & ->)|(video_fps & Hfps & _ & Hrun)]; [ discriminate | ].
  cbv zeta in Hrun.
  destruct (finish_cases env output_csv dir _ _ _
              (eq_trans (eq_sym Hrun) (surjective_pairing _)))
    as (f & Hs & Hstats & _).
  destruct (run_video env self video output_csv dir sample_fps
              (start (inference_times self))) as [s r].
  cbn [fst snd] in Hs, Hstats. intros [= <- <- Hr].
  destruct (Hstats stats Hr) as [HX ->]. subst s.
  destruct (frames_counted env self dir video_fps
              (frame_interval_of video_fps sample_fps) (frames video)
              (after_header env (inference_times self)) HX) as (F & P & T).
  cbn in F, P, T.
  exists video_fps. split; [ exact Hfps | ].
  cbn [make_stats stat_total_frames stat_processed_frames stat_output_csv
       stat_output_patches_dir inference_times with_file set_out
       frame_count processed_count times].
  repeat split; assumption.
Qed.

Lemma completed_run_counts_what_it_read_witness :
  exists stats self1 o,
    process_video Sample.quiet_env Sample.pipeline Sample.video_61
      "detections.csv" "roi_patches" 1 = (self1, o, Ok stats) /\
    stat_total_frames stats = 61 /\
    stat_processed_frames stats = 3 /\
    List.length (inference_times self1) = 3%nat.
Proof.
  eexists _, _, _.
  assert (Hrun : process_video Sample.quiet_env Sample.pipeline
                   Sample.video_61 "detections.csv" "roi_patches" 1
                 = (_, _, Ok _)) by (vm_compute; reflexivity).
  split; [ exact Hrun | ].
  destruct (completed_run_counts_what_it_read _ _ _ _ _ _ _ _ _ _ Hrun)
    as (video_fps & Hfps & H).
  injection Hfps as <-. cbv zeta in H.
  destruct H as (Ht & Hp & Hi & _).
  split; [ exact Ht | ]. split; [ exact Hp | ].
  rewrite Hi. reflexivity.
Defined.



(** X7.  The errors that end a run before its loop: a video that
    cannot be opened raises [ValueError]; a frame rate or a frame
    count that is not a number raises [ValueError] and an infinite one
    [OverflowError], from [int]; [sample_fps = 0] raises
    [ZeroDivisionError].  In each case nothing has been written and
    the pipeline object is as it was. *)
Theorem errors_before_the_loop_write_nothing
    (V : Vision) (env : Env) (self : Self) (video : Video)
    (output_csv dir : string) (sample_fps : Z) :
  let run := process_video env self video output_csv dir sample_fps in
  let stopped e := run = (self, empty_output, Raise e) in
  (isOpened video = false -> stopped ValueError) /\
  (isOpened video = true ->
   (is_nan (CAP_PROP_FPS video) = true -> stopped ValueError) /\
   (is_inf (CAP_PROP_FPS video) = true -> stopped OverflowError) /\
   (forall video_fps,
      int_of_float (CAP_PROP_FPS video) = Ok video_fps ->
      (is_nan (CAP_PROP_FRAME_COUNT video) = true -> stopped ValueError) /\
      (is_inf (CAP_PROP_FRAME_COUNT video) = true ->
       stopped OverflowError) /\
      (forall total,
         int_of_float (CAP_PROP_FRAME_COUNT video) = Ok total ->
         sample_fps = 0 -> stopped ZeroDivisionError))).
Proof.
  cbv zeta. unfold process_video, run_video, mbind, lift, ret.
  destruct self as [dev conf classes tf td times0].
  cbn [inference_times device conf_threshold target_classes total_frames
       total_detections].
  split; [ intros ->; reflexivity | ]. intros ->.
  split; [ | split ].
  - destruct (CAP_PROP_FPS video); try discriminate. reflexivity.
  - destruct (CAP_PROP_FPS video); try discriminate. reflexivity.
  - intros video_fps ->. split; [ | split ].
    + destruct (CAP_PROP_FRAME_COUNT video); try discriminate. reflexivity.
    + destruct (CAP_PROP_FRAME_COUNT video); try discriminate. reflexivity.
    + intros total -> ->. reflexivity.
Qed.

(* ------------------------------------------------------------------ *)
(** ** The crop window of a box inside the frame *)

(** X8.  For a box that lies inside the frame, the crop window
    contains the box except, when a side of the box has an odd length,
    its last column or row: along the longer side the window is the
    side of the box itself, cut by one pixel when its length is odd;
    along the other side it reaches at least as far, up to the same
    pixel. *)
Theorem crop_window_covers_the_box_up_to_parity
    (h w x1 y1 x2 y2 : Z) :
  0 <= x1 -> x1 < x2 -> x2 <= w ->
  0 <= y1 -> y1 < y2 -> y2 <= h ->
  let '(crop_x1, crop_y1, crop_x2, crop_y2) :=
    crop_window h w (x1, y1, x2, y2) in
  crop_x1 <= x1 /\ x2 - (x2 - x1) mod 2 <= crop_x2 /\
  crop_y1 <= y1 /\ y2 - (y2 - y1) mod 2 <= crop_y2 /\
  (y2 - y1 <= x2 - x1 ->
   crop_x1 = x1 /\ crop_x2 = x2 - (x2 - x1) mod 2) /\
  (x2 - x1 <= y2 - y1 ->
   crop_y1 = y1 /\ crop_y2 = y2 - (y2 - y1) mod 2).
Proof.
  intros Hx1 Hx Hx2 Hy1 Hy Hy2. rewrite crop_window_eq.
  set (W := x2 - x1). set (H := y2 - y1).
  assert (HW : 0 < W) by (unfold W; lia).
  assert (HH : 0 < H) by (unfold H; lia).
  assert (Ecx : (x1 + x2) / 2 = x1 + W / 2).
  { replace (x1 + x2) with (W + x1 * 2) by (unfold W; lia).
    rewrite Z.div_add by lia. lia. }
  assert (Ecy : (y1 + y2) / 2 = y1 + H / 2).
  { replace (y1 + y2) with (H + y1 * 2) by (unfold H; lia).
    rewrite Z.div_add by lia. lia. }
  rewrite Ecx, Ecy.
  pose proof (Z.div_mod W 2 ltac:(lia)) as DW.
  pose proof (Z.div_mod H 2 ltac:(lia)) as DH.
  pose proof (Z.mod_pos_bound W 2 ltac:(lia)) as BW.
  pose proof (Z.mod_pos_bound H 2 ltac:(lia)) as BH.
  assert (MW : W / 2 <= Z.max W H / 2) by (apply Z.div_le_mono; lia).
  assert (MH : H / 2 <= Z.max W H / 2) by (apply Z.div_le_mono; lia).
  assert (x2 = x1 + W) by (unfold W; lia).
  assert (y2 = y1 + H) by (unfold H; lia).
  clearbody W H.
  split; [ lia | ]. split; [ lia | ]. split; [ lia | ]. split; [ lia | ].
  split; intros Hle.
  - replace (Z.max W H) with W by lia. lia.
  - replace (Z.max W H) with H by lia. lia.
Qed.

Lemma crop_window_covers_the_box_up_to_parity_witness :
  crop_window 100 100 (10, 20, 15, 23) = (10, 19, 14, 23).
Proof.
  pose proof (crop_window_covers_the_box_up_to_parity 100 100 10 20 15 23
                ltac:(lia) ltac:(lia) ltac:(lia)
                ltac:(lia) ltac:(lia) ltac:(lia)) as H.
  destruct (crop_window 100 100 (10, 20, 15, 23))
    as [[[cx1 cy1] cx2] cy2] eqn:E.
  destruct H as (_ & _ & _ & _ & Hx & _).
  destruct (Hx ltac:(lia)) as [-> ->].
  vm_compute in E. injection E as <- <-. reflexivity.
Defined.

(** X9.  For a box that lies inside the frame the crop is empty
    exactly when the box is one pixel wide and one pixel high: the
    half-size is then 0 and the window has neither width nor height;
    any larger box has a crop with at least one column and one row. *)
Theorem crop_is_empty_only_for_a_one_pixel_box
    (h w x1 y1 x2 y2 : Z) :
  0 <= x1 -> x1 < x2 -> x2 <= w ->
  0 <= y1 -> y1 < y2 -> y2 <= h ->
  let '(crop_x1, crop_y1, crop_x2, crop_y2) :=
    crop_window h w (x1, y1, x2, y2) in
  (x2 - x1 = 1 /\ y2 - y1 = 1 ->
   half_size (x1, y1, x2, y2) = 0 /\
   crop_x1 = x1 /\ crop_x2 = x1 /\ crop_y1 = y1 /\ crop_y2 = y1) /\
  (2 <= x2 - x1 \/ 2 <= y2 - y1 ->
   crop_x1 < crop_x2 /\ crop_y1 < crop_y2).
Proof.
  intros Hx1 Hx Hx2 Hy1 Hy Hy2. rewrite crop_window_eq. cbn [half_size].
  set (W := x2 - x1). set (H := y2 - y1).
  assert (HW : 0 < W) by (unfold W; lia).
  assert (HH : 0 < H) by (unfold H; lia).
  assert (Ecx : (x1 + x2) / 2 = x1 + W / 2).
  { replace (x1 + x2) with (W + x1 * 2) by (unfold W; lia).
    rewrite Z.div_add by lia. lia. }
  assert (Ecy : (y1 + y2) / 2 = y1 + H / 2).
  { replace (y1 + y2) with (H + y1 * 2) by (unfold H; lia).
    rewrite Z.div_add by lia. lia. }
  rewrite Ecx, Ecy.
  pose proof (Z.div_mod W 2 ltac:(lia)) as DW.
  pose proof (Z.div_mod H 2 ltac:(lia)) as DH.
  pose proof (Z.mod_pos_bound W 2 ltac:(lia)) as BW.
  pose proof (Z.mod_pos_bound H 2 ltac:(lia)) as BH.
  assert (x2 = x1 + W) by (unfold W; lia).
  assert (y2 = y1 + H) by (unfold H; lia).
  clearbody W H.
  split.
  - intros [EW EH]. rewrite EW, EH. cbn. repeat split; lia.
  - intros Hbig.
    assert (Hhalf : 1 <= Z.max W H / 2)
      by (apply Z.div_le_lower_bound; lia).
    assert (0 <= W / 2) by (apply Z.div_pos; lia).
    assert (0 <= H / 2) by (apply Z.div_pos; lia).
    lia.
Qed.

Lemma crop_is_empty_only_for_a_one_pixel_box_witness :
  crop_window 100 100 (7, 9, 8, 10) = (7, 9, 7, 9).
Proof.
  pose proof (crop_is_empty_only_for_a_one_pixel_box 100 100 7 9 8 10
                ltac:(lia) ltac:(lia) ltac:(lia)
                ltac:(lia) ltac:(lia) ltac:(lia)) as H.
  destruct (crop_window 100 100 (7, 9, 8, 10))
    as [[[cx1 cy1] cx2] cy2].
  destruct H as [H _].
  destruct (H ltac:(lia)) as (_ & -> & -> & -> & ->). reflexivity.
Defined.

(* ------------------------------------------------------------------ *)
(** ** The stand-alone OCR utility *)

Import Capture.

Section Captures.
Context {A : Type}.

Lemma run_keeps_group (r : Re.re) : forall (s cap : string)
    (k : string -> option string -> option A) (x : A),
  Re.run r s (Some cap) k = Some x ->
  exists rest cap', k rest (Some cap') = Some x.
Proof.
  induction r as [p|a IHa b IHb|a IHa|p|p|a IHa]; intros s cap k x;
    cbn [Re.run].
  - destruct s as [|c s]; [ discriminate | ].
    destruct (p c); [ eauto | discriminate ].
  - intros H. apply IHa in H. destruct H as (rest & cap' & H).
    now apply IHb in H.
  - destruct (Re.run a s (Some cap) k) as [y|] eqn:Ha.
    + intros [= ->]. now apply IHa in Ha.
    + eauto.
  - intros H. apply star_sound in H.
    destruct H as (pre & rest & _ & _ & H). eauto.
  - destruct s as [|c s]; [ discriminate | ].
    destruct (p c); [ | discriminate ].
    intros H. apply star_sound in H.
    destruct H as (pre & rest & _ & _ & H). eauto.
  - intros H. apply run_sound in H.
    destruct H as (pre & rest & g' & _ & _ & H & _). eauto.
Qed.

Lemma run_sets_group (r : Re.re) : forall (s : string) (g : option string)
    (k : string -> option string -> option A) (x : A),
  sets_group r = true ->
  Re.run r s g k = Some x ->
  exists rest cap, k rest (Some cap) = Some x.
Proof.
  induction r as [p|a IHa b IHb|a IHa|p|p|a IHa]; intros s g k x;
    cbn [Re.run sets_group]; try discriminate.
  - intros Hg H. destruct (sets_group a).
    + apply (IHa _ _ _ _ eq_refl) in H.
      destruct H as (rest & cap & H). now apply run_keeps_group in H.
    + apply run_sound in H.
      destruct H as (pre & rest & g' & _ & _ & H & _).
      now apply (IHb _ _ _ _ Hg) in H.
  - intros _ H. apply run_sound in H.
    destruct H as (pre & rest & g' & _ & _ & H & _). eauto.
Qed.

End Captures.

Lemma search_sets_group (r : Re.re) (text : string) (m : Re.Match) :
  sets_group r = true ->
  Re.search r text = Some m ->
  exists cap, Re.group1 m = Some cap.
Proof.
  intros Hg H. apply search_sound in H.
  destruct H as (skipped & rest & _ & H).
  unfold Re.match_at in H.
  apply (run_sets_group _ _ _ _ _ Hg) in H.
  destruct H as (rest' & cap & [= <-]). cbn. eauto.
Qed.

(** [float] raises nothing but [ValueError]. *)
Lemma float_of_str_raises (s : string) (e : exn) :
  float_of_str s = Raise e -> e = ValueError.
Proof.
  unfold float_of_str.
  repeat match goal with
  | |- context [let '(_, _) := ?x in _] => destruct x
  end.
  match goal with
  | |- context [match ?t with EmptyString => _ | String _ _ => _ end] =>
      destruct t
  end; [ | now intros [= <-] ].
  match goal with
  | |- context [if ?b then _ else _] => destruct b
  end; [ now intros [= <-] | discriminate ].
Qed.

Lemma first_coord_returns (pats : list Re.re) (neg : ascii) (text : string) :
  Forall (fun r => sets_group r = true) pats ->
  exists v, first_coord pats neg text = Ok v.
Proof.
  induction 1 as [|r pats Hr _ IH]; cbn [first_coord]; [ eauto | ].
  destruct (Re.search r text) as [m|] eqn:Hs; [ | exact IH ].
  destruct (search_sets_group r text m Hr Hs) as [cap Hcap].
  unfold group1_str. rewrite Hcap. cbn [bind].
  destruct (float_of_str (clean_number cap)) as [v|e] eqn:Ef; [ eauto | ].
  apply float_of_str_raises in Ef. subst e. exact IH.
Qed.

Lemma digit_facts (c : ascii) :
  is_digit c = true ->
  is_space c = false /\ Ascii.eqb c "-" = false /\
  Ascii.eqb c "+" = false /\ Ascii.eqb c "." = false.
Proof.
  destruct c as [[] [] [] [] [] [] [] []]; vm_compute;
    intros H; try discriminate H; repeat split.
Qed.

Lemma rev_onto_twice (s : string) : forall a b,
  rev_onto (rev_onto s a) b = rev_onto a (s ++ b).
Proof.
  induction s as [|c s IH]; intros a b; cbn [rev_onto append].
  - reflexivity.
  - now rewrite IH.
Qed.

Lemma append_nil_r (s : string) : s ++ "" = s.
Proof. induction s as [|c s IH]; cbn; [ reflexivity | now rewrite IH ]. Qed.

Lemma all_chars_rev_onto (p : ascii -> bool) (s : string) : forall acc,
  all_chars p (rev_onto s acc) = all_chars p s && all_chars p acc.
Proof.
  induction s as [|c s IH]; intros acc; cbn [rev_onto all_chars].
  - reflexivity.
  - rewrite IH. cbn [all_chars].
    destruct (p c), (all_chars p s), (all_chars p acc); reflexivity.
Qed.

Lemma lstrip_id (s : string) :
  all_chars (fun c => negb (is_space c)) s = true -> lstrip s = s.
Proof.
  destruct s as [|c s]; cbn; [ reflexivity | ].
  now destruct (is_space c).
Qed.

(** A text without white space is left as it is by [strip]. *)
Lemma strip_id (s : string) :
  all_chars (fun c => negb (is_space c)) s = true -> strip s = s.
Proof.
  intros H. unfold strip, rev.
  rewrite (lstrip_id s H).
  rewrite lstrip_id by (now rewrite all_chars_rev_onto, H).
  now rewrite rev_onto_twice, append_nil_r.
Qed.

Lemma read_digits_digits (a rest : string) :
  all_chars is_digit a = true ->
  (forall c r, rest = String c r -> is_digit c = false) ->
  forall acc len,
    exists v, read_digits (a ++ rest) acc len
              = (v, len + Z.of_nat (String.length a), rest).
Proof.
  intros Ha Hrest. induction a as [|c a IH]; intros acc len;
    cbn [append read_digits String.length].
  - exists acc. destruct rest as [|c r]; cbn [read_digits];
      [ now rewrite Z.add_0_r | ].
    rewrite (Hrest c r eq_refl). now rewrite Z.add_0_r.
  - cbn in Ha. apply andb_prop in Ha. destruct Ha as [Hc Ha].
    rewrite Hc. destruct (IH Ha (10 * acc + digit_val c) (len + 1)) as [v Hv].
    exists v. rewrite Hv. do 2 f_equal. lia.
Qed.

(** [float] reads every numeral made of digits, a point at most and
    at least one digit before it. *)
Lemma float_of_str_numeral (c : ascii) (whole frac : string)
    (pointed : bool) :
  is_digit c = true ->
  all_chars is_digit whole = true ->
  all_chars is_digit frac = true ->
  exists v,
    float_of_str (String c whole ++ (if pointed then String "." frac else frac))
    = Ok v.
Proof.
  intros Hc Hw Hf.
  destruct (digit_facts c Hc) as (Hsp & Hminus & Hplus & Hdot).
  assert (Hns : forall s, all_chars is_digit s = true ->
                  all_chars (fun c => negb (is_space c)) s = true).
  { intros s. apply all_chars_weaken. intros d Hd.
    now destruct (digit_facts d Hd) as [-> _]. }
  unfold float_of_str. rewrite strip_id.
  2:{ cbn [append all_chars]. rewrite Hsp. cbn [negb andb].
      rewrite all_chars_app, (Hns whole Hw).
      destruct pointed; cbn [all_chars andb]; [ | now apply Hns ].
      change (is_space ".") with false. cbn. now apply Hns. }
  cbn [append]. rewrite Hminus, Hplus.
  destruct pointed.
  - destruct (read_digits_digits (String c whole) (String "." frac)
                ltac:(cbn; now rewrite Hc, Hw)
                ltac:(now intros d r [= <- <-]) 0 0) as [ip Hip].
    cbn [append] in Hip. rewrite Hip.
    change (Ascii.eqb "." ".") with true. cbv iota.
    destruct (read_digits_digits frac "" Hf ltac:(discriminate) ip 0)
      as [fp Hfp].
    rewrite append_nil_r in Hfp. rewrite Hfp.
    cbn [String.length].
    destruct (_ =? 0) eqn:E; [ apply Z.eqb_eq in E; lia | eauto ].
  - destruct (read_digits_digits (String c (whole ++ frac)) ""
                ltac:(cbn; now rewrite Hc, all_chars_app, Hw, Hf)
                ltac:(discriminate) 0 0) as [ip Hip].
    rewrite append_nil_r in Hip. cbn [append] in Hip. rewrite Hip.
    cbn [String.length].
    destruct (_ =? 0) eqn:E; [ apply Z.eqb_eq in E; lia | eauto ].
Qed.

(** What the group of the unsigned number of the heading label
    captures: digits, a point at most, and at least one digit before
    it. *)
Lemma plain_number_shape {A} (s : string) (g : option string)
    (k : string -> option string -> option A) (x : A) :
  Re.run plain_number s g k = Some x ->
  exists c whole frac pointed rest,
    is_digit c = true /\ all_chars is_digit whole = true /\
    all_chars is_digit frac = true /\
    k rest (Some (String c whole
                  ++ (if pointed : bool then String "." frac else frac)))
    = Some x.
Proof.
  unfold plain_number. cbn [Re.seq Re.run].
  destruct s as [|c s1]; [ discriminate | ].
  destruct (is_digit c) eqn:Hc; [ | discriminate ].
  intros H. apply star_sound in H.
  destruct H as (whole & s2 & -> & Hw & H).
  assert (Hplain : forall frac s4,
            all_chars is_digit frac = true ->
            k s4 (Some (Re.consumed (String c (whole ++ frac ++ s4)) s4))
              = Some x ->
            exists c0 whole0 frac0 pointed rest,
              is_digit c0 = true /\ all_chars is_digit whole0 = true /\
              all_chars is_digit frac0 = true /\
              k rest (Some (String c0 whole0
                            ++ (if pointed : bool
                                then String "." frac0 else frac0)))
              = Some x).
  { intros frac s4 Hf Hk. exists c, whole, frac, false, s4.
    repeat split; auto.
    replace (String c (whole ++ frac ++ s4))
      with ((String c whole ++ frac) ++ s4) in Hk
      by (cbn; now rewrite append_assoc).
    now rewrite consumed_app in Hk. }
  destruct s2 as [|c2 s3].
  - apply star_sound in H. destruct H as (frac & s4 & E & Hf & H).
    apply (Hplain frac s4 Hf). now rewrite <- E.
  - destruct (dot c2) eqn:Hdot.
    + destruct (Re.star is_digit s3 _) as [y|] eqn:Hs.
      * injection H as ->. apply star_sound in Hs.
        destruct Hs as (frac & s4 & -> & Hf & H).
        unfold dot in Hdot. apply Ascii.eqb_eq in Hdot. subst c2.
        exists c, whole, frac, true, s4. repeat split; auto.
        replace (String c (whole ++ String "." (frac ++ s4)))
          with ((String c whole ++ String "." frac) ++ s4) in H
          by (cbn; rewrite append_assoc; reflexivity).
        now rewrite consumed_app in H.
      * apply star_sound in H. destruct H as (frac & s4 & E & Hf & H).
        apply (Hplain frac s4 Hf). now rewrite <- E.
    + apply star_sound in H. destruct H as (frac & s4 & E & Hf & H).
      apply (Hplain frac s4 Hf). now rewrite <- E.
Qed.

Lemma run_seq_eq {A} (a b : Re.re) (s : string) (g : option string)
    (k : string -> option string -> option A) :
  Re.run (Re.Seq a b) s g k
  = Re.run a s g (fun s' g' => Re.run b s' g' k).
Proof. reflexivity. Qed.

Lemma heading_label_capture (text : string) (m : Re.Match) :
  Re.search heading_label_re text = Some m ->
  exists cap v, Re.group1 m = Some cap /\ float_of_str cap = Ok v.
Proof.
  intros H. apply search_sound in H.
  destruct H as (skipped & rest & _ & H).
  unfold Re.match_at, heading_label_re in H. cbn [Re.seq] in H.
  do 5 (rewrite run_seq_eq in H; apply run_sound in H;
        destruct H as (? & ? & ? & _ & _ & H & _)).
  apply plain_number_shape in H.
  destruct H as (c & whole & frac & pointed & rest' & Hc & Hw & Hf & H).
  injection H as <-. cbn [Re.group1].
  destruct (float_of_str_numeral c whole frac pointed Hc Hw Hf) as [v Hv].
  eauto.
Qed.

Lemma speed_capture (text : string) (m : Re.Match) :
  Re.search speed_re text = Some m ->
  exists cap v, Re.group1 m = Some cap /\ float_of_str cap = Ok v.
Proof.
  intros H. apply search_sound in H.
  destruct H as (skipped & rest & _ & H).
  unfold Re.match_at, speed_re in H.
  cbn [Re.seq Re.word Re.run] in H.
  destruct rest as [|c s1]; [ discriminate | ].
  destruct (is_digit c) eqn:Hc; [ | discriminate ].
  apply star_sound in H. destruct H as (ds & s2 & -> & Hds & H).
  apply star_sound in H. destruct H as (ws & s3 & -> & Hws & H).
  repeat match type of H with
  | match ?s with "" => None | String _ _ => _ end = Some _ =>
      destruct s; [ discriminate | ]
  | (if ?b then _ else None) = Some _ =>
      destruct b; [ | discriminate ]
  end.
  injection H as <-. cbn [Re.group1].
  change (String c (ds ++ ws ++ ?t)) with (String c ds ++ ws ++ t).
  rewrite consumed_app.
  destruct (float_of_str_numeral c ds "" false Hc Hds eq_refl) as [v Hv].
  rewrite append_nil_r in Hv. eauto.
Qed.

Lemma first_heading_returns (text : string) :
  exists v, first_heading heading_patterns text = Ok v.
Proof.
  unfold heading_patterns. cbn [first_heading].
  destruct (Re.search speed_re text) as [m|] eqn:Hs.
  - destruct (speed_capture text m Hs) as (cap & v & Hcap & Hv).
    unfold group1_str. rewrite Hcap. cbn [bind]. rewrite Hv. cbn. eauto.
  - destruct (Re.search heading_label_re text) as [m|] eqn:Hl; [ | eauto ].
    destruct (heading_label_capture text m Hl) as (cap & v & Hcap & Hv).
    unfold group1_str. rewrite Hcap. cbn [bind]. rewrite Hv. cbn. eauto.
Qed.

Lemma parse_best_returns (text : string) :
  exists lat lon hd, parse_best text = Ok (lat, lon, hd).
Proof.
  unfold parse_best.
  destruct (first_coord_returns lat_patterns "S" text) as [lat ->];
    [ repeat constructor | ].
  destruct (first_coord_returns lon_patterns "W" text) as [lon ->];
    [ repeat constructor | ].
  destruct (first_heading_returns text) as [hd ->].
  cbn [bind]. eauto.
Qed.

(** X10.  The parsing of the stand-alone utility never raises, on any
    recognized text: a number that [float] rejects moves on to the
    next pattern, and the heading patterns capture only what [float]
    reads.  So [extract_gps_from_frame_ocr] returns three [None] when
    [pytesseract] cannot be imported, returns a triple whenever the
    image operations and the recognition succeed, and raises only
    what these raise. *)
Theorem ocr_tool_raises_only_what_vision_raises
    (V : Vision) (frame : image) :
  (forall text, exists lat lon hd, parse_best text = Ok (lat, lon, hd)) /\
  (import_pytesseract = Raise ImportError ->
   extract_gps_from_frame_ocr frame = Ok (None, None, None)) /\
  (forall imgs texts,
     import_pytesseract = Ok tt ->
     variants frame = Ok imgs -> ocr_all imgs = Ok texts ->
     exists lat lon hd,
       extract_gps_from_frame_ocr frame = Ok (lat, lon, hd)) /\
  (forall e,
     extract_gps_from_frame_ocr frame = Raise e ->
     import_pytesseract = Raise e \/
     variants frame = Raise e \/
     exists imgs, variants frame = Ok imgs /\ ocr_all imgs = Raise e).
Proof.
  split; [ exact parse_best_returns | ].
  unfold extract_gps_from_frame_ocr.
  split; [ now intros -> | ]. split.
  - intros imgs texts Hi Hv Ho. rewrite Hi, Hv. cbn [bind].
    rewrite Ho. cbn [bind]. apply parse_best_returns.
  - intros e.
    destruct import_pytesseract as [[]|e0].
    + destruct (variants frame) as [imgs|e1]; cbn [bind].
      * destruct (ocr_all imgs) as [texts|e2] eqn:Ho; cbn [bind].
        -- destruct (parse_best_returns (best_text texts))
             as (lat & lon & hd & ->). discriminate.
        -- intros [= <-]. right. right. eauto.
      * intros [= <-]. right. now left.
    + destruct e0; intros [= <-]; now left.
Qed.

Lemma first_coord_head (r : Re.re) (rest : list Re.re) (neg : ascii)
    (text : string) (v : float) :
  parse_coord r neg text = Ok (Some v) ->
  first_coord (r :: rest) neg text = Ok (Some v).
Proof.
  unfold parse_coord. cbn [first_coord].
  destruct (Re.search r text) as [m|]; [ | discriminate ].
  destruct (group1_str m) as [g|e]; cbn [bind]; [ | discriminate ].
  destruct (float_of_str (clean_number g)) as [v0|e]; cbn [bind];
    [ | discriminate ].
  now intros [= <-].
Qed.

(** X11.  On every text that the decoder of the pipeline parses, the
    stand-alone utility finds the same latitude and the same
    longitude; it finds the same heading when the text holds a speed
    reading, and otherwise, where the decoder returns 0.0, what its
    heading label pattern finds, if anything. *)
Theorem ocr_tool_agrees_with_decoder (text : string) (geo : GeoFix) :
  parse_overlay text = Ok (Some geo) ->
  exists hd,
    parse_best text = Ok (Some (latitude geo), Some (longitude geo), hd) /\
    (Re.search speed_re text <> None -> hd = Some (heading geo)) /\
    (Re.search speed_re text = None ->
     heading geo = zero /\
     first_heading [heading_label_re] text = Ok hd).
Proof.
  unfold parse_overlay, parse_best.
  destruct (parse_coord lat_re "S" text) as [[la|]|e] eqn:Hla; cbn [bind];
    try discriminate;
    destruct (parse_coord lon_re "W" text) as [[lo|]|e] eqn:Hlo; cbn [bind];
    try discriminate;
    destruct (parse_speed text) as [hd0|e] eqn:Hsp; cbn [bind];
    try discriminate.
  intros [= <-]. cbn [latitude longitude heading].
  unfold lat_patterns, lon_patterns.
  rewrite (first_coord_head _ _ _ _ _ Hla), (first_coord_head _ _ _ _ _ Hlo).
  cbn [bind]. unfold heading_patterns. cbn [first_heading].
  unfold parse_speed in Hsp.
  destruct (Re.search speed_re text) as [m|].
  - destruct (group1_str m) as [g|e]; cbn [bind] in *; [ | discriminate ].
    destruct (float_of_str g) as [v|e]; cbn [bind] in *; [ | discriminate ].
    injection Hsp as <-. exists (Some v).
    split; [ reflexivity | ]. split; [ reflexivity | discriminate ].
  - injection Hsp as <-.
    destruct (Re.search heading_label_re text) as [m|] eqn:Hl.
    + destruct (heading_label_capture text m Hl) as (cap & v & Hcap & Hv).
      unfold group1_str. rewrite Hcap. cbn [bind]. rewrite Hv. cbn [bind].
      exists (Some v). split; [ reflexivity | ].
      split; [ intros H; now elim H | auto ].
    + exists None. split; [ reflexivity | ].
      split; [ intros H; now elim H | auto ].
Qed.

Lemma ocr_tool_agrees_with_decoder_witness :
  parse_best Sample.overlay_text =
    Ok (Some (lit "43.792879"), Some (fneg (lit "79.314193")),
        Some (lit "40.0")).
Proof.
  destruct (ocr_tool_agrees_with_decoder Sample.overlay_text
              {| latitude := lit "43.792879";
                 longitude := fneg (lit "79.314193");
                 heading := lit "40.0" |}
              ltac:(vm_compute; reflexivity)) as (hd & Hp & Hs & _).
  rewrite Hp. cbn [latitude longitude heading]. do 2 f_equal.
  apply Hs. vm_compute. discriminate.
Defined.

(* ------------------------------------------------------------------ *)
(** ** Batch driver *)

Lemma insert_perm (x : string) (l : list string) :
  Permutation (x :: l) (Batch.insert x l).
Proof.
  induction l as [|y l IH]; cbn [Batch.insert]; [ reflexivity | ].
  destruct (String.leb x y); [ reflexivity | ].
  rewrite perm_swap. now constructor.
Qed.

Lemma sorted_perm (l : list string) :
  Permutation l (Batch.sorted l).
Proof.
  induction l as [|x l IH]; cbn [Batch.sorted]; [ constructor | ].
  rewrite <- insert_perm. now constructor.
Qed.

Lemma insert_sorted (x : string) (l : list string) :
  Sorted (fun a b => String.leb a b = true) l ->
  Sorted (fun a b => String.leb a b = true) (Batch.insert x l).
Proof.
  induction 1 as [|y l Hs IH Hh]; cbn [Batch.insert].
  - repeat constructor.
  - destruct (String.leb x y) eqn:E.
    + repeat constructor; assumption.
    + constructor; [ exact IH | ].
      assert (Hyx : String.leb y x = true)
        by (destruct (String.leb_total x y); congruence).
      destruct l as [|z l]; cbn [Batch.insert].
      * now constructor.
      * destruct (String.leb x z); constructor; [ exact Hyx | ].
        now inversion Hh.
Qed.

Lemma sorted_sorted (l : list string) :
  Sorted (fun a b => String.leb a b = true) (Batch.sorted l).
Proof.
  induction l as [|x l IH]; cbn [Batch.sorted]; [ constructor | ].
  now apply insert_sorted.
Qed.

Lemma outcomes_length (w : Batch.World) (names : list string) : forall k,
  List.length (Batch.outcomes w k names) = List.length names.
Proof.
  induction names as [|n l IH]; intros k; cbn; [ reflexivity | ].
  now rewrite IH.
Qed.

Lemma batch_loop (w : Batch.World) (names : list string) :
  forall t : Batch.Tally,
    let t' := fold_left (Batch.run_one w) names t in
    let os := Batch.outcomes w (List.length (Batch.commands t)) names in
    Batch.commands t' = (Batch.commands t ++ map Batch.cmd names)%list /\
    Batch.success_count t' =
      Batch.success_count t
      + Z.of_nat (List.length
                    (filter (fun p => Batch.succeeded (snd p)) os)) /\
    Batch.failed_videos t' =
      (Batch.failed_videos t
       ++ map fst (filter (fun p => negb (Batch.succeeded (snd p))) os))%list.
Proof.
  induction names as [|n names IH]; intros t; cbn zeta.
  - cbn. rewrite !app_nil_r. repeat split; lia.
  - cbn [fold_left Batch.outcomes map filter snd].
    specialize (IH (Batch.run_one w t n)). cbv zeta in IH.
    assert (Hlen : List.length (Batch.commands (Batch.run_one w t n))
                   = S (List.length (Batch.commands t))).
    { unfold Batch.run_one.
      destruct (Batch.subprocess_run w _ _) as [[|p|p]| |];
        cbn [Batch.commands]; rewrite length_app; cbn; lia. }
    rewrite Hlen in IH. destruct IH as (Hc & Hs & Hf).
    rewrite Hc, Hs, Hf. unfold Batch.run_one.
    destruct (Batch.subprocess_run w _ _) as [[|p|p]| |];
      cbn [Batch.commands Batch.success_count Batch.failed_videos
           Batch.succeeded negb List.length map fst app];
      rewrite <- ?app_assoc; cbn [app]; repeat split; lia.
Qed.

(** X12.  The batch driver, when the video directory holds at least
    one [*.MP4] entry, runs the detection script once on each entry,
    in the order of the names, each time with the same output CSV and
    the same patch directory.  No failure of a child stops the batch:
    a video counts as a success when its child returns the code 0 and
    otherwise (another code, a timeout, any exception) its name joins
    [failed_videos], so that at the end
    [success_count + len(failed_videos) = total_videos]. *)
Theorem batch_runs_the_script_once_per_video (w : Batch.World) :
  Batch.video_dir_exists w = true ->
  Batch.mp4_names w <> [] ->
  (Batch.csv_exists w = true -> Batch.rename_ok w = true) ->
  let video_files := Batch.sorted (Batch.mp4_names w) in
  let os := Batch.outcomes w 0 video_files in
  exists t,
    Batch.main w = Batch.Report (Batch.csv_exists w) t /\
    Permutation (Batch.mp4_names w) video_files /\
    Sorted (fun a b => String.leb a b = true) video_files /\
    Batch.commands t = map Batch.cmd video_files /\
    (forall c, In c (Batch.commands t) ->
       nth_error c 5 = Some Batch.OUTPUT_CSV /\
       nth_error c 7 = Some Batch.OUTPUT_PATCHES) /\
    Batch.success_count t =
      Z.of_nat (List.length (filter (fun p => Batch.succeeded (snd p)) os)) /\
    Batch.failed_videos t =
      map fst (filter (fun p => negb (Batch.succeeded (snd p))) os) /\
    Batch.success_count t + Z.of_nat (List.length (Batch.failed_videos t))
      = Z.of_nat (List.length (Batch.mp4_names w)).
Proof.
  intros Hdir Hnames Hren video_files os.
  pose proof (sorted_perm (Batch.mp4_names w)) as Hperm.
  fold video_files in Hperm.
  unfold Batch.main. rewrite Hdir. cbn [negb]. fold video_files.
  assert (Hlen : List.length video_files = List.length (Batch.mp4_names w))
    by (symmetry; now apply Permutation_length).
  destruct (List.length video_files =? 0)%nat eqn:E.
  { apply Nat.eqb_eq in E. rewrite Hlen in E.
    destruct (Batch.mp4_names w); [ now elim Hnames | discriminate ]. }
  assert (Hcsv : Batch.csv_exists w && negb (Batch.rename_ok w) = false).
  { destruct (Batch.csv_exists w); [ | reflexivity ].
    now rewrite (Hren eq_refl). }
  rewrite Hcsv.
  destruct (batch_loop w video_files
              {| Batch.success_count := 0; Batch.failed_videos := [];
                 Batch.commands := [] |}) as (Hc & Hs & Hf).
  cbn [Batch.commands Batch.success_count Batch.failed_videos
       List.length app] in Hc, Hs, Hf.
  fold os in Hs, Hf.
  eexists. split; [ reflexivity | ].
  split; [ exact Hperm | ]. split; [ apply sorted_sorted | ].
  split; [ exact Hc | ]. split.
  { intros c Hin. rewrite Hc in Hin. apply in_map_iff in Hin.
    destruct Hin as (n & <- & _). split; reflexivity. }
  split; [ rewrite Hs; lia | ]. split; [ exact Hf | ].
  rewrite Hs, Hf, length_map, <- Hlen.
  rewrite <- (outcomes_length w video_files 0). fold os. clear.
  induction os as [|p l IH]; cbn [filter List.length]; [ reflexivity | ].
  destruct (Batch.succeeded (snd p)); cbn [negb List.length]; lia.
Qed.

Lemma batch_runs_the_script_once_per_video_witness :
  let w := {| Batch.video_dir_exists := true;
              Batch.mp4_names := ["B.MP4"; "A.MP4"; "C.MP4"];
              Batch.csv_exists := false;
              Batch.rename_ok := false;
              Batch.subprocess_run := fun k _ =>
                match k with
                | O => Batch.Completed 0
                | S O => Batch.TimeoutExpired
                | _ => Batch.Completed 1
                end |} in
  exists t,
    Batch.main w = Batch.Report false t /\
    Batch.success_count t = 1 /\
    Batch.failed_videos t = ["B.MP4"; "C.MP4"].
Proof.
  cbv zeta.
  match goal with
  | |- exists t, Batch.main ?w = _ /\ _ =>
      destruct (batch_runs_the_script_once_per_video w eq_refl
                  ltac:(discriminate) ltac:(discriminate))
        as (t & Hmain & _ & _ & _ & _ & Hs & Hf & _)
  end.
  exists t. split; [ exact Hmain | ]. split; [ exact Hs | exact Hf ].
Defined.

(** X13.  The batch driver ends with [sys.exit(1)] when the video
    directory does not exist and when it holds no [*.MP4] entry, and
    an existing output CSV that cannot be renamed to its backup ends
    it with the error of the renaming; in all three cases the
    detection script has not been run on any video. *)
Theorem batch_stops_before_the_first_video (w : Batch.World) :
  (Batch.video_dir_exists w = false -> Batch.main w = Batch.Exit 1) /\
  (Batch.video_dir_exists w = true -> Batch.mp4_names w = [] ->
   Batch.main w = Batch.Exit 1) /\
  (Batch.video_dir_exists w = true -> Batch.mp4_names w <> [] ->
   Batch.csv_exists w = true -> Batch.rename_ok w = false ->
   Batch.main w = Batch.Raised IOError) /\
  (forall renamed t,
     Batch.main w = Batch.Report renamed t ->
     Batch.video_dir_exists w = true /\ Batch.mp4_names w <> [] /\
     renamed = Batch.csv_exists w /\
     (renamed = true -> Batch.rename_ok w = true)).
Proof.
  unfold Batch.main.
  assert (Hlen : List.length (Batch.sorted (Batch.mp4_names w))
                 = List.length (Batch.mp4_names w))
    by (symmetry; apply Permutation_length, sorted_perm).
  rewrite Hlen.
  split; [ now intros -> | ].
  split; [ now intros -> -> | ]. split.
  - intros -> Hne -> ->. cbn.
    destruct (Batch.mp4_names w); [ now elim Hne | reflexivity ].
  - intros renamed t.
    destruct (Batch.video_dir_exists w); cbn [negb]; [ | discriminate ].
    destruct (Batch.mp4_names w) as [|n l]; cbn [List.length Nat.eqb];
      [ discriminate | ].
    destruct (Batch.csv_exists w), (Batch.rename_ok w); cbn;
      try discriminate; intros [= <- _]; repeat split; discriminate.
Qed.

(* ------------------------------------------------------------------ *)
(** ** Dictionaries of tags *)

Lemma key_eqb_eq (a b : option string) : Osm.key_eqb a b = true <-> a = b.
Proof.
  destruct a as [x|], b as [y|]; cbn; try (split; congruence).
  rewrite String.eqb_eq. split; congruence.
Qed.

Lemma key_eqb_refl (a : option string) : Osm.key_eqb a a = true.
Proof. now apply key_eqb_eq. Qed.

Lemma dict_find_set (k k' v : option string) (d : Osm.dict) :
  Osm.dict_find k' (Osm.dict_set k v d) =
    if Osm.key_eqb k' k then Some v else Osm.dict_find k' d.
Proof.
  induction d as [|[k0 v0] d IH]; cbn [Osm.dict_set Osm.dict_find].
  - reflexivity.
  - destruct (Osm.key_eqb k k0) eqn:E; cbn [Osm.dict_find].
    + apply key_eqb_eq in E. subst k0.
      now destruct (Osm.key_eqb k' k).
    + rewrite IH. destruct (Osm.key_eqb k' k0) eqn:E0; [ | reflexivity ].
      apply key_eqb_eq in E0. subst k0.
      destruct (Osm.key_eqb k' k) eqn:E1; [ | reflexivity ].
      apply key_eqb_eq in E1. subst k'. now rewrite key_eqb_refl in E.
Qed.

(** The binding of a key in the dictionary built from a list of [tag]
    elements is the value of the last of them that has the key. *)
Lemma tags_of_snoc (ts : list Xml.element) (t : Xml.element)
    (k : option string) :
  Osm.dict_find k
    (fold_left (fun d tag => Osm.dict_set (Xml.get tag "k") (Xml.get tag "v") d)
               (ts ++ [t]) [])
  = if Osm.key_eqb k (Xml.get t "k") then Some (Xml.get t "v")
    else Osm.dict_find k
           (fold_left (fun d tag =>
                         Osm.dict_set (Xml.get tag "k") (Xml.get tag "v") d)
                      ts []).
Proof. rewrite fold_left_app. cbn [fold_left]. apply dict_find_set. Qed.

(** X14.  The tags of a node as both OSM scripts read them: a key is
    in the dictionary exactly when a [tag] child of the node has it,
    and its value is that of the last such child, so that of two tags
    with the same key the later one wins. *)
Theorem node_tags_keep_the_last_value
    (name : string) (attrib : list (string * string))
    (children : list Xml.element) (key : string) :
  let node := Xml.Element name attrib children in
  let with_key :=
    filter (fun t => Osm.key_eqb (Some key) (Xml.get t "k"))
           (Xml.findall "tag" node) in
  (Osm.has_key key (Osm.node_tags node) = true <-> with_key <> []) /\
  (forall t, last (map Some with_key) None = Some t ->
             Osm.dict_get key (Osm.node_tags node) = Xml.get t "v") /\
  (with_key = [] -> Osm.dict_get key (Osm.node_tags node) = None).
Proof.
  cbv zeta. unfold Osm.has_key, Osm.dict_get, Osm.node_tags.
  generalize (Xml.findall "tag" (Xml.Element name attrib children)).
  intros ts.
  assert (H : Osm.dict_find (Some key)
                (fold_left (fun d tag =>
                   Osm.dict_set (Xml.get tag "k") (Xml.get tag "v") d) ts [])
              = match last (map Some
                        (filter (fun t => Osm.key_eqb (Some key) (Xml.get t "k"))
                                ts)) None with
                | Some t => Some (Xml.get t "v")
                | None => None
                end).
  { induction ts as [|t ts IH] using rev_ind; [ reflexivity | ].
    rewrite tags_of_snoc, filter_app, map_app. cbn [filter].
    destruct (Osm.key_eqb (Some key) (Xml.get t "k")).
    - cbn [map]. now rewrite last_last.
    - cbn [map]. now rewrite app_nil_r. }
  rewrite H. clear H.
  set (l := filter _ ts).
  split; [ | split ].
  - destruct l as [|t l] using rev_ind; cbn; [ split; [ discriminate | easy ] | ].
    rewrite map_app. cbn [map]. rewrite last_last.
    split; [ intros _ E; now destruct l | reflexivity ].
  - intros t Ht. now rewrite Ht.
  - intros ->. reflexivity.
Qed.

(* ------------------------------------------------------------------ *)
(** ** Merging the tiles *)

Lemma seen_In (id : option string) (l : list (option string)) :
  Osm.seen id l = true <-> In id l.
Proof.
  unfold Osm.seen. rewrite existsb_exists. split.
  - intros (x & Hx & E). apply key_eqb_eq in E. now subst.
  - intros H. exists id. split; [ exact H | apply key_eqb_refl ].
Qed.

Lemma ids_app (a b : list Xml.element) :
  Osm.ids (a ++ b) = (Osm.ids a ++ Osm.ids b)%list.
Proof. apply map_app. Qed.

Lemma add_nodes_merged (todo : list Xml.element) :
  forall past merged seen_ids,
    Osm.merged_from past merged seen_ids ->
    Osm.merged_from (past ++ todo)
      (fst (Osm.add_nodes todo merged seen_ids))
      (snd (Osm.add_nodes todo merged seen_ids)).
Proof.
  induction todo as [|n todo IH]; intros past merged seen_ids HJ;
    cbn [Osm.add_nodes].
  - now rewrite app_nil_r.
  - replace (past ++ n :: todo)%list with ((past ++ [n]) ++ todo)%list
      by (now rewrite <- app_assoc).
    destruct HJ as (Hnd & Hseen & Hids & Hfirst).
    destruct (Osm.seen (Xml.get n "id") seen_ids) eqn:Es; cbn [negb];
      apply IH.
    + (* an identifier met before *)
      apply Hseen in Es.
      split; [ exact Hnd | ]. split; [ exact Hseen | ]. split.
      * intros id. rewrite ids_app, in_app_iff, <- Hids. cbn.
        split; [ tauto | ]. intros [H|[<-|[]]]; assumption.
      * intros k Hk. destruct (Hfirst k Hk) as (before & after & -> & Hb).
        exists before, (after ++ [n])%list.
        split; [ now rewrite <- app_assoc | exact Hb ].
    + (* a new identifier *)
      assert (Hnew : ~ In (Xml.get n "id") (Osm.ids merged)).
      { intros H. apply Hseen in H. congruence. }
      split; [ | split; [ | split ] ].
      * rewrite ids_app. cbn [Osm.ids map].
        apply (Permutation_NoDup (Permutation_cons_append _ _)).
        now constructor.
      * intros id. cbn [Osm.seen existsb]. rewrite orb_true_iff.
        fold (Osm.seen id seen_ids). rewrite Hseen, ids_app, in_app_iff.
        cbn. rewrite key_eqb_eq. intuition congruence.
      * intros id. rewrite !ids_app, !in_app_iff, Hids. tauto.
      * intros k Hk. apply in_app_or in Hk. destruct Hk as [Hk|[<-|[]]].
        -- destruct (Hfirst k Hk) as (before & after & -> & Hb).
           exists before, (after ++ [n])%list.
           split; [ now rewrite <- app_assoc | exact Hb ].
        -- exists past, []. split; [ reflexivity | ].
           now rewrite <- Hids.
Qed.

Lemma is_parse_error_eq (e : exn) :
  Osm.is_parse_error e = true <-> e = Osm.ParseError.
Proof.
  destruct e as [| | | | |msg]; cbn; try (split; discriminate).
  rewrite String.eqb_eq. unfold Osm.ParseError. split; congruence.
Qed.

Section Merging.
Variable fromstring : string -> result Xml.element.

Lemma merge_tiles_merged (tiles_data : list string) :
  forall past merged seen_ids result,
    Osm.merged_from past merged seen_ids ->
    Osm.merge_tiles fromstring tiles_data merged seen_ids = Ok result ->
    exists seen_ids',
      Osm.merged_from (past ++ Osm.tile_nodes fromstring tiles_data)
        result seen_ids'.
Proof.
  induction tiles_data as [|tile rest IH]; intros past merged seen_ids result HJ;
    cbn [Osm.merge_tiles Osm.tile_nodes].
  - intros [= <-]. rewrite app_nil_r. eauto.
  - destruct tile as [|c tile]; [ now apply IH | ].
    destruct (fromstring (String c tile)) as [tile_root|e].
    + pose proof (add_nodes_merged (Xml.findall_beneath "node" tile_root)
                    past merged seen_ids HJ) as HJ'.
      destruct (Osm.add_nodes _ merged seen_ids) as [merged' seen_ids'].
      cbn [fst snd] in HJ'. rewrite app_assoc. now apply IH.
    + destruct (Osm.is_parse_error e); [ now apply IH | discriminate ].
Qed.

Lemma merge_tiles_raises (tiles_data : list string) :
  forall merged seen_ids e,
    Osm.merge_tiles fromstring tiles_data merged seen_ids = Raise e ->
    e <> Osm.ParseError /\
    exists tile, In tile tiles_data /\ tile <> "" /\
                 fromstring tile = Raise e.
Proof.
  induction tiles_data as [|tile rest IH]; intros merged seen_ids e;
    cbn [Osm.merge_tiles]; [ discriminate | ].
  assert (Hrest : forall m s,
            Osm.merge_tiles fromstring rest m s = Raise e ->
            e <> Osm.ParseError /\
            exists t, In t (tile :: rest) /\ t <> "" /\
                      fromstring t = Raise e).
  { intros m s H. destruct (IH m s e H) as (Hne & t & Hin & Ht & Hf).
    split; [ exact Hne | ]. exists t. split; [ now right | auto ]. }
  destruct tile as [|c tile]; [ apply Hrest | ].
  destruct (fromstring (String c tile)) as [tile_root|e0] eqn:Ef.
  - destruct (Osm.add_nodes _ merged seen_ids) as [merged' seen_ids'].
    apply Hrest.
  - destruct (Osm.is_parse_error e0) eqn:E; [ apply Hrest | ].
    intros [= <-]. split.
    + intros H. apply is_parse_error_eq in H. congruence.
    + exists (String c tile). split; [ now left | ].
      split; [ discriminate | exact Ef ].
Qed.

Lemma merge_tiles_returns (tiles_data : list string) :
  (forall tile e, In tile tiles_data -> tile <> "" ->
                  fromstring tile = Raise e -> e = Osm.ParseError) ->
  forall merged seen_ids,
    exists result,
      Osm.merge_tiles fromstring tiles_data merged seen_ids = Ok result.
Proof.
  intros Hall merged seen_ids.
  destruct (Osm.merge_tiles fromstring tiles_data merged seen_ids)
    as [result|e] eqn:E; [ eauto | ].
  destruct (merge_tiles_raises _ _ _ _ E) as (Hne & tile & Hin & Ht & Hf).
  elim Hne. exact (Hall tile e Hin Ht Hf).
Qed.

End Merging.

Lemma merged_from_nothing : Osm.merged_from [] [] [].
Proof.
  split; [ constructor | ]. split; [ | split ].
  - intros id. cbn. split; [ discriminate | intros [] ].
  - reflexivity.
  - intros k [].
Qed.

(** X15.  The tree [merge_osm_tiles] returns has, under an [osm] root
    of version 0.6, one node for each identifier that occurs among the
    nodes of the tiles: no two of its nodes have the same identifier,
    and the node it keeps for an identifier is the first one in the
    order of the tiles and of their documents. *)
Theorem merge_keeps_the_first_node_of_each_id
    (fromstring : string -> result Xml.element) (tiles_data : list string)
    (tree : Xml.element) :
  Osm.merge_osm_tiles fromstring tiles_data = Ok tree ->
  let merged := Xml.children_of tree in
  let nodes := Osm.tile_nodes fromstring tiles_data in
  tree = Osm.osm_root merged /\
  NoDup (Osm.ids merged) /\
  (forall id, In id (Osm.ids merged) <-> In id (Osm.ids nodes)) /\
  (forall k, In k merged ->
     exists before after,
       nodes = (before ++ k :: after)%list /\
       ~ In (Xml.get k "id") (Osm.ids before)).
Proof.
  unfold Osm.merge_osm_tiles. intros H.
  destruct (Osm.merge_tiles fromstring tiles_data [] []) as [merged|e] eqn:E;
    cbn [bind] in H; [ | discriminate ].
  injection H as <-. cbn [Xml.children_of Osm.osm_root].
  destruct (merge_tiles_merged fromstring tiles_data [] [] [] merged
              merged_from_nothing E) as (seen_ids & Hn & _ & Hi & Hf).
  cbn [app] in Hi, Hf. auto.
Qed.

Lemma merge_keeps_the_first_node_of_each_id_witness :
  Osm.merge_osm_tiles OsmSample.fromstring ["a"; ""; "zzz"; "b"]
  = Ok (Osm.osm_root [OsmSample.stop_1; OsmSample.signal_2;
                      OsmSample.lamp_3; OsmSample.sign_4]).
Proof.
  assert (H : Osm.merge_osm_tiles OsmSample.fromstring ["a"; ""; "zzz"; "b"]
              = Ok (Osm.osm_root [OsmSample.stop_1; OsmSample.signal_2;
                                  OsmSample.lamp_3; OsmSample.sign_4]))
    by (vm_compute; reflexivity).
  destruct (merge_keeps_the_first_node_of_each_id _ _ _ H) as [_ _].
  exact H.
Defined.

(** X16.  [merge_osm_tiles] passes over a tile that is empty and a
    tile that does not parse: it raises only what [ET.fromstring]
    raises other than [ParseError], on a tile that is not empty, and
    so returns a tree whenever the tiles raise nothing else; without
    any tile that parses the tree has no node. *)
Theorem merge_passes_over_bad_tiles
    (fromstring : string -> result Xml.element) (tiles_data : list string) :
  (forall e,
     Osm.merge_osm_tiles fromstring tiles_data = Raise e ->
     e <> Osm.ParseError /\
     exists tile, In tile tiles_data /\ tile <> "" /\
                  fromstring tile = Raise e) /\
  ((forall tile e, In tile tiles_data -> tile <> "" ->
                   fromstring tile = Raise e -> e = Osm.ParseError) ->
   exists tree, Osm.merge_osm_tiles fromstring tiles_data = Ok tree) /\
  ((forall tile, In tile tiles_data ->
                 tile = "" \/ fromstring tile = Raise Osm.ParseError) ->
   Osm.merge_osm_tiles fromstring tiles_data = Ok (Osm.osm_root [])).
Proof.
  unfold Osm.merge_osm_tiles. split; [ | split ].
  - intros e H.
    destruct (Osm.merge_tiles fromstring tiles_data [] []) as [merged|e0] eqn:E;
      cbn [bind] in H; [ discriminate | ].
    injection H as <-. exact (merge_tiles_raises _ _ _ _ _ E).
  - intros Hall.
    destruct (merge_tiles_returns fromstring tiles_data Hall [] [])
      as [merged ->].
    cbn [bind]. eauto.
  - intros Hall.
    assert (H : forall m s, Osm.merge_tiles fromstring tiles_data m s = Ok m).
    { induction tiles_data as [|tile rest IH]; intros m s;
        cbn [Osm.merge_tiles]; [ reflexivity | ].
      assert (Hrest : forall tile, In tile rest ->
                tile = "" \/ fromstring tile = Raise Osm.ParseError)
        by (intros t Ht; apply Hall; now right).
      destruct (Hall tile (or_introl eq_refl)) as [->|Hf];
        [ now apply IH | ].
      destruct tile as [|c tile]; [ now apply IH | ].
      rewrite Hf. cbn. now apply IH. }
    now rewrite H.
Qed.

(* ------------------------------------------------------------------ *)
(** ** Parsing the nodes for the ingestion *)

Section Parsing.
Variable parse_file : string -> result Xml.element.
Variable float_of_text : string -> result float.

Lemma parse_nodes_returns (todo : list Xml.element) :
  forall nodes result,
    Osm.parse_nodes float_of_text todo nodes = Ok result ->
    Forall (Osm.readable float_of_text) todo /\
    exists new,
      result = (nodes ++ new)%list /\
      Forall2 (Osm.osm_of float_of_text) (filter Osm.is_sign todo) new.
Proof.
  induction todo as [|n todo IH]; intros nodes result;
    cbn [Osm.parse_nodes filter].
  - intros [= <-]. split; [ constructor | ].
    exists []. rewrite app_nil_r. split; [ reflexivity | constructor ].
  - destruct (Osm.float_attr float_of_text n "lat") as [la|e] eqn:Ela;
      cbn [bind]; [ | discriminate ].
    destruct (Osm.float_attr float_of_text n "lon") as [lo|e] eqn:Elo;
      cbn [bind]; [ | discriminate ].
    assert (Hn : Osm.readable float_of_text n) by (exists la, lo; auto).
    fold (Osm.is_sign n). destruct (Osm.is_sign n); intros H.
    + destruct (IH _ _ H) as (Hall & new & -> & Hnew).
      split; [ now constructor | ].
      eexists (_ :: new). rewrite <- app_assoc. split; [ reflexivity | ].
      constructor; [ | exact Hnew ]. repeat split; assumption.
    + destruct (IH _ _ H) as (Hall & new & -> & Hnew).
      split; [ now constructor | eauto ].
Qed.

Lemma parse_nodes_raises (todo : list Xml.element) :
  forall nodes e,
    Osm.parse_nodes float_of_text todo nodes = Raise e ->
    exists before n after,
      todo = (before ++ n :: after)%list /\
      Forall (Osm.readable float_of_text) before /\
      (Osm.float_attr float_of_text n "lat" = Raise e \/
       (exists la, Osm.float_attr float_of_text n "lat" = Ok la) /\
       Osm.float_attr float_of_text n "lon" = Raise e).
Proof.
  induction todo as [|n todo IH]; intros nodes e;
    cbn [Osm.parse_nodes]; [ discriminate | ].
  destruct (Osm.float_attr float_of_text n "lat") as [la|e0] eqn:Ela;
    cbn [bind].
  2:{ intros [= <-]. exists [], n, todo. repeat split; auto. }
  destruct (Osm.float_attr float_of_text n "lon") as [lo|e0] eqn:Elo;
    cbn [bind].
  2:{ intros [= <-]. exists [], n, todo. repeat split; eauto. }
  assert (Hn : Osm.readable float_of_text n) by (exists la, lo; auto).
  intros H.
  assert (Hrest : exists nodes',
            Osm.parse_nodes float_of_text todo nodes' = Raise e)
    by (destruct (_ || _); eauto).
  destruct Hrest as [nodes' H'].
  destruct (IH _ _ H') as (before & m & after & -> & Hb & Hm).
  exists (n :: before), m, after. split; [ reflexivity | ].
  split; [ now constructor | exact Hm ].
Qed.

Lemma parse_nodes_total (todo : list Xml.element) :
  Forall (Osm.readable float_of_text) todo ->
  forall nodes, exists result,
    Osm.parse_nodes float_of_text todo nodes = Ok result.
Proof.
  intros Hall nodes.
  destruct (Osm.parse_nodes float_of_text todo nodes) as [r|e] eqn:E;
    [ eauto | ].
  destruct (parse_nodes_raises _ _ _ E)
    as (before & n & after & -> & _ & Hn).
  apply Forall_app in Hall. destruct Hall as [_ Hall].
  inversion Hall as [|? ? (la & lo & Hla & Hlo) _]; subst.
  destruct Hn as [Hn|[_ Hn]]; congruence.
Qed.

End Parsing.

Lemma Forall2_In_r {A B} (R : A -> B -> Prop) (l : list A) (l' : list B)
    (b : B) :
  Forall2 R l l' -> In b l' -> exists a, In a l /\ R a b.
Proof.
  induction 1 as [|x y l l' Hxy H IH]; cbn; [ intros [] | ].
  intros [<-|Hb]; [ eauto | ].
  destruct (IH Hb) as (a & Ha & Hab). eauto.
Qed.

(** X17.  When [parse_osm_xml] returns, every node of the file, at
    any depth, has a latitude and a longitude that [float] reads, and
    the list returned holds, in document order, one dictionary for
    each node that has a [traffic_sign] or a [highway] tag: the
    identifier, the two coordinates and the tags of the node, with the
    [traffic_sign] value as type when there is one that is not empty,
    and else the [highway] value, or [unknown] without that key. *)
Theorem parse_osm_xml_returns_the_tagged_nodes
    (parse_file : string -> result Xml.element)
    (float_of_text : string -> result float)
    (xml_file : string) (nodes : list Osm.OsmNode) :
  Osm.parse_osm_xml parse_file float_of_text xml_file = Ok nodes ->
  exists root,
    parse_file xml_file = Ok root /\
    let all := Xml.findall_beneath "node" root in
    Forall (Osm.readable float_of_text) all /\
    Forall2 (Osm.osm_of float_of_text) (filter Osm.is_sign all) nodes /\
    (forall osm, In osm nodes ->
       Osm.has_key "traffic_sign" (Osm.tags osm) = true \/
       Osm.has_key "highway" (Osm.tags osm) = true).
Proof.
  unfold Osm.parse_osm_xml. intros H.
  destruct (parse_file xml_file) as [root|e]; cbn [bind] in H;
    [ | discriminate ].
  exists root. split; [ reflexivity | ]. cbv zeta.
  destruct (parse_nodes_returns _ _ _ _ H) as (Hall & new & -> & Hnew).
  cbn [app]. split; [ exact Hall | ]. split; [ exact Hnew | ].
  intros osm Hosm.
  destruct (Forall2_In_r _ _ _ _ Hnew Hosm) as (n & Hn & Hno).
  apply filter_In in Hn. destruct Hn as [_ Hsign].
  destruct Hno as (_ & _ & _ & -> & _).
  unfold Osm.is_sign in Hsign. now apply orb_prop in Hsign.
Qed.

Lemma parse_osm_xml_returns_the_tagged_nodes_witness :
  exists nodes,
    Osm.parse_osm_xml OsmSample.parse_file OsmSample.float_of_text
      "toronto_full.osm" = Ok nodes /\
    map Osm.osm_id nodes = [Some "1"; Some "2"; Some "3"; Some "4"] /\
    map Osm.osm_type nodes =
      [Some "stop"; Some "traffic_signals"; Some "street_lamp"; Some "stop"].
Proof.
  eexists.
  assert (H : Osm.parse_osm_xml OsmSample.parse_file OsmSample.float_of_text
                "toronto_full.osm" = Ok _) by (vm_compute; reflexivity).
  split; [ exact H | ].
  destruct (parse_osm_xml_returns_the_tagged_nodes _ _ _ _ H) as [_ _].
  split; reflexivity.
Defined.

(** X18.  [parse_osm_xml] converts the coordinates of a node before it
    looks at its tags: the first node of the file, in document order,
    whose latitude or longitude is missing ([TypeError]) or is not
    read by [float] ([ValueError]) ends the parsing with that error,
    whether or not the node is a traffic sign, and nothing is
    returned; the parsing returns whenever the file parses and every
    node has coordinates that [float] reads. *)
Theorem parse_osm_xml_stops_at_the_first_bad_node
    (parse_file : string -> result Xml.element)
    (float_of_text : string -> result float) (xml_file : string) :
  (forall e,
     Osm.parse_osm_xml parse_file float_of_text xml_file = Raise e ->
     parse_file xml_file = Raise e \/
     exists root before n after,
       parse_file xml_file = Ok root /\
       Xml.findall_beneath "node" root = (before ++ n :: after)%list /\
       Forall (Osm.readable float_of_text) before /\
       (Osm.float_attr float_of_text n "lat" = Raise e \/
        (exists la, Osm.float_attr float_of_text n "lat" = Ok la) /\
        Osm.float_attr float_of_text n "lon" = Raise e)) /\
  (forall root before n after,
     parse_file xml_file = Ok root ->
     Xml.findall_beneath "node" root = (before ++ n :: after)%list ->
     Forall (Osm.readable float_of_text) before ->
     (Xml.get n "lat" = None \/
      exists la, Osm.float_attr float_of_text n "lat" = Ok la /\
                 Xml.get n "lon" = None) ->
     Osm.parse_osm_xml parse_file float_of_text xml_file
     = Raise Osm.TypeError) /\
  (forall root,
     parse_file xml_file = Ok root ->
     Forall (Osm.readable float_of_text) (Xml.findall_beneath "node" root) ->
     exists nodes,
       Osm.parse_osm_xml parse_file float_of_text xml_file = Ok nodes).
Proof.
  unfold Osm.parse_osm_xml. split; [ | split ].
  - intros e H.
    destruct (parse_file xml_file) as [root|e0]; cbn [bind] in H.
    + right. destruct (parse_nodes_raises _ _ _ _ H)
        as (before & n & after & Htodo & Hb & Hn).
      exists root, before, n, after. auto.
    + injection H as <-. now left.
  - intros root before n after Hp Hf Hb Hn. rewrite Hp. cbn [bind].
    rewrite Hf. clear Hf.
    assert (Hgo : forall nodes,
              Osm.parse_nodes float_of_text (before ++ n :: after) nodes
              = Raise Osm.TypeError).
    { induction Hb as [|m before (la & lo & Hla & Hlo) _ IH]; intros nodes;
        cbn [app Osm.parse_nodes].
      - destruct Hn as [Hn|(la & Hla & Hn)].
        + unfold Osm.float_attr. now rewrite Hn.
        + rewrite Hla. cbn [bind]. unfold Osm.float_attr. now rewrite Hn.
      - rewrite Hla, Hlo. cbn [bind]. destruct (_ || _); apply IH. }
    apply Hgo.
  - intros root Hp Hall. rewrite Hp. cbn [bind].
    now apply parse_nodes_total.
Qed.

(* ------------------------------------------------------------------ *)
(** ** Filtering the traffic nodes *)

Lemma among_has_key (k : string) (d : Osm.dict) (values : list string) :
  Osm.among (Osm.dict_get k d) values = true -> Osm.has_key k d = true.
Proof.
  unfold Osm.dict_get, Osm.has_key.
  destruct (Osm.dict_find (Some k) d); [ reflexivity | discriminate ].
Qed.

(** The first test of [filter_traffic_signs], on five keys, changes
    nothing: a node is kept exactly when its [highway] value is one of
    the four kept values or it has a [traffic_sign] key. *)
Lemma kept_iff (node : Xml.element) :
  Osm.kept node =
    Osm.among (Osm.dict_get "highway" (Osm.node_tags node)) Osm.kept_highways
    || Osm.has_key "traffic_sign" (Osm.node_tags node).
Proof.
  unfold Osm.kept. fold Osm.kept_highways.
  set (tags := Osm.node_tags node).
  destruct (Osm.among (Osm.dict_get "highway" tags) Osm.kept_highways) eqn:Eh.
  - apply among_has_key in Eh. cbn [existsb orb].
    rewrite Eh. now rewrite orb_true_r.
  - cbn [existsb orb].
    destruct (Osm.has_key "traffic_sign" tags); [ reflexivity | ].
    now destruct (_ || _).
Qed.

Lemma kept_is_sign (node : Xml.element) :
  Osm.kept node = true -> Osm.is_sign node = true.
Proof.
  rewrite kept_iff. unfold Osm.is_sign. intros H.
  apply orb_prop in H. destruct H as [H|H].
  - apply among_has_key in H. rewrite H. apply orb_true_r.
  - now rewrite H.
Qed.

Lemma filter_nodes_eq (todo : list Xml.element) :
  forall filtered traffic_count,
    Osm.filter_nodes todo filtered traffic_count =
      ((filtered ++ filter Osm.kept todo)%list,
       traffic_count + Z.of_nat (List.length (filter Osm.kept todo))).
Proof.
  induction todo as [|n todo IH]; intros filtered traffic_count;
    cbn [Osm.filter_nodes filter].
  - now rewrite app_nil_r, Z.add_0_r.
  - destruct (Osm.kept n); rewrite IH.
    + rewrite <- app_assoc. cbn [app List.length]. f_equal. lia.
    + reflexivity.
Qed.

Lemma filter_keeps_signs_and_four_highways_facts
    (parse_file : string -> result Xml.element)
    (write_file : Xml.element -> string -> result unit)
    (input_file output_file : string) (tree : Xml.element) (count : Z) :
  Osm.filter_traffic_signs parse_file write_file input_file output_file
    = Ok (tree, count) ->
  exists root,
    parse_file input_file = Ok root /\
    tree = Osm.osm_root (Xml.children_of tree) /\
    Xml.children_of tree
      = filter Osm.kept (Xml.findall_beneath "node" root) /\
    count = Z.of_nat (List.length (Xml.children_of tree)).
Proof.
  unfold Osm.filter_traffic_signs. intros H.
  destruct (parse_file input_file) as [root|e]; cbn [bind] in H;
    [ | discriminate ].
  rewrite filter_nodes_eq in H. cbn [app] in H.
  destruct (write_file _ output_file) as [[]|e]; cbn [bind] in H;
    [ | discriminate ].
  injection H as <- <-. exists root. cbn [Xml.children_of Osm.osm_root].
  repeat split; auto.
Qed.

(** X19.  [filter_traffic_signs] writes, under an [osm] root of
    version 0.6, the nodes of the input, at any depth and in document
    order, whose [highway] value is [traffic_signals], [stop],
    [give_way] or [speed_camera] or that have a [traffic_sign] key,
    and returns their number.  The keys [traffic_signals], [direction]
    and [maxspeed] of its first test keep no node by themselves, nor
    does another value of [highway]. *)
Theorem filter_keeps_signs_and_four_highways
    (parse_file : string -> result Xml.element)
    (write_file : Xml.element -> string -> result unit)
    (input_file output_file : string) (tree : Xml.element) (count : Z) :
  Osm.filter_traffic_signs parse_file write_file input_file output_file
    = Ok (tree, count) ->
  exists root,
    parse_file input_file = Ok root /\
    write_file tree output_file = Ok tt /\
    tree = Osm.osm_root (Xml.children_of tree) /\
    Xml.children_of tree =
      filter (fun node =>
                Osm.among (Osm.dict_get "highway" (Osm.node_tags node))
                          ["traffic_signals"; "stop"; "give_way";
                           "speed_camera"]
                || Osm.has_key "traffic_sign" (Osm.node_tags node))
             (Xml.findall_beneath "node" root) /\
    count = Z.of_nat (List.length (Xml.children_of tree)).
Proof.
  unfold Osm.filter_traffic_signs. intros H.
  destruct (parse_file input_file) as [root|e]; cbn [bind] in H;
    [ | discriminate ].
  rewrite filter_nodes_eq in H. cbn [app] in H.
  destruct (write_file _ output_file) as [[]|e] eqn:Ew; cbn [bind] in H;
    [ | discriminate ].
  injection H as <- <-. exists root. cbn [Xml.children_of Osm.osm_root].
  split; [ reflexivity | ]. split; [ exact Ew | ].
  split; [ reflexivity | ]. split; [ | lia ].
  apply filter_ext. intros n. apply kept_iff.
Qed.

Lemma filter_keeps_signs_and_four_highways_witness :
  Osm.filter_traffic_signs OsmSample.parse_file OsmSample.write_file
    "toronto_full.osm" "toronto_traffic.xml"
  = Ok (Osm.osm_root [OsmSample.stop_1; OsmSample.signal_2;
                      OsmSample.sign_4], 3).
Proof.
  assert (H : Osm.filter_traffic_signs OsmSample.parse_file
                OsmSample.write_file "toronto_full.osm" "toronto_traffic.xml"
              = Ok (Osm.osm_root [OsmSample.stop_1; OsmSample.signal_2;
                                  OsmSample.sign_4], 3))
    by (vm_compute; reflexivity).
  destruct (filter_keeps_signs_and_four_highways _ _ _ _ _ _ H) as [_ _].
  exact H.
Defined.

Lemma findall_beneath_tag (tag : string) (e n : Xml.element) :
  In n (Xml.findall_beneath tag e) -> Xml.tag_of n = tag.
Proof.
  unfold Xml.findall_beneath. intros H. apply filter_In in H.
  destruct H as [_ H]. now apply String.eqb_eq in H.
Qed.

(** The nodes beneath a root whose children are nodes without a node
    beneath them are these children. *)
Lemma findall_beneath_flat (name : string) (attrib : list (string * string))
    (nodes : list Xml.element) :
  Forall (fun n => Xml.tag_of n = "node" /\
                   Xml.findall_beneath "node" n = []) nodes ->
  Xml.findall_beneath "node" (Xml.Element name attrib nodes) = nodes.
Proof.
  unfold Xml.findall_beneath at 2. cbn [Xml.children_of].
  induction 1 as [|n nodes [Htag Hbelow] _ IH]; cbn [flat_map];
    [ reflexivity | ].
  rewrite filter_app, IH. destruct n as [t a cs].
  cbn [Xml.iter filter Xml.tag_of] in *. rewrite Htag. cbn [String.eqb].
  unfold Xml.findall_beneath in Hbelow. cbn [Xml.children_of] in Hbelow.
  rewrite Hbelow. reflexivity.
Qed.

(** X20.  What [filter_traffic_signs] writes, [parse_osm_xml] returns
    whole: when the file it reads is the tree that was written, the
    nodes of that tree hold no further node, and their coordinates
    are read by [float], the parsing returns one dictionary for each
    node of the tree, in order, so as many as the count the filter
    returned (the number its [main] announces for the ingestion). *)
Theorem ingestion_returns_what_the_filter_counted
    (parse_file : string -> result Xml.element)
    (write_file : Xml.element -> string -> result unit)
    (float_of_text : string -> result float)
    (input_file output_file : string) (tree : Xml.element) (count : Z) :
  Osm.filter_traffic_signs parse_file write_file input_file output_file
    = Ok (tree, count) ->
  parse_file output_file = Ok tree ->
  Forall (fun n => Xml.findall_beneath "node" n = [] /\
                   Osm.readable float_of_text n) (Xml.children_of tree) ->
  exists nodes,
    Osm.parse_osm_xml parse_file float_of_text output_file = Ok nodes /\
    Z.of_nat (List.length nodes) = count /\
    Forall2 (Osm.osm_of float_of_text) (Xml.children_of tree) nodes.
Proof.
  intros Hfilter Hread Hnodes.
  destruct (filter_keeps_signs_and_four_highways_facts
              parse_file write_file input_file output_file tree count Hfilter)
    as (root & Hroot & Htree & Hkept & Hcount).
  unfold Osm.parse_osm_xml. rewrite Hread. cbn [bind].
  assert (Hflat : Xml.findall_beneath "node" tree = Xml.children_of tree).
  { rewrite Htree at 1. unfold Osm.osm_root. apply findall_beneath_flat.
    rewrite Forall_forall in Hnodes |- *. intros n Hn.
    split; [ | apply (Hnodes n Hn) ].
    rewrite Hkept in Hn. apply filter_In in Hn. destruct Hn as [Hn _].
    exact (findall_beneath_tag _ _ _ Hn). }
  rewrite Hflat.
  assert (Hall : Forall (Osm.readable float_of_text) (Xml.children_of tree)).
  { eapply Forall_impl; [ | exact Hnodes ]. cbn. tauto. }
  destruct (parse_nodes_total float_of_text _ Hall []) as [nodes Hparse].
  exists nodes. split; [ exact Hparse | ].
  destruct (parse_nodes_returns _ _ _ _ Hparse) as (_ & new & -> & Hnew).
  cbn [app] in *.
  assert (Hsigns : filter Osm.is_sign (Xml.children_of tree)
                   = Xml.children_of tree).
  { rewrite Hkept. clear.
    induction (Xml.findall_beneath "node" root) as [|n l IH];
      cbn [filter]; [ reflexivity | ].
    destruct (Osm.kept n) eqn:E; [ | exact IH ].
    cbn [filter]. now rewrite (kept_is_sign n E), IH. }
  rewrite Hsigns in Hnew. split; [ | exact Hnew ].
  rewrite Hcount. f_equal. symmetry. exact (Forall2_length Hnew).
Qed.

Lemma ingestion_returns_what_the_filter_counted_witness :
  exists nodes,
    Osm.parse_osm_xml OsmSample.parse_file OsmSample.float_of_text
      "toronto_traffic.xml" = Ok nodes /\
    List.length nodes = 3%nat.
Proof.
  destruct (ingestion_returns_what_the_filter_counted
              OsmSample.parse_file OsmSample.write_file
              OsmSample.float_of_text
              "toronto_full.osm" "toronto_traffic.xml"
              (Osm.osm_root [OsmSample.stop_1; OsmSample.signal_2;
                             OsmSample.sign_4]) 3
              ltac:(vm_compute; reflexivity) eq_refl
              ltac:(repeat constructor;
                    eexists _, _; split; vm_compute; reflexivity))
    as (nodes & Hparse & Hlen & _).
  exists nodes. split; [ exact Hparse | lia ].
Defined.

(* ------------------------------------------------------------------ *)
(** ** The tiles of a bounding box *)

Lemma flt_irrefl (x : float) : Tiles.flt x x = false.
Proof.
  unfold Tiles.flt, SFltb, SFcompare.
  destruct x as [[]|[]| |[] m e]; try reflexivity;
    rewrite Z.compare_refl, Pos.compare_cont_refl; reflexivity.
Qed.

Lemma py_min_below (x m : float) : Tiles.flt m (Tiles.py_min x m) = false.
Proof.
  unfold Tiles.py_min. destruct (Tiles.flt m x) eqn:E;
    [ apply flt_irrefl | exact E ].
Qed.

Section TilesOfBox.
Variable min_lon max_lat max_lon tile_size : float.

Lemma row_tiles (turns : nat) : forall lat lon tiles,
  Tiles.row max_lat max_lon tile_size turns lat lon = Some tiles ->
  Forall (fun t =>
            let '(a, b, c, d) := t in
            a = lat /\ Tiles.flt b max_lon = true /\
            c = Tiles.py_min (fadd a tile_size) max_lat /\
            d = Tiles.py_min (fadd b tile_size) max_lon) tiles.
Proof.
  induction turns as [|turns IH]; intros lat lon tiles;
    cbn [Tiles.row]; [ discriminate | ].
  destruct (Tiles.flt lon max_lon) eqn:E.
  - destruct (Tiles.row _ _ _ turns lat _) as [rest|] eqn:Er;
      [ | discriminate ].
    intros [= <-]. constructor; [ auto | ]. exact (IH _ _ _ Er).
  - intros [= <-]. constructor.
Qed.

Lemma rows_tiles (turns : nat) : forall lat tiles,
  Tiles.rows min_lon max_lat max_lon tile_size turns lat = Some tiles ->
  Forall (fun t =>
            let '(a, b, c, d) := t in
            Tiles.flt a max_lat = true /\ Tiles.flt b max_lon = true /\
            c = Tiles.py_min (fadd a tile_size) max_lat /\
            d = Tiles.py_min (fadd b tile_size) max_lon) tiles.
Proof.
  induction turns as [|turns IH]; intros lat tiles;
    cbn [Tiles.rows]; [ discriminate | ].
  destruct (Tiles.flt lat max_lat) eqn:E; [ | intros [= <-]; constructor ].
  destruct (Tiles.row _ _ _ (S turns) lat min_lon) as [here|] eqn:Eh;
    [ | discriminate ].
  destruct (Tiles.rows _ _ _ _ turns _) as [above|] eqn:Ea;
    [ | discriminate ].
  intros [= <-]. apply Forall_app. split; [ | exact (IH _ _ Ea) ].
  eapply Forall_impl; [ | exact (row_tiles _ _ _ _ Eh) ].
  intros [[[a b] c] d] (-> & Hb & Hc & Hd). auto.
Qed.

Lemma fadd_zero_lt (x m : float) (s : bool) :
  Tiles.flt x m = true -> Tiles.flt (fadd x (S754_zero s)) m = true.
Proof.
  unfold Tiles.flt, fadd.
  destruct x as [sx|sx| |sx mx ex]; cbn [SFadd]; try (intros H; exact H).
  destruct sx, s; cbn; destruct m as [[]|[]| |[] mm em]; auto.
Qed.

Lemma row_never_ends (turns : nat) (s : bool) : forall lat lon,
  tile_size = S754_zero s ->
  Tiles.flt lon max_lon = true ->
  Tiles.row max_lat max_lon tile_size turns lat lon = None.
Proof.
  intros lat lon ->. revert lon.
  induction turns as [|turns IH]; intros lon Hlon; cbn [Tiles.row];
    [ reflexivity | ].
  rewrite Hlon. now rewrite (IH _ (fadd_zero_lt _ _ s Hlon)).
Qed.

(** A row begins at the longitude it is given. *)
Lemma row_first (turns : nat) (lat lon : float) (t : Tiles.tile)
    (rest : list Tiles.tile) :
  Tiles.row max_lat max_lon tile_size turns lat lon = Some (t :: rest) ->
  fst (fst (fst t)) = lat /\ snd (fst (fst t)) = lon.
Proof.
  destruct turns as [|turns]; cbn [Tiles.row]; [ discriminate | ].
  destruct (Tiles.flt lon max_lon); [ | discriminate ].
  destruct (Tiles.row _ _ _ turns lat _) as [more|]; [ | discriminate ].
  intros [= <- _]. split; reflexivity.
Qed.

(** The rows begin at the latitude they are given and at the lower
    longitude of the box. *)
Lemma rows_first (turns : nat) : forall lat t rest,
  Tiles.rows min_lon max_lat max_lon tile_size turns lat
    = Some (t :: rest) ->
  fst (fst (fst t)) = lat /\ snd (fst (fst t)) = min_lon.
Proof.
  destruct turns as [|turns]; intros lat t rest; cbn [Tiles.rows];
    [ discriminate | ].
  destruct (Tiles.flt lat max_lat); [ | discriminate ].
  destruct (Tiles.row _ _ _ (S turns) lat min_lon) as [here|] eqn:Eh;
    [ | discriminate ].
  destruct (Tiles.rows _ _ _ _ turns _) as [above|] eqn:Ea;
    [ | discriminate ].
  destruct here as [|t0 here]; cbn [app].
  - (* an empty row: the box has no longitude, and no row has a tile *)
    intros E. exfalso.
    assert (Hno : Tiles.flt min_lon max_lon = false).
    { cbn [Tiles.row] in Eh.
      destruct (Tiles.flt min_lon max_lon); [ | reflexivity ].
      destruct (Tiles.row _ _ _ turns lat _); discriminate. }
    assert (Hnone : forall n l tiles,
              Tiles.rows min_lon max_lat max_lon tile_size n l = Some tiles ->
              tiles = []).
    { induction n as [|n IH]; intros l tiles; cbn [Tiles.rows];
        [ discriminate | ].
      destruct (Tiles.flt l max_lat); [ | now intros [= <-] ].
      cbn [Tiles.row]. rewrite Hno.
      destruct (Tiles.rows _ _ _ _ n _) as [more|] eqn:Em;
        [ | discriminate ].
      intros [= <-]. cbn [app]. exact (IH _ _ Em). }
    rewrite (Hnone _ _ _ Ea) in E. discriminate.
  - intros [= <- _]. exact (row_first _ _ _ _ _ Eh).
Qed.

End TilesOfBox.

(** X21.  Every tile [create_tiles] returns starts strictly below the
    two upper bounds of the box, and ends at its start plus the tile
    size or at the upper bound of the box if that comes first, so that
    no tile reaches beyond the upper bounds of the box; the first tile
    starts at the lower corner of the box. *)
Theorem tiles_do_not_reach_beyond_the_box
    (turns : nat) (min_lat min_lon max_lat max_lon tile_size : float)
    (tiles : list Tiles.tile) :
  Tiles.create_tiles turns (min_lat, min_lon, max_lat, max_lon) tile_size
    = Some tiles ->
  (forall lat lon lat' lon', In (lat, lon, lat', lon') tiles ->
     Tiles.flt lat max_lat = true /\ Tiles.flt lon max_lon = true /\
     lat' = Tiles.py_min (fadd lat tile_size) max_lat /\
     lon' = Tiles.py_min (fadd lon tile_size) max_lon /\
     Tiles.flt max_lat lat' = false /\ Tiles.flt max_lon lon' = false) /\
  match tiles with
  | [] => True
  | (lat, lon, _, _) :: _ => lat = min_lat /\ lon = min_lon
  end.
Proof.
  unfold Tiles.create_tiles. intros H. split.
  - intros lat lon lat' lon' Hin.
    pose proof (rows_tiles _ _ _ _ _ _ _ H) as Hall.
    rewrite Forall_forall in Hall. specialize (Hall _ Hin). cbn in Hall.
    destruct Hall as (Ha & Hb & -> & ->).
    repeat split; auto using py_min_below.
  - destruct tiles as [|[[[lat lon] lat'] lon'] rest]; [ exact I | ].
    exact (rows_first _ _ _ _ _ _ _ _ H).
Qed.

Lemma tiles_do_not_reach_beyond_the_box_witness :
  let c := fun s => Str.lit s in
  exists tiles,
    Tiles.create_tiles 10
      (c "43.58", fneg (c "79.64"), c "43.61", fneg (c "79.61")) (c "0.02")
    = Some tiles /\
    List.length tiles = 4%nat /\
    Forall (fun t => Tiles.flt (c "43.61") (snd (fst t)) = false) tiles.
Proof.
  cbv zeta. eexists.
  assert (H : Tiles.create_tiles 10
                (Str.lit "43.58", fneg (Str.lit "79.64"),
                 Str.lit "43.61", fneg (Str.lit "79.61")) (Str.lit "0.02")
              = Some _) by (vm_compute; reflexivity).
  split; [ exact H | ]. split; [ reflexivity | ].
  apply Forall_forall. intros [[[a b] c] d] Hin.
  exact (proj1 (proj2 (proj2 (proj2 (proj2
    (proj1 (tiles_do_not_reach_beyond_the_box _ _ _ _ _ _ _ H)
       a b c d Hin)))))).
Defined.

(** X22.  With a tile size of zero [create_tiles] never returns on a
    box that is not empty: the longitude of the first row stays where
    it is, below the upper bound, and the inner loop goes on appending
    the same tile for ever. *)
Theorem zero_tile_size_never_returns
    (min_lat min_lon max_lat max_lon : float) (s : bool) :
  Tiles.flt min_lat max_lat = true ->
  Tiles.flt min_lon max_lon = true ->
  forall turns,
    Tiles.create_tiles turns (min_lat, min_lon, max_lat, max_lon)
      (S754_zero s) = None.
Proof.
  intros Hlat Hlon turns. unfold Tiles.create_tiles.
  destruct turns as [|turns]; cbn [Tiles.rows]; [ reflexivity | ].
  rewrite Hlat.
  now rewrite (row_never_ends max_lat max_lon (S754_zero s) (S turns) s
                 min_lat min_lon eq_refl Hlon).
Qed.

Lemma zero_tile_size_never_returns_witness :
  Tiles.create_tiles 1000
    (Str.lit "43.58", fneg (Str.lit "79.64"),
     Str.lit "43.86", fneg (Str.lit "79.12")) (Str.lit "0.0") = None.
Proof.
  exact (zero_tile_size_never_returns
           (Str.lit "43.58") (fneg (Str.lit "79.64"))
           (Str.lit "43.86") (fneg (Str.lit "79.12")) false
           eq_refl eq_refl 1000%nat).
Defined.

(* ------------------------------------------------------------------ *)
(** ** The retries of a download *)

Section Retries.
Variable post : nat -> Tiles.reply.
Variable is_request_exception : exn -> bool.

Lemma attempts_go_on (retry : Z) (k : nat) :
  forall left attempt net,
    0 <= attempt ->
    attempt + Z.of_nat k < retry ->
    (forall j, (j < k)%nat ->
       Tiles.caught is_request_exception
         (post (Tiles.requests net + j)) = true) ->
    Tiles.attempts post is_request_exception (k + left) attempt retry net
    = Tiles.attempts post is_request_exception left
        (attempt + Z.of_nat k) retry
        {| Tiles.requests := Tiles.requests net + k;
           Tiles.slept := Tiles.slept net + 2 * Z.of_nat k |}.
Proof.
  induction k as [|k IH]; intros left attempt net Ha Hk Hall.
  - cbn [Nat.add]. rewrite Z.add_0_r, Nat.add_0_r, Z.add_0_r.
    now destruct net.
  - cbn [Nat.add Tiles.attempts].
    pose proof (Hall 0%nat ltac:(lia)) as H0. rewrite Nat.add_0_r in H0.
    destruct (post (Tiles.requests net)) as [body|e]; [ discriminate | ].
    cbn [Tiles.caught] in H0. rewrite H0.
    assert (Hlt : (attempt <? retry - 1) = true) by (apply Z.ltb_lt; lia).
    rewrite Hlt. rewrite IH; cbn [Tiles.requests Tiles.slept]; try lia.
    + f_equal; [ lia | f_equal; lia ].
    + intros j Hj. specialize (Hall (S j) ltac:(lia)).
      now rewrite Nat.add_succ_r in Hall.
Qed.

Lemma attempts_bound (retry : Z) (left : nat) : forall attempt net,
  (Tiles.requests
     (fst (Tiles.attempts post is_request_exception left attempt retry net))
   <= Tiles.requests net + left)%nat.
Proof.
  induction left as [|left IH]; intros attempt net; cbn [Tiles.attempts].
  - cbn. lia.
  - destruct (post (Tiles.requests net)) as [body|e]; [ cbn; lia | ].
    destruct (is_request_exception e); [ | cbn; lia ].
    destruct (attempt <? retry - 1); [ | cbn; lia ].
    match goal with
    | |- context [Tiles.attempts _ _ left ?a retry ?n] =>
        specialize (IH a n)
    end.
    cbn [Tiles.requests Tiles.slept] in IH |- *. lia.
Qed.

End Retries.

(** X23.  [download_tile] asks at most [retry] times.  It returns the
    content of the first response that comes, after as many requests
    as that took and a pause of 2 seconds after each failure before
    it; an exception that is not a [RequestException] is not retried;
    when the last of the [retry] requests fails too, its exception is
    raised, without a pause after it.  With [retry <= 0] no request is
    made and [None] is returned. *)
Theorem download_tile_retries_request_errors
    (post : nat -> Tiles.reply) (is_request_exception : exn -> bool)
    (retry : Z) (net : Tiles.Net) :
  let run := Tiles.download_tile post is_request_exception retry net in
  let after k :=
    {| Tiles.requests := (Tiles.requests net + k + 1)%nat;
       Tiles.slept := Tiles.slept net + 2 * Z.of_nat k |} in
  (retry <= 0 -> run = (net, Ok None)) /\
  (forall k,
     Z.of_nat k < retry ->
     (forall j, (j < k)%nat ->
        Tiles.caught is_request_exception
          (post (Tiles.requests net + j)%nat) = true) ->
     (forall body,
        post (Tiles.requests net + k)%nat = Tiles.Content body ->
        run = (after k, Ok (Some body))) /\
     (forall e,
        post (Tiles.requests net + k)%nat = Tiles.Failed e ->
        is_request_exception e = false \/ Z.of_nat k = retry - 1 ->
        run = (after k, Raise e))) /\
  (Tiles.requests (fst run) <= Tiles.requests net + Z.to_nat retry)%nat.
Proof.
  cbv zeta. unfold Tiles.download_tile. split; [ | split ].
  - intros H. replace (Z.to_nat retry) with 0%nat by lia. reflexivity.
  - intros k Hk Hall.
    assert (Hsplit : Z.to_nat retry = (k + S (Z.to_nat retry - S k))%nat)
      by lia.
    rewrite Hsplit.
    rewrite (attempts_go_on post is_request_exception retry k _ 0 net
               ltac:(lia) ltac:(lia) Hall).
    cbn [Tiles.attempts Tiles.requests Tiles.slept]. split.
    + intros body ->. f_equal. f_equal. lia.
    + intros e -> He.
      assert (Hnet : forall s,
                {| Tiles.requests := S (Tiles.requests net + k);
                   Tiles.slept := s |}
                = {| Tiles.requests := Tiles.requests net + k + 1;
                     Tiles.slept := s |}) by (intros; f_equal; lia).
      destruct (is_request_exception e); [ | now rewrite Hnet ].
      destruct He as [He|He]; [ discriminate | ].
      assert (Hlt : (0 + Z.of_nat k <? retry - 1) = false)
        by (apply Z.ltb_ge; lia).
      rewrite Hlt. now rewrite Hnet.
  - apply attempts_bound.
Qed.

Lemma download_tile_retries_request_errors_witness :
  let post := fun k => match k with
                       | 5%nat => Tiles.Failed (LibraryError "Timeout")
                       | 6%nat => Tiles.Failed (LibraryError "HTTPError")
                       | _ => Tiles.Content "<osm/>"
                       end in
  Tiles.download_tile post (fun _ => true) 3
    {| Tiles.requests := 5; Tiles.slept := 0 |}
  = ({| Tiles.requests := 8; Tiles.slept := 4 |}, Ok (Some "<osm/>")).
Proof.
  cbv zeta.
  match goal with
  | |- Tiles.download_tile ?post ?c ?retry ?net = _ =>
      destruct (download_tile_retries_request_errors post c retry net)
        as (_ & H & _)
  end.
  destruct (H 2%nat ltac:(lia)) as [Hbody _].
  - intros [|[|j]] Hj; try reflexivity. lia.
  - exact (Hbody "<osm/>" eq_refl).
Defined.

(* ------------------------------------------------------------------ *)
(** ** The classes of the rows *)

Lemma is_target_In (self : Self) (box : Box) :
  is_target self box = true -> In (class_name box) (target_classes self).
Proof.
  unfold is_target. rewrite existsb_exists.
  intros (c & Hc & E). apply String.eqb_eq in E. now subst.
Qed.

Lemma detections_are_targets {V : Vision} (env : Env) (self : Self)
    (interval : Z) (fs : list image) : forall c d,
  In d (detections env self interval c fs) ->
  In (class_name (snd d)) (target_classes self).
Proof.
  unfold detections. intros c d Hd. apply in_flat_map in Hd.
  destruct Hd as ([i f] & _ & Hd). cbn [fst snd] in Hd.
  unfold frame_detections in Hd.
  destruct (i mod interval =? 0); [ | destruct Hd ].
  destruct (model env f _ _); [ | destruct Hd ].
  apply in_map_iff in Hd. destruct Hd as (box & <- & Hbox).
  apply filter_In in Hbox. cbn [snd]. now apply is_target_In.
Qed.

(** X24.  Every row of the CSV file of a run has a class of
    [self.target_classes]; boxes of other classes leave no row.  A
    pipeline built without a list of target classes, or with the
    empty list, has the two default classes, so that an empty list
    does not turn the detections off: every row is then a stop sign
    or a traffic light. *)
Theorem rows_have_target_classes_and_empty_list_is_default
    (V : Vision) (env : Env) (video : Video)
    (output_csv dir : string) (sample_fps : Z) :
  (forall self : Self,
     let '(_, o, _) :=
       process_video env self video output_csv dir sample_fps in
     forall row, In row (data_rows (csv o)) ->
                 In (row_class_name row) (target_classes self)) /\
  (forall device conf_threshold,
     init device conf_threshold (Some []) = init device conf_threshold None /\
     target_classes (init device conf_threshold None)
       = ["stop sign"; "traffic light"] /\
     (forall c cs,
        target_classes (init device conf_threshold (Some (c :: cs)))
        = c :: cs) /\
     let '(_, o, _) :=
       process_video env (init device conf_threshold (Some [])) video
         output_csv dir sample_fps in
     forall row, In row (data_rows (csv o)) ->
                 row_class_name row = "stop sign" \/
                 row_class_name row = "traffic light").
Proof.
  assert (Hrows : forall self : Self,
    let '(_, o, _) :=
      process_video env self video output_csv dir sample_fps in
    forall row, In row (data_rows (csv o)) ->
                In (row_class_name row) (target_classes self)).
  { intros self. unfold process_video.
    pose proof (run_video_rows env self output_csv dir sample_fps video
                  (inference_times self)) as H.
    cbv zeta in H.
    destruct (run_video env self video output_csv dir sample_fps
                (start (inference_times self))) as [s r].
    cbn [fst snd] in H.
    destruct H as [(e & f0 & [= -> ->])|(video_fps & done & rest & _ & He & Hf & _)];
      [ intros row [] | ].
    intros row Hrow.
    destruct (Forall2_In_l _ _ _ _ Hf Hrow) as ([[i frame] box] & Hd & Hr).
    destruct Hr as (_ & _ & _ & _ & _ & -> & _).
    apply (detections_are_targets env self
             (frame_interval_of video_fps sample_fps) (frames video) 0
             (i, frame, box)).
    rewrite He. apply in_or_app. now left. }
  split; [ exact Hrows | ].
  intros device conf. split; [ reflexivity | ].
  split; [ reflexivity | ]. split; [ reflexivity | ].
  specialize (Hrows (init device conf (Some []))).
  destruct (process_video env (init device conf (Some [])) video
              output_csv dir sample_fps) as [[self1 o] r].
  intros row Hrow. specialize (Hrows row Hrow). cbn in Hrows.
  destruct Hrows as [H|[H|[]]]; auto.
Qed.

(* ------------------------------------------------------------------ *)
(** ** The quick check of the decoder *)

Section QuickCheck.
Context {V : Vision}.

(** The decoder returns a fix on every frame, for an index below
    [2^53] in magnitude. *)
Lemma decoder_returns (frame : image) (i : Z) :
  Z.abs i < 2 ^ 53 -> exists geo, extract_gps_from_frame frame i = Ok geo.
Proof.
  intros Hi. unfold extract_gps_from_frame.
  rewrite (fallback_fix_closed_form i Hi).
  destruct (ocr_decode frame) as [[geo|]|e]; eauto.
Qed.

Lemma first_frames_prints (todo : nat) : forall i frames lines,
  0 <= i -> i + Z.of_nat todo < 2 ^ 53 ->
  exists more,
    QuickTest.first_frames todo i frames lines
      = QuickTest.Printed (lines ++ more)%list /\
    List.length more = Nat.min todo (List.length frames) /\
    forall k line, nth_error more k = Some line ->
      fst line = i + Z.of_nat k /\
      exists frame,
        nth_error frames k = Some frame /\
        extract_gps_from_frame frame (fst line) = Ok (snd line).
Proof.
  induction todo as [|todo IH]; intros i frames lines Hi Hb.
  - exists []. cbn. rewrite app_nil_r. split; [ reflexivity | ].
    split; [ reflexivity | ]. intros [|k] line; discriminate.
  - destruct frames as [|frame rest]; cbn [QuickTest.first_frames].
    + exists []. rewrite app_nil_r. split; [ reflexivity | ].
      split; [ reflexivity | ]. intros [|k] line; discriminate.
    + destruct (decoder_returns frame i ltac:(lia)) as [geo Hgeo].
      rewrite Hgeo.
      destruct (IH (i + 1) rest (lines ++ [(i, geo)])%list
                  ltac:(lia) ltac:(lia)) as (more & -> & Hlen & Hk).
      exists ((i, geo) :: more). rewrite <- app_assoc.
      split; [ reflexivity | ]. split; [ cbn; now rewrite Hlen | ].
      intros [|k] line; cbn [nth_error].
      * intros [= <-]. cbn [fst snd]. split; [ lia | eauto ].
      * intros Hline. destruct (Hk k line Hline) as (Hf & frame' & Hn & He).
        split; [ lia | eauto ].
Qed.

End QuickCheck.

(** X25.  The quick check of the decoder ends with [sys.exit(1)] when
    the video cannot be opened.  Otherwise, once the frame count is
    read and the pipeline is built, it prints one line for each of
    the first three frames of the video, or for all of them when
    there are fewer, each with the fix the decoder returns on that
    frame and its index; no frame makes it stop, whatever the text
    recognition does, since the decoder falls back. *)
Theorem quick_test_prints_the_first_three_fixes
    (V : Vision) (video : Video) (new_pipeline : result Self) :
  (isOpened video = false ->
   QuickTest.quick_ocr_test video new_pipeline = QuickTest.Exit 1) /\
  (forall total self,
     isOpened video = true ->
     int_of_float (CAP_PROP_FRAME_COUNT video) = Ok total ->
     new_pipeline = Ok self ->
     exists lines,
       QuickTest.quick_ocr_test video new_pipeline = QuickTest.Printed lines /\
       List.length lines = Nat.min 3 (List.length (frames video)) /\
       forall k line, nth_error lines k = Some line ->
         fst line = Z.of_nat k /\
         exists frame,
           nth_error (frames video) k = Some frame /\
           extract_gps_from_frame frame (Z.of_nat k) = Ok (snd line)).
Proof.
  unfold QuickTest.quick_ocr_test. split; [ now intros -> | ].
  intros total self -> -> ->. cbn [negb].
  destruct (first_frames_prints 3 0 (frames video) [] ltac:(lia) ltac:(lia))
    as (lines & Hrun & Hlen & Hlines).
  exists lines. split; [ exact Hrun | ]. split; [ exact Hlen | ].
  intros k line Hline. destruct (Hlines k line Hline) as (Hf & frame & Hn & He).
  cbn [Z.add] in Hf. split; [ exact Hf | ].
  exists frame. split; [ exact Hn | ]. now rewrite <- Hf.
Qed.

(* ------------------------------------------------------------------ *)
(** ** The loop of the tiled download *)

Section TiledLoop.
Context {T : Type}.
Variable post : nat -> Tiles.reply.
Variable is_request_exception : exn -> bool.
Variable fromstring : string -> result Xml.element.

Lemma contents_from_app (a k j : nat) :
  TiledDownload.contents_from post a (k + j) =
    (TiledDownload.contents_from post a k
     ++ TiledDownload.contents_from post (a + k) j)%list.
Proof.
  unfold TiledDownload.contents_from.
  now rewrite seq_app, map_app, flat_map_app.
Qed.

Lemma attempts_received (retry : Z) (left : nat) : forall attempt net,
  attempt + Z.of_nat left = retry ->
  let X := Tiles.attempts post is_request_exception left attempt retry net in
  exists k,
    Tiles.requests (fst X) = (Tiles.requests net + k)%nat /\
    (k <= left)%nat /\
    TiledDownload.contents_from post (Tiles.requests net) k =
      match snd X with
      | Ok (Some body) => [Some body]
      | _ => []
      end /\
    (snd X = Ok None -> left = 0%nat).
Proof.
  induction left as [|left IH]; intros attempt net Hsum; cbv zeta;
    cbn [Tiles.attempts].
  - exists 0%nat. cbn. repeat split; auto; lia.
  - destruct (post (Tiles.requests net)) as [body|e] eqn:Ep.
    + exists 1%nat. cbn [fst snd Tiles.requests].
      unfold TiledDownload.contents_from. cbn. rewrite Ep. cbn.
      repeat split; try lia. discriminate.
    + assert (Hone : TiledDownload.contents_from post (Tiles.requests net) 1
                     = []).
      { unfold TiledDownload.contents_from. cbn. now rewrite Ep. }
      assert (Hstop : exists k,
                S (Tiles.requests net) = (Tiles.requests net + k)%nat /\
                (k <= S left)%nat /\
                TiledDownload.contents_from post (Tiles.requests net) k = [] /\
                (@Raise (option string) e = Ok None -> S left = 0%nat)).
      { exists 1%nat. repeat split; auto; try lia. discriminate. }
      destruct (is_request_exception e); [ | exact Hstop ].
      destruct (attempt <? retry - 1) eqn:Elt; [ | exact Hstop ].
      apply Z.ltb_lt in Elt.
      match goal with
      | |- context [Tiles.attempts _ _ left ?a retry ?n] =>
          destruct (IH a n ltac:(lia)) as (k & Hreq & Hk & Hc & Hnone)
      end.
      cbv zeta in Hreq, Hc, Hnone. cbn [Tiles.requests Tiles.slept] in *.
      exists (S k). split; [ rewrite Hreq; lia | ]. split; [ lia | ].
      split.
      * change (S k) with (1 + k)%nat.
        rewrite contents_from_app, Hone.
        replace (Tiles.requests net + 1)%nat with (S (Tiles.requests net))
          by lia.
        exact Hc.
      * intros H. specialize (Hnone H). lia.
Qed.

(** What a run of the loop keeps, from the state [p] on. *)
Lemma download_all_keeps (total : Z) (todo : list T) :
  forall p : TiledDownload.Progress,
    TiledDownload.tiles_data p
      = TiledDownload.contents post
          (Tiles.requests (TiledDownload.net p)) ->
    TiledDownload.loop_keeps post total (List.length todo) p
      (TiledDownload.download_all post is_request_exception fromstring
         todo total p).
Proof.
  induction todo as [|tile rest IH]; intros p Hp.
  - cbn [TiledDownload.download_all List.length]. unfold TiledDownload.loop_keeps.
    split; [ exact Hp | ]. repeat split; try lia.
  - cbn [TiledDownload.download_all].
    unfold Tiles.download_tile.
    pose proof (attempts_received 3 (Z.to_nat 3) 0 (TiledDownload.net p)
                  ltac:(reflexivity)) as Hreq.
    cbv zeta in Hreq.
    destruct (Tiles.attempts post is_request_exception (Z.to_nat 3) 0 3
                (TiledDownload.net p)) as [net1 r].
    cbn [fst snd] in Hreq.
    destruct Hreq as (k & Hk & Hle & Hc & Hnone).
    change (Z.to_nat 3) with 3%nat in Hle.
    assert (Hdata : forall data,
              data = match r with
                     | Ok (Some body) => [Some body]
                     | _ => []
                     end ->
              (TiledDownload.tiles_data p ++ data)%list
              = TiledDownload.contents post (Tiles.requests net1)).
    { intros data ->. unfold TiledDownload.contents in *.
      rewrite Hk, contents_from_app, <- Hp. cbn [Nat.add]. now rewrite Hc. }
    assert (Hgo : forall p1,
              TiledDownload.i p1 = TiledDownload.i p + 1 ->
              Tiles.requests (TiledDownload.net p1) = Tiles.requests net1 ->
              TiledDownload.tiles_data p1
                = TiledDownload.contents post (Tiles.requests net1) ->
              TiledDownload.failed p1 = TiledDownload.failed p \/
              (TiledDownload.failed p1 = TiledDownload.failed p + 1 /\
               TiledDownload.too_many (TiledDownload.failed p1) total
                 = false) ->
              TiledDownload.loop_keeps post total (List.length (tile :: rest)) p
                (TiledDownload.download_all post is_request_exception
                   fromstring rest total p1)).
    { intros p1 Hi Hr Hd Hf.
      destruct (IH p1 ltac:(now rewrite Hd, Hr))
        as (G1 & G2 & G3 & G4 & G5 & G6).
      unfold TiledDownload.loop_keeps. cbv zeta in G2, G3, G4, G5. cbn [List.length].
      split; [ exact G1 | ].
      split; [ lia | ]. split; [ lia | ].
      split; [ destruct Hf as [Hf|[Hf _]]; lia | ].
      split; [ intros Hlt; apply G5; lia | ].
      intros Hm. destruct Hf as [Hf|[Hf Hm1]].
      - rewrite Hf in G6. exact (G6 Hm).
      - destruct (G6 Hm1) as [Heq|Hlast]; [ | now right ].
        right. replace (TiledDownload.failed _ - 1)
                 with (TiledDownload.failed p) by lia.
        exact Hm. }
    assert (Hfail : forall data,
              (TiledDownload.tiles_data p ++ data)%list
                = TiledDownload.contents post (Tiles.requests net1) ->
              let p1 := {| TiledDownload.i := TiledDownload.i p + 1;
                           TiledDownload.net := net1;
                           TiledDownload.tiles_data :=
                             (TiledDownload.tiles_data p ++ data)%list;
                           TiledDownload.failed := TiledDownload.failed p + 1 |} in
              TiledDownload.loop_keeps post total (List.length (tile :: rest)) p
                (if TiledDownload.too_many (TiledDownload.failed p1) total
                 then p1
                 else TiledDownload.download_all post
                        is_request_exception fromstring rest total p1)).
    { intros data Hd. cbv zeta.
      cbn [TiledDownload.failed].
      destruct (TiledDownload.too_many (TiledDownload.failed p + 1) total)
        eqn:Em.
      - unfold TiledDownload.loop_keeps.
        cbn [TiledDownload.i TiledDownload.net TiledDownload.tiles_data
             TiledDownload.failed List.length].
        split; [ exact Hd | ]. split; [ lia | ]. split; [ lia | ].
        split; [ lia | ]. split; [ intros _; exact Em | ].
        intros Hm. right.
        now replace (TiledDownload.failed p + 1 - 1)
              with (TiledDownload.failed p) by lia.
      - apply Hgo; cbn; auto. }
    destruct r as [data|e].
    + destruct (TiledDownload.parse fromstring data) as [tree|e].
      * apply Hgo; cbn [TiledDownload.i TiledDownload.net
                        TiledDownload.tiles_data TiledDownload.failed
                        Tiles.requests]; auto.
        apply Hdata. destruct data as [body|]; [ reflexivity | ].
        specialize (Hnone eq_refl). discriminate.
      * apply Hfail. apply Hdata.
        destruct data as [body|]; [ reflexivity | ].
        specialize (Hnone eq_refl). discriminate.
    + pose proof (Hfail [] (Hdata [] eq_refl)) as H.
      cbv zeta in H. rewrite app_nil_r in H. exact H.
Qed.

(** A run in which every request is answered and every answer parses. *)
Lemma download_all_clean (total : Z) (todo : list T) :
  forall p : TiledDownload.Progress,
    (forall k, (k < List.length todo)%nat ->
       exists body tree,
         post (Tiles.requests (TiledDownload.net p) + k)%nat
           = Tiles.Content body /\
         fromstring body = Ok tree) ->
    TiledDownload.download_all post is_request_exception fromstring
      todo total p
    = {| TiledDownload.i := TiledDownload.i p + Z.of_nat (List.length todo);
         TiledDownload.net :=
           {| Tiles.requests :=
                (Tiles.requests (TiledDownload.net p) + List.length todo)%nat;
              Tiles.slept :=
                Tiles.slept (TiledDownload.net p)
                + Z.of_nat (List.length todo) |};
         TiledDownload.tiles_data :=
           (TiledDownload.tiles_data p
            ++ TiledDownload.contents_from post
                 (Tiles.requests (TiledDownload.net p))
                 (List.length todo))%list;
         TiledDownload.failed := TiledDownload.failed p |}.
Proof.
  induction todo as [|tile rest IH]; intros [i [requests slept] data failed] Hall;
    cbn [TiledDownload.i TiledDownload.net TiledDownload.tiles_data
         TiledDownload.failed Tiles.requests Tiles.slept List.length] in *.
  - cbn [TiledDownload.download_all].
    unfold TiledDownload.contents_from. cbn [seq map flat_map].
    rewrite app_nil_r, Z.add_0_r, Z.add_0_r, Nat.add_0_r. reflexivity.
  - destruct (Hall 0%nat ltac:(lia)) as (body & tree & Hpost & Hparse).
    rewrite Nat.add_0_r in Hpost.
    cbn [TiledDownload.download_all].
    unfold Tiles.download_tile. change (Z.to_nat 3) with 3%nat.
    cbn [Tiles.attempts TiledDownload.net Tiles.requests Tiles.slept
         TiledDownload.i TiledDownload.tiles_data TiledDownload.failed].
    rewrite Hpost. cbn [TiledDownload.parse]. rewrite Hparse.
    rewrite IH;
      cbn [TiledDownload.i TiledDownload.net TiledDownload.tiles_data
           TiledDownload.failed Tiles.requests Tiles.slept].
    + change (S (List.length rest)) with (1 + List.length rest)%nat.
      rewrite contents_from_app.
      replace (TiledDownload.contents_from post requests 1)
        with [Some body].
      2:{ unfold TiledDownload.contents_from. cbn [seq map flat_map].
          rewrite Hpost. reflexivity. }
      rewrite <- app_assoc.
      replace (requests + 1)%nat with (S requests) by lia.
      f_equal; [ lia | ].
      f_equal; [ lia | lia ].
    + intros k Hk. destruct (Hall (S k) ltac:(lia)) as (b & t & Hb & Ht).
      exists b, t. split; [ | exact Ht ].
      now replace (S requests + k)%nat with (requests + S k)%nat by lia.
Qed.

End TiledLoop.

(** No float rounded from a quotient without sign is below zero, so a
    count of zero never exceeds the tenth of a count of tiles. *)
Lemma round_aux_not_below_zero (m e : Z) (l : location) :
  SFltb (binary_round_aux prec emax false m e l) (S754_zero false) = false.
Proof.
  unfold binary_round_aux.
  destruct (shr_fexp prec emax m e l) as [mrs' e'].
  destruct (shr_fexp prec emax _ e' loc_Exact) as [mrs'' e''].
  destruct (shr_m mrs''); [ reflexivity | | reflexivity ].
  now destruct (e'' <=? emax - prec).
Qed.

Lemma tenth_not_below_zero (x : float) :
  SFltb x (S754_zero false) = false ->
  SFltb (fmul x TiledDownload.c_0_1) (S754_zero false) = false.
Proof.
  destruct x as [[|]|[|]| |[|] m e]; cbn; try discriminate; try reflexivity.
  intros _. apply round_aux_not_below_zero.
Qed.

Lemma too_many_zero (total : Z) :
  0 <= total -> TiledDownload.too_many 0 total = false.
Proof.
  intros Hpos. unfold TiledDownload.too_many, Tiles.flt.
  change (Z2F 0) with (S754_zero false).
  apply tenth_not_below_zero.
  destruct total as [|n|n]; [ reflexivity | | lia ].
  unfold Z2F, binary_normalize, binary_round.
  destruct (shl_align _ _ _) as [mz ez].
  apply round_aux_not_below_zero.
Qed.

(** X26 ([download_toronto_tiled], the loop over the tiles): at the end
    of the loop [tiles_data] holds the contents of all the responses
    received, in the order of the requests, whether they parsed or
    not; at most three requests were made for each tile tried; the
    failures counted are at most the tiles tried; the loop leaves
    tiles untried only when the failures exceed the tenth of the
    tiles, and it stops at the first failure that does so. *)
Theorem tiled_loop_keeps_every_response
    (T : Type) (post : nat -> Tiles.reply)
    (is_request_exception : exn -> bool)
    (fromstring : string -> result Xml.element) (tiles : list T) :
  let total := Z.of_nat (List.length tiles) in
  let p := TiledDownload.download_all post is_request_exception fromstring
             tiles total TiledDownload.begin in
  TiledDownload.tiles_data p
    = TiledDownload.contents post (Tiles.requests (TiledDownload.net p)) /\
  0 <= TiledDownload.i p <= total /\
  Z.of_nat (Tiles.requests (TiledDownload.net p)) <= 3 * TiledDownload.i p /\
  0 <= TiledDownload.failed p <= TiledDownload.i p /\
  (TiledDownload.i p < total ->
   TiledDownload.too_many (TiledDownload.failed p) total = true) /\
  (TiledDownload.failed p = 0 \/
   TiledDownload.too_many (TiledDownload.failed p - 1) total = false).
Proof.
  cbv zeta.
  destruct (download_all_keeps post is_request_exception fromstring
              (Z.of_nat (List.length tiles)) tiles TiledDownload.begin
              eq_refl) as (G1 & G2 & G3 & G4 & G5 & G6).
  cbn [TiledDownload.begin TiledDownload.i TiledDownload.net
       TiledDownload.failed Tiles.requests] in G2, G3, G4, G5, G6.
  split; [ exact G1 | ]. split; [ lia | ]. split; [ lia | ].
  split; [ lia | ]. split; [ intros H; apply G5; lia | ].
  apply G6. apply too_many_zero. lia.
Qed.

Lemma contents_from_length (post : nat -> Tiles.reply) (n : nat) :
  forall a,
    (forall k, (k < n)%nat ->
       exists body, post (a + k)%nat = Tiles.Content body) ->
    List.length (TiledDownload.contents_from post a n) = n.
Proof.
  unfold TiledDownload.contents_from.
  induction n as [|n IH]; intros a H; [ reflexivity | ].
  cbn [seq map flat_map]. rewrite length_app.
  destruct (H 0%nat ltac:(lia)) as [body Hb].
  rewrite Nat.add_0_r in Hb. rewrite Hb. cbn [List.length Nat.add].
  f_equal. apply IH. intros k Hk.
  destruct (H (S k) ltac:(lia)) as [b Hb'].
  exists b. now replace (S a + k)%nat with (a + S k)%nat by lia.
Qed.

(** X27 ([download_toronto_tiled], the loop over the tiles, and
    [download_tile]): when every request is answered and every answer
    parses, the loop makes one request for each tile and sleeps one
    second after each, counts no failure, and [tiles_data] holds the
    contents of the answers in the order of the tiles. *)
Theorem tiled_loop_without_failure
    (T : Type) (post : nat -> Tiles.reply)
    (is_request_exception : exn -> bool)
    (fromstring : string -> result Xml.element) (tiles : list T) :
  (forall k, (k < List.length tiles)%nat ->
     exists body tree,
       post k = Tiles.Content body /\ fromstring body = Ok tree) ->
  let n := List.length tiles in
  let p := TiledDownload.download_all post is_request_exception fromstring
             tiles (Z.of_nat n) TiledDownload.begin in
  p = {| TiledDownload.i := Z.of_nat n;
         TiledDownload.net := {| Tiles.requests := n;
                                 Tiles.slept := Z.of_nat n |};
         TiledDownload.tiles_data := TiledDownload.contents post n;
         TiledDownload.failed := 0 |} /\
  List.length (TiledDownload.tiles_data p) = n.
Proof.
  intros Hall. cbv zeta.
  rewrite (download_all_clean post is_request_exception fromstring
             (Z.of_nat (List.length tiles)) tiles TiledDownload.begin Hall).
  cbn [TiledDownload.begin TiledDownload.i TiledDownload.net
       TiledDownload.failed TiledDownload.tiles_data Tiles.requests
       Tiles.slept app Nat.add Z.add].
  split; [ reflexivity | ].
  apply contents_from_length. intros k Hk.
  destruct (Hall k Hk) as (body & tree & Hb & _). now exists body.
Qed.

Lemma tiled_loop_without_failure_witness :
  let p := TiledDownload.download_all
             (fun _ => Tiles.Content "a") (fun _ => true)
             OsmSample.fromstring [tt; tt] 2 TiledDownload.begin in
  p = {| TiledDownload.i := 2;
         TiledDownload.net := {| Tiles.requests := 2; Tiles.slept := 2 |};
         TiledDownload.tiles_data := [Some "a"; Some "a"];
         TiledDownload.failed := 0 |} /\
  List.length (TiledDownload.tiles_data p) = 2%nat.
Proof.
  apply (tiled_loop_without_failure unit (fun _ => Tiles.Content "a")
           (fun _ => true) OsmSample.fromstring [tt; tt]).
  intros k _. exists "a", OsmSample.tile_a. split; reflexivity.
Defined.

(* ------------------------------------------------------------------ *)
(** ** The download of Toronto *)

Section MoreTurns.
Variable min_lon max_lat max_lon tile_size : float.

(** The tiles do not depend on the turns given, once they suffice. *)
Lemma row_more_turns (turns : nat) :
  forall lat lon tiles,
    Tiles.row max_lat max_lon tile_size turns lat lon = Some tiles ->
    forall more, (turns <= more)%nat ->
      Tiles.row max_lat max_lon tile_size more lat lon = Some tiles.
Proof.
  induction turns as [|turns IH]; intros lat lon tiles H more Hle;
    [ discriminate | ].
  destruct more as [|more]; [ lia | ].
  cbn [Tiles.row] in H |- *.
  destruct (Tiles.flt lon max_lon); [ | exact H ].
  destruct (Tiles.row max_lat max_lon tile_size turns lat (fadd lon tile_size))
    as [rest|] eqn:E; [ | discriminate ].
  now rewrite (IH _ _ _ E more ltac:(lia)).
Qed.

Lemma rows_more_turns (turns : nat) :
  forall lat tiles,
    Tiles.rows min_lon max_lat max_lon tile_size turns lat = Some tiles ->
    forall more, (turns <= more)%nat ->
      Tiles.rows min_lon max_lat max_lon tile_size more lat = Some tiles.
Proof.
  induction turns as [|turns IH]; intros lat tiles H more Hle;
    [ discriminate | ].
  destruct more as [|more]; [ lia | ].
  cbn [Tiles.rows] in H |- *.
  destruct (Tiles.flt lat max_lat); [ | exact H ].
  destruct (Tiles.row max_lat max_lon tile_size (S turns) lat min_lon)
    as [here|] eqn:Er; [ | discriminate ].
  rewrite (row_more_turns _ _ _ _ Er (S more) ltac:(lia)).
  destruct (Tiles.rows min_lon max_lat max_lon tile_size turns
              (fadd lat tile_size)) as [above|] eqn:Ea; [ | discriminate ].
  now rewrite (IH _ _ Ea more ltac:(lia)).
Qed.

End MoreTurns.

(** The tiles of Toronto, with sixty turns. *)
Lemma toronto_tiles :
  exists tiles,
    Tiles.create_tiles 60 TiledDownload.toronto_bbox TiledDownload.tile_size
      = Some tiles /\
    List.length tiles = 378%nat /\
    forall row, (row < 14)%nat ->
      exists south west north,
        nth_error tiles (27 * row + 26)
          = Some (south, west, north, Str.lit "-79.12") /\
        Tiles.flt (Str.lit "-79.120000000001") west = true.
Proof.
  eexists. split; [ vm_compute; reflexivity | ].
  split; [ reflexivity | ].
  intros row Hrow.
  do 14 (destruct row as [|row];
         [ do 3 eexists; split; vm_compute; reflexivity | ]).
  lia.
Qed.

(** With 378 tiles the failures exceed the tenth from 38 on. *)
Lemma too_many_of_378 (failed : Z) :
  0 <= failed <= 378 ->
  TiledDownload.too_many failed 378 = (38 <=? failed).
Proof.
  intros H.
  assert (Hall : forallb (fun k => Bool.eqb
                            (TiledDownload.too_many (Z.of_nat k) 378)
                            (38 <=? Z.of_nat k)) (seq 0 379) = true)
    by (vm_compute; reflexivity).
  rewrite forallb_forall in Hall.
  specialize (Hall (Z.to_nat failed)).
  rewrite Z2Nat.id in Hall by lia.
  apply Bool.eqb_prop, Hall, in_seq. lia.
Qed.

(** X28 ([download_toronto_tiled] with [create_tiles]): Toronto is
    split into 378 tiles, 14 rows of 27: the sums of the tile size fall
    short of the eastern bound, so each row ends with a tile less than
    a millionth of a millionth of a degree wide.  Whatever the replies,
    the run tries at most the 378 tiles with at most 1134 requests,
    leaves tiles untried only at its 38th failure, and then merges;
    an exception after the loop is one from the writing of the file,
    or one other than [ParseError] that the parsing of a kept content
    raises again. *)
Theorem toronto_run_tries_378_tiles
    (post : nat -> Tiles.reply) (is_request_exception : exn -> bool)
    (fromstring : string -> result Xml.element)
    (write_file : Xml.element -> string -> result unit) (turns : nat) :
  (60 <= turns)%nat ->
  exists tiles p r,
    Tiles.create_tiles turns TiledDownload.toronto_bbox
      TiledDownload.tile_size = Some tiles /\
    List.length tiles = 378%nat /\
    (forall row, (row < 14)%nat ->
       exists south west north,
         nth_error tiles (27 * row + 26)
           = Some (south, west, north, Str.lit "-79.12") /\
         Tiles.flt (Str.lit "-79.120000000001") west = true) /\
    TiledDownload.download_toronto_tiled post is_request_exception
      fromstring write_file turns = Some (p, r) /\
    0 <= TiledDownload.i p <= 378 /\
    (Tiles.requests (TiledDownload.net p) <= 1134)%nat /\
    0 <= TiledDownload.failed p <= 38 /\
    (TiledDownload.i p < 378 -> TiledDownload.failed p = 38) /\
    (forall e, r = Raise e ->
       (exists tree,
          write_file tree TiledDownload.output_file = Raise e) \/
       (e <> Osm.ParseError /\
        exists body,
          In (Some body) (TiledDownload.tiles_data p) /\
          fromstring body = Raise e)).
Proof.
  intros Hturns.
  destruct toronto_tiles as (tiles & Htiles & Hlen & Hrows).
  assert (Hmore : Tiles.create_tiles turns TiledDownload.toronto_bbox
                    TiledDownload.tile_size = Some tiles).
  { revert Htiles. unfold Tiles.create_tiles, TiledDownload.toronto_bbox.
    intros Htiles. exact (rows_more_turns _ _ _ _ _ _ _ Htiles turns Hturns). }
  unfold TiledDownload.download_toronto_tiled. rewrite Hmore.
  exists tiles. do 2 eexists.
  split; [ reflexivity | ]. split; [ exact Hlen | ].
  split; [ exact Hrows | ]. split; [ reflexivity | ].
  destruct (download_all_keeps post is_request_exception fromstring
              (Z.of_nat (List.length tiles)) tiles TiledDownload.begin
              eq_refl) as (G1 & G2 & G3 & G4 & G5 & G6).
  set (p := TiledDownload.download_all _ _ _ tiles _ _) in *.
  rewrite Hlen in *.
  cbn [TiledDownload.begin TiledDownload.i TiledDownload.net
       TiledDownload.failed Tiles.requests] in G2, G3, G4, G5, G6.
  change (Z.of_nat 378) with 378 in *.
  specialize (G6 (too_many_zero 378 ltac:(lia))).
  assert (Hfailed : TiledDownload.failed p <= 38).
  { destruct G6 as [G6|G6]; [ lia | ].
    destruct (Z.eq_dec (TiledDownload.failed p) 0) as [Hz|Hz]; [ lia | ].
    rewrite too_many_of_378 in G6 by lia.
    apply Z.leb_gt in G6. lia. }
  split; [ lia | ]. split; [ lia | ]. split; [ lia | ].
  split.
  - intros Hi. specialize (G5 ltac:(lia)).
    rewrite too_many_of_378 in G5 by lia.
    apply Z.leb_le in G5. lia.
  - intros e He.
    destruct (Osm.merge_osm_tiles fromstring
                (map TiledDownload.tile_text (TiledDownload.tiles_data p)))
      as [tree|e0] eqn:Em; cbn [bind] in He.
    + left. exists tree.
      destruct (write_file tree TiledDownload.output_file) as [[]|e1];
        cbn [bind] in He; [ discriminate | congruence ].
    + right. injection He as <-.
      unfold Osm.merge_osm_tiles in Em.
      destruct (Osm.merge_tiles fromstring _ [] []) as [merged|e1] eqn:E;
        cbn [bind] in Em; [ discriminate | ].
      injection Em as <-.
      destruct (merge_tiles_raises _ _ _ _ _ E) as (Hne & tile & Hin & Ht & Hf).
      split; [ exact Hne | ].
      apply in_map_iff in Hin. destruct Hin as ([body|] & Hd & Hin).
      * cbn in Hd. subst tile. eauto.
      * cbn in Hd. congruence.
Qed.

Lemma toronto_run_tries_378_tiles_witness :
  exists tiles p r,
    Tiles.create_tiles 60 TiledDownload.toronto_bbox
      TiledDownload.tile_size = Some tiles /\
    List.length tiles = 378%nat /\
    (forall row, (row < 14)%nat ->
       exists south west north,
         nth_error tiles (27 * row + 26)
           = Some (south, west, north, Str.lit "-79.12") /\
         Tiles.flt (Str.lit "-79.120000000001") west = true) /\
    TiledDownload.download_toronto_tiled (fun _ => Tiles.Content "a")
      (fun _ => true) OsmSample.fromstring OsmSample.write_file 60
      = Some (p, r) /\
    0 <= TiledDownload.i p <= 378 /\
    (Tiles.requests (TiledDownload.net p) <= 1134)%nat /\
    0 <= TiledDownload.failed p <= 38 /\
    (TiledDownload.i p < 378 -> TiledDownload.failed p = 38) /\
    (forall e, r = Raise e ->
       (exists tree,
          OsmSample.write_file tree TiledDownload.output_file = Raise e) \/
       (e <> Osm.ParseError /\
        exists body,
          In (Some body) (TiledDownload.tiles_data p) /\
          OsmSample.fromstring body = Raise e)).
Proof.
  apply (toronto_run_tries_378_tiles (fun _ => Tiles.Content "a")
           (fun _ => true) OsmSample.fromstring OsmSample.write_file 60).
  lia.
Defined.

(* ------------------------------------------------------------------ *)
(** ** The CSV file and the patch files of a run that is cut short *)









Section Growth.
Context {V : Vision}.
Variable env : Env.













End Growth.

Section EndOfRun.
Context {V : Vision}.
Variable env : Env.
Variable self : Self.
Variable output_csv dir : string.
Variable sample_fps : Z.




End EndOfRun.

(* ------------------------------------------------------------------ *)
(** ** A run on a failing CSV file against the undisturbed run *)

Section Refusal.
Context {V : Vision}.
Variable env : Env.
Variable self : Self.
Variable dir : string.
Variable video_fps interval : Z.













End Refusal.

Section RefusedRun.
Context {V : Vision}.
Variable env : Env.
Variable self : Self.
Variable output_csv dir : string.
Variable sample_fps : Z.


End RefusedRun.



